(** * Computer-Networks-Tools: [trstats.py] and [pingstats.py]

    A shallow embedding of the two command-line tools and the proofs of the
    properties stated about them.

    Conventions of the embedding.
    - A Python [str] is a [string]; each [ascii] is the code point of one
      character, so texts range over the code points below 256.
    - A Python [float] is a primitive binary64 [float]; arithmetic and
      comparisons are the IEEE 754 ones of [PrimFloat].  [float()] converts
      a decimal literal to the nearest float, ties to even.
    - A Python [int] is a [Z].  [int()] accepts a literal of any length
      (CPython from 3.11 on rejects, by default, more than 4300 digits).
    - A computation that can raise returns a [result]; the exception is kept.
    - [None] is [None]; a dict with a fixed set of keys is a record; the dict
      of [aggregate_stats], keyed by hop number, is an association list in
      insertion order.
    - [sum] adds from left to right, as CPython does up to 3.11; the
      compensated summation of later versions is [sum_compensated], and the
      values stated for concrete inputs are checked under both.
    - [sorted] is a stable sort by [<]; on a list that holds NaN, on which
      [<] is not an order, the list CPython returns is not modelled.
    - Printing, sleeping, running a process and reading or writing a file
      are events and parameters of [main]: the outside is a parameter, what
      the program does to it is the list of events returned.  [print]
      returns, and a call of [subprocess.run] that raises is caught by the
      program.  [Trstats.main] and [Pingstats.main] are the programs before
      an outside whose other calls return too; [TrRun.main] and
      [PingRun.main] are the same programs before an outside in which
      writing a file, drawing a plot, reading a file that exists and
      sleeping can raise. *)

From Stdlib Require Import ZArith NArith List String Ascii Bool Lia.
From Stdlib Require Import Floats DecimalString DecimalZ DecimalPos Sorted Permutation.
Import ListNotations.

Local Open Scope Z_scope.
Local Open Scope string_scope.
Local Open Scope list_scope.

(** ** Exceptions

    The exceptions the two programs raise themselves, and those the outside
    raises: [OSError] stands for its subclasses too ([FileNotFoundError],
    [IsADirectoryError], [PermissionError]), and [Other] for an exception of
    any other class, by the name of the class. *)

Inductive exn : Set :=
| ValueError
| ZeroDivisionError
| IndexError
| KeyError
| StatisticsError
| OverflowError
| OSError
| Other (name : string).

Inductive result (A : Type) : Type :=
| Ok (a : A)
| Raise (e : exn).

Arguments Ok {A} a.
Arguments Raise {A} e.

Definition bind {A B : Type} (r : result A) (k : A -> result B) : result B :=
  match r with
  | Ok a => k a
  | Raise e => Raise e
  end.

Notation "x <- c1 ;; c2" := (bind c1 (fun x => c2))
  (at level 61, c1 at next level, right associativity).

(** ** Output, files and processes

    What a program does to the outside is a list of events, in order; a
    computation returns the events it caused and its result. *)

Definition io (E A : Type) : Type := (list E * result A)%type.

Definition io_ret {E A : Type} (a : A) : io E A := ([], Ok a).

Definition io_bind {E A B : Type} (m : io E A) (k : A -> io E B) : io E B :=
  match m with
  | (ev, Ok a) => let (ev', r) := k a in (ev ++ ev', r)
  | (ev, Raise e) => (ev, Raise e)
  end.

Definition emit {E : Type} (e : E) : io E unit := ([e], Ok tt).

Definition lift {E A : Type} (r : result A) : io E A := ([], r).

Notation "x <~ c1 ;; c2" := (io_bind c1 (fun x => c2))
  (at level 61, c1 at next level, right associativity).

(** What [subprocess.run] did: the process ran and exited, or the call
    raised an exception [e] (printed as [str(e)]). *)
Inductive completed : Set :=
| Exited (returncode : Z) (stdout stderr : string)
| Failed (e : string).

(** The truth value of an optional text: [None] and the empty text are
    false. *)
Definition truthy (o : option string) : option string :=
  match o with
  | Some (String c rest) => Some (String c rest)
  | _ => None
  end.

(** ** Strings: the [str] methods the two programs call *)

Module PyStr.

Definition ord (c : ascii) : N := N_of_ascii c.

(** [str.isspace] on one character: U+0009..U+000D, U+001C..U+0020, U+0085,
    U+00A0.  [split()], [strip()], [int()] and [float()] use this set. *)
Definition isspace (c : ascii) : bool :=
  let n := ord c in
  ((9 <=? n) && (n <=? 13) || (28 <=? n) && (n <=? 32) || (n =? 133) || (n =? 160))%N.

(** Line boundaries of [str.splitlines]: LF, VT, FF, CR, FS, GS, RS, NEL
    (and CR LF as one boundary). *)
Definition islinebreak (c : ascii) : bool :=
  let n := ord c in
  ((10 <=? n) && (n <=? 13) || (28 <=? n) && (n <=? 30) || (n =? 133))%N.

Definition isdigit (c : ascii) : bool :=
  let n := ord c in ((48 <=? n) && (n <=? 57))%N.

Definition digit_value (c : ascii) : Z := Z.of_N (ord c) - 48.

Definition is_empty (s : string) : bool :=
  match s with EmptyString => true | String _ _ => false end.

Definition snoc (s : string) (c : ascii) : string := s ++ String c EmptyString.

Definition rev (s : string) : string :=
  string_of_list_ascii (List.rev (list_ascii_of_string s)).

(** [s.splitlines()]; [cur] is the line being read. *)
Fixpoint splitlines_from (cur s : string) : list string :=
  match s with
  | EmptyString => if is_empty cur then [] else [cur]
  | String c rest =>
      if islinebreak c then
        cur :: match rest with
               | String d rest' =>
                   if (Ascii.eqb c "013" && Ascii.eqb d "010")%bool
                   then splitlines_from EmptyString rest'
                   else splitlines_from EmptyString rest
               | EmptyString => splitlines_from EmptyString rest
               end
      else splitlines_from (snoc cur c) rest
  end.

Definition splitlines (s : string) : list string := splitlines_from EmptyString s.

(** [s.split()]: the maximal runs of characters that are not whitespace. *)
Fixpoint split_from (cur s : string) : list string :=
  match s with
  | EmptyString => if is_empty cur then [] else [cur]
  | String c rest =>
      if isspace c then
        if is_empty cur then split_from EmptyString rest
        else cur :: split_from EmptyString rest
      else split_from (snoc cur c) rest
  end.

Definition split (s : string) : list string := split_from EmptyString s.

(** [s.split(sep)] for a separator of one character. *)
Fixpoint split_on_from (sep : ascii) (cur s : string) : list string :=
  match s with
  | EmptyString => [cur]
  | String c rest =>
      if Ascii.eqb c sep then cur :: split_on_from sep EmptyString rest
      else split_on_from sep (snoc cur c) rest
  end.

Definition split_on (sep : ascii) (s : string) : list string :=
  split_on_from sep EmptyString s.

Fixpoint lstrip (s : string) : string :=
  match s with
  | String c rest => if isspace c then lstrip rest else s
  | EmptyString => EmptyString
  end.

Definition rstrip (s : string) : string := rev (lstrip (rev s)).

(** [s.strip()] *)
Definition strip (s : string) : string := rstrip (lstrip s).

(** [s.startswith(p)] *)
Definition startswith (s p : string) : bool := String.prefix p s.

(** [s.endswith(p)] *)
Definition endswith (s p : string) : bool := String.prefix (rev p) (rev s).

(** [sub in s] *)
Fixpoint contains (sub s : string) : bool :=
  String.prefix sub s ||
  match s with
  | String _ rest => contains sub rest
  | EmptyString => false
  end.

(** [s.replace("ms", "")]: every occurrence of "ms", found left to right
    without overlap, is removed. *)
Fixpoint replace_ms (s : string) : string :=
  match s with
  | EmptyString => EmptyString
  | String c rest =>
      match rest with
      | String d rest' =>
          if (Ascii.eqb c "m" && Ascii.eqb d "s")%bool then replace_ms rest'
          else String c (replace_ms rest)
      | EmptyString => String c EmptyString
      end
  end.

(** ASCII lower case of one character, for the case-insensitive literals of
    [float()]. *)
Definition lower (c : ascii) : ascii :=
  let n := ord c in
  if ((65 <=? n) && (n <=? 90))%N then ascii_of_N (n + 32) else c.

Fixpoint lowercase (s : string) : string :=
  match s with
  | EmptyString => EmptyString
  | String c rest => String (lower c) (lowercase rest)
  end.

End PyStr.

(** ** Numbers: [int()], [float()], [round()], [sum], [min], [max], [sorted]
    and [statistics.median] *)

Module PyNum.

Import PyStr.

(** *** Decimal literals *)

(** The rest of a [digitpart]: digits, each optionally preceded by one
    underscore.  Returns the value read so far, the number of digits read
    and the unread suffix. *)
Fixpoint digits_tail (acc : Z) (n : Z) (s : string) : Z * Z * string :=
  match s with
  | EmptyString => (acc, n, s)
  | String c rest =>
      if isdigit c then digits_tail (10 * acc + digit_value c) (n + 1) rest
      else if Ascii.eqb c "_" then
        match rest with
        | String d rest' =>
            if isdigit d then digits_tail (10 * acc + digit_value d) (n + 1) rest'
            else (acc, n, s)
        | EmptyString => (acc, n, s)
        end
      else (acc, n, s)
  end.

(** [digitpart ::= digit (["_"] digit)*], continuing the value [acc]. *)
Definition digitpart (acc : Z) (s : string) : option (Z * Z * string) :=
  match s with
  | String c rest =>
      if isdigit c then Some (digits_tail (10 * acc + digit_value c) 1 rest)
      else None
  | EmptyString => None
  end.

(** An optional sign; [true] is minus. *)
Definition sign (s : string) : bool * string :=
  match s with
  | String c rest =>
      if Ascii.eqb c "-" then (true, rest)
      else if Ascii.eqb c "+" then (false, rest)
      else (false, s)
  | EmptyString => (false, s)
  end.

(** [int(s)] in base 10: surrounding whitespace, an optional sign, one
    [digitpart].  [None] is [ValueError]. *)
Definition int_of_string (s : string) : option Z :=
  let (neg, body) := sign (strip s) in
  match digitpart 0 body with
  | Some (v, _, EmptyString) => Some (if neg then - v else v)
  | _ => None
  end.

(** *** Binary64 values *)

Definition float_of_spec (x : spec_float) : float := SF2Prim x.

(** The binary64 value nearest to the integer [z] (ties to even): the
    conversion applied to an [int] operand of a float operation. *)
Definition float_of_Z (z : Z) : float :=
  float_of_spec (binary_normalize prec emax z 0 false).

(** The binary64 value nearest to [(-1)^neg * m * 10^e10] (ties to even,
    overflow to infinity): the conversion of a decimal literal. *)
Definition float_of_decimal (neg : bool) (m : Z) (e10 : Z) : float :=
  match m with
  | Zpos p =>
      float_of_spec
        (if (0 <=? e10)%Z
         then binary_round prec emax neg (Z.to_pos (Zpos p * 10 ^ e10)) 0
         else SFdiv prec emax (S754_finite neg p 0)
                (S754_finite false (Z.to_pos (10 ^ (- e10))) 0))
  | _ => if neg then neg_zero else zero
  end.

(** [exponent ::= ("e" | "E") [sign] digitpart], up to the end of the text;
    no exponent is exponent 0. *)
Definition exponent (s : string) : option Z :=
  match s with
  | EmptyString => Some 0
  | String c rest =>
      if Ascii.eqb (lower c) "e" then
        let (neg, body) := sign rest in
        match digitpart 0 body with
        | Some (v, _, EmptyString) => Some (if neg then - v else v)
        | _ => None
        end
      else None
  end.

(** [number ::= [digitpart] "." digitpart | digitpart ["."]], followed by
    the exponent: the digits as one integer and the power of ten. *)
Definition floatnumber (s : string) : option (Z * Z) :=
  match digitpart 0 s with
  | Some (i, _, rest) =>
      match rest with
      | String c rest2 =>
          if Ascii.eqb c "." then
            match digitpart i rest2 with
            | Some (m, nf, rest3) =>
                match exponent rest3 with
                | Some e => Some (m, e - nf)
                | None => None
                end
            | None =>
                match exponent rest2 with
                | Some e => Some (i, e)
                | None => None
                end
            end
          else
            match exponent rest with
            | Some e => Some (i, e)
            | None => None
            end
      | EmptyString => Some (i, 0)
      end
  | None =>
      match s with
      | String c rest2 =>
          if Ascii.eqb c "." then
            match digitpart 0 rest2 with
            | Some (m, nf, rest3) =>
                match exponent rest3 with
                | Some e => Some (m, e - nf)
                | None => None
                end
            | None => None
            end
          else None
      | EmptyString => None
      end
  end.

(** [float(s)]: surrounding whitespace, an optional sign, then "inf",
    "infinity" or "nan" in any case, or a decimal [floatnumber].  [None] is
    [ValueError]. *)
Definition float_of_string (s : string) : option float :=
  let (neg, body) := sign (strip s) in
  let low := lowercase body in
  if (String.eqb low "inf" || String.eqb low "infinity")%bool
  then Some (if neg then neg_infinity else infinity)
  else if String.eqb low "nan" then Some nan
  else
    match floatnumber body with
    | Some (m, e10) => Some (float_of_decimal neg m e10)
    | None => None
    end.

(** *** Arithmetic and order *)

Local Open Scope float_scope.

(** [round(x, ndigits)] for a float [x] and [ndigits >= 0]: infinities and
    NaN are returned as they are; otherwise the exact value of [x] is rounded
    to [ndigits] decimals, ties to even, and the decimal obtained is
    converted back to the nearest float. *)
Definition round (x : float) (ndigits : nat) : float :=
  match Prim2SF x with
  | S754_finite s m e =>
      if (0 <=? e)%Z then x
      else
        let num := (Zpos m * 10 ^ Z.of_nat ndigits)%Z in
        let den := (2 ^ (- e))%Z in
        let q := (num / den)%Z in
        let r := (num mod den)%Z in
        let n := match (2 * r ?= den)%Z with
                 | Lt => q
                 | Gt => (q + 1)%Z
                 | Eq => if Z.even q then q else (q + 1)%Z
                 end in
        float_of_decimal s n (- Z.of_nat ndigits)
  | _ => x
  end.

(** [sum(xs)] on floats: the start value 0 and the items added from left to
    right. *)
Definition sum (xs : list float) : float := fold_left PrimFloat.add xs 0.

(** From CPython 3.12 on, [sum] adds floats with Neumaier's compensation:
    the first item is added to the start value, the later ones to a running
    sum [f] with a correction [c], which is added at the end when it is
    finite and not zero.  The results stated below for concrete inputs are
    checked under this summation too. *)
Definition sum_compensated (xs : list float) : float :=
  match xs with
  | [] => 0
  | x0 :: rest =>
      let '(f, c) :=
        fold_left
          (fun (fc : float * float) (x : float) =>
             let (f, c) := fc in
             let t := f + x in
             (t, if abs x <=? abs f then c + ((f - t) + x) else c + ((x - t) + f)))
          rest (0 + x0, 0) in
      if (negb (c =? 0) && is_finite c)%bool then f + c else f
  end.

(** [x / n] for a float [x] and an int [n]. *)
Definition truediv (x : float) (n : Z) : result float :=
  if (n =? 0)%Z then Raise ZeroDivisionError else Ok (x / float_of_Z n).

(** [len(xs)] *)
Definition len {A : Type} (xs : list A) : Z := Z.of_nat (List.length xs).

(** [max(xs)]: the first item, replaced by each later item that compares
    greater. *)
Definition max (xs : list float) : result float :=
  match xs with
  | [] => Raise ValueError
  | x :: rest => Ok (fold_left (fun m item => if m <? item then item else m) rest x)
  end.

(** [min(xs)]: the first item, replaced by each later item that compares
    less. *)
Definition min (xs : list float) : result float :=
  match xs with
  | [] => Raise ValueError
  | x :: rest => Ok (fold_left (fun m item => if item <? m then item else m) rest x)
  end.

(** [sorted(xs)]: a stable sort by [<].  On a list without NaN the order
    [<] is a strict weak order and every stable sort returns this list. *)
Fixpoint insert (x : float) (xs : list float) : list float :=
  match xs with
  | [] => [x]
  | y :: rest => if y <? x then y :: insert x rest else x :: xs
  end.

Fixpoint sorted (xs : list float) : list float :=
  match xs with
  | [] => []
  | x :: rest => insert x (sorted rest)
  end.

(** [statistics.median(data)] *)
Definition median (data : list float) : result float :=
  let data := sorted data in
  let n := List.length data in
  if Nat.eqb n 0 then Raise StatisticsError
  else if Nat.odd n then Ok (nth (n / 2)%nat data 0)
  else
    let i := (n / 2)%nat in
    Ok ((nth (i - 1)%nat data 0 + nth i data 0) / 2).

End PyNum.

(** ** [trstats.py] *)

Module Trstats.

Import PyStr.

(** One entry of a hop's ["hosts"]: the list [[hostname, ip_address]]. *)
Definition host_entry : Set := list string.

(** The dict built for one hop, by [parse_traceroute_output] for one run and
    by [aggregate_stats] for all runs: the keys are ["avg"], ["hop"],
    ["hosts"], ["max"], ["med"] and ["min"]. *)
Record Hop : Set := mkHop {
  avg : float;
  hop : Z;
  hosts : list host_entry;
  max : float;
  med : float;
  min : float
}.

(** [p.startswith('(') and p.endswith(')')] *)
Definition parenthesized (p : string) : bool :=
  startswith p "(" && endswith p ")".

Definition host_entry_eqb (a b : host_entry) : bool :=
  if list_eq_dec string_dec a b then true else false.

(** [entry in hosts] *)
Definition mem (entry : host_entry) (hosts : list host_entry) : bool :=
  existsb (host_entry_eqb entry) hosts.

(** The [while i < len(parts)] loop of [parse_traceroute_output].  The first
    argument is [parts[i:]]; a step of the cursor by one passes to the tail,
    the step by two of a paired hostname passes to the tail of the tail. *)
Fixpoint scan (parts : list string) (hosts : list host_entry) (latencies : list float)
  : list host_entry * list float :=
  match parts with
  | [] => (hosts, latencies)
  | part :: rest =>
      if parenthesized part then scan rest hosts latencies
      else
        match PyNum.float_of_string (replace_ms part) with
        | Some latency => scan rest hosts (latencies ++ [latency])
        | None =>
            let hostname := part in
            match rest with
            | ip_address :: rest' =>
                if parenthesized ip_address then
                  scan rest'
                    (if mem [hostname; ip_address] hosts then hosts
                     else hosts ++ [[hostname; ip_address]])
                    latencies
                else scan rest hosts latencies
            | [] => scan rest hosts latencies
            end
        end
  end.

(** The dict appended for a hop with samples. *)
Definition hop_record (hop_number : Z) (hosts : list host_entry) (latencies : list float)
  : result Hop :=
  a <- PyNum.truediv (PyNum.sum latencies) (PyNum.len latencies) ;;
  mx <- PyNum.max latencies ;;
  md <- PyNum.median latencies ;;
  mn <- PyNum.min latencies ;;
  Ok (mkHop a hop_number hosts mx md mn).

(** The body of the [for line] loop for a line that is not skipped: the hop
    to append, if any. *)
Definition parse_line (line : string) : result (option Hop) :=
  match split line with
  | [] => Raise IndexError
  | first :: rest =>
      match PyNum.int_of_string first with
      | None => Raise ValueError
      | Some hop_number =>
          let (hosts, latencies) := scan rest [] [] in
          match latencies with
          | [] => Ok None
          | _ :: _ => h <- hop_record hop_number hosts latencies ;; Ok (Some h)
          end
      end
  end.

(** [line.startswith("traceroute") or line.strip() == ""] *)
Definition skipped (line : string) : bool :=
  startswith line "traceroute" || String.eqb (strip line) "".

Fixpoint parse_lines (lines : list string) (hops : list Hop) : result (list Hop) :=
  match lines with
  | [] => Ok hops
  | line :: rest =>
      if skipped line then parse_lines rest hops
      else
        r <- parse_line line ;;
        parse_lines rest (match r with Some h => hops ++ [h] | None => hops end)
  end.

Definition parse_traceroute_output (traceroute_output : string) : result (list Hop) :=
  parse_lines (splitlines traceroute_output) [].

(** The value kept in [aggregated] for one hop number. *)
Record Pool : Set := mkPool {
  pool_hop : Z;
  pool_hosts : list host_entry;
  pool_min : list float;
  pool_max : list float;
  pool_avg : list float;
  pool_med : list float
}.

(** The dict [aggregated]: hop number to pool, in insertion order. *)
Definition dict : Set := list (Z * Pool).

Fixpoint lookup (key : Z) (d : dict) : option Pool :=
  match d with
  | [] => None
  | (k, v) :: rest => if (k =? key)%Z then Some v else lookup key rest
  end.

(** [d[key]] *)
Definition getitem (key : Z) (d : dict) : result Pool :=
  match lookup key d with
  | Some v => Ok v
  | None => Raise KeyError
  end.

(** [d[key] = v] *)
Fixpoint setitem (key : Z) (v : Pool) (d : dict) : dict :=
  match d with
  | [] => [(key, v)]
  | (k, w) :: rest =>
      if (k =? key)%Z then (k, v) :: rest else (k, w) :: setitem key v rest
  end.

(** [d[key][field].append(x)]: the pool under [key] is read, changed by [f]
    and, being the same object, seen changed in [d]. *)
Definition append_to (key : Z) (f : Pool -> Pool) (d : dict) : result dict :=
  p <- getitem key d ;;
  Ok (setitem key (f p) d).

Definition add_min (x : float) (p : Pool) : Pool :=
  mkPool (pool_hop p) (pool_hosts p) (pool_min p ++ [x]) (pool_max p) (pool_avg p) (pool_med p).
Definition add_max (x : float) (p : Pool) : Pool :=
  mkPool (pool_hop p) (pool_hosts p) (pool_min p) (pool_max p ++ [x]) (pool_avg p) (pool_med p).
Definition add_avg (x : float) (p : Pool) : Pool :=
  mkPool (pool_hop p) (pool_hosts p) (pool_min p) (pool_max p) (pool_avg p ++ [x]) (pool_med p).
Definition add_med (x : float) (p : Pool) : Pool :=
  mkPool (pool_hop p) (pool_hosts p) (pool_min p) (pool_max p) (pool_avg p) (pool_med p ++ [x]).

(** The body of the inner loop of [aggregate_stats], for one hop of one
    run. *)
Definition add_hop (aggregated : dict) (h : Hop) : result dict :=
  let hop_number := hop h in
  let aggregated :=
    match lookup hop_number aggregated with
    | None => setitem hop_number (mkPool hop_number (hosts h) [] [] [] []) aggregated
    | Some _ => aggregated
    end in
  aggregated <- append_to hop_number (add_min (min h)) aggregated ;;
  aggregated <- append_to hop_number (add_max (max h)) aggregated ;;
  aggregated <- append_to hop_number (add_avg (avg h)) aggregated ;;
  append_to hop_number (add_med (med h)) aggregated.

Fixpoint add_hops (aggregated : dict) (hops : list Hop) : result dict :=
  match hops with
  | [] => Ok aggregated
  | h :: rest => aggregated <- add_hop aggregated h ;; add_hops aggregated rest
  end.

Fixpoint add_runs (aggregated : dict) (hops_list : list (list Hop)) : result dict :=
  match hops_list with
  | [] => Ok aggregated
  | hops :: rest => aggregated <- add_hops aggregated hops ;; add_runs aggregated rest
  end.

(** [sorted(aggregated)]: the keys in ascending order. *)
Fixpoint insert_key (k : Z) (ks : list Z) : list Z :=
  match ks with
  | [] => [k]
  | j :: rest => if (j <? k)%Z then j :: insert_key k rest else k :: ks
  end.

Fixpoint sorted_keys (ks : list Z) : list Z :=
  match ks with
  | [] => []
  | k :: rest => insert_key k (sorted_keys rest)
  end.

(** The dict appended to [final_stats] for one pool. *)
Definition final_record (p : Pool) : result Hop :=
  s <- PyNum.truediv (PyNum.sum (pool_avg p)) (PyNum.len (pool_avg p)) ;;
  let a := PyNum.round s 3 in
  mx <- PyNum.max (pool_max p) ;;
  md <- PyNum.median (pool_med p) ;;
  mn <- PyNum.min (pool_min p) ;;
  Ok (mkHop a (pool_hop p) (pool_hosts p) mx md mn).

Fixpoint finalize (aggregated : dict) (keys : list Z) (final_stats : list Hop)
  : result (list Hop) :=
  match keys with
  | [] => Ok final_stats
  | hop_number :: rest =>
      p <- getitem hop_number aggregated ;;
      r <- final_record p ;;
      finalize aggregated rest (final_stats ++ [r])
  end.

Definition aggregate_stats (hops_list : list (list Hop)) : result (list Hop) :=
  aggregated <- add_runs [] hops_list ;;
  finalize aggregated (sorted_keys (map fst aggregated)) [].

(** *** The program

    [main] before an outside whose calls return: a file that exists is read
    as a text, [save_to_json] and [generate_boxplot] return, and the delay
    is one that [time.sleep] converts to nanoseconds.  [TrRun], further
    down, is the same program when these calls can raise. *)

Inductive event : Set :=
| Print (text : string)
| Sleep (seconds : Z)
| SaveToJson (data : list Hop) (output_file : string)
| GenerateBoxplot (hops_stats : list Hop) (output_file : string).

Record Args : Set := mkArgs {
  num_runs : Z;
  run_delay : Z;
  max_hops : Z;
  output : string;
  graph : string;
  target : option string;
  test : option string
}.

(** The outside: the text of each file that exists, and what the k-th call
    of [subprocess.run] (from 0) did. *)
Record World : Type := mkWorld {
  files : string -> option string;
  traceroute : nat -> completed
}.

Definition run_traceroute (target : string) (max_hops : Z) (c : completed)
  : io event (option string) :=
  match c with
  | Exited returncode stdout stderr =>
      if (returncode =? 0)%Z then io_ret (Some stdout)
      else _ <~ emit (Print ("Error running traceroute: " ++ stderr)) ;; io_ret None
  | Failed e =>
      _ <~ emit (Print ("Exception running traceroute: " ++ e)) ;; io_ret None
  end.

(** [str(i)] *)
Definition str (i : Z) : string := NilZero.string_of_int (Z.to_int i).

(** [os.path.join(a, b)] for a relative [b] *)
Definition path_join (a b : string) : string :=
  if (is_empty a || endswith a "/")%bool then a ++ b else a ++ "/" ++ b.

(** [time.sleep(seconds)], for a number of seconds in the range it
    converts: a negative length raises [ValueError]. *)
Definition sleep (seconds : Z) : io event unit :=
  if (seconds <? 0)%Z then lift (Raise ValueError) else emit (Sleep seconds).

(** The loop of the test mode, over the run indices still to read. *)
Fixpoint read_runs (w : World) (test : string) (indices : list Z)
  (hops_list : list (list Hop)) : io event (list (list Hop)) :=
  match indices with
  | [] => io_ret hops_list
  | i :: rest =>
      let file_path := path_join test ("tr_run-" ++ str i ++ ".out") in
      match files w file_path with
      | Some traceroute_output =>
          hops <~ lift (parse_traceroute_output traceroute_output) ;;
          read_runs w test rest (hops_list ++ [hops])
      | None =>
          _ <~ emit (Print ("File " ++ file_path ++ " does not exist.")) ;;
          read_runs w test rest hops_list
      end
  end.

(** The loop of the live mode, over the calls still to make. *)
Fixpoint live_runs (w : World) (target : string) (max_hops run_delay : Z)
  (calls : list nat) (hops_list : list (list Hop)) : io event (list (list Hop)) :=
  match calls with
  | [] => io_ret hops_list
  | k :: rest =>
      traceroute_output <~ run_traceroute target max_hops (traceroute w k) ;;
      hops_list <~
        match truthy traceroute_output with
        | Some traceroute_output =>
            hops <~ lift (parse_traceroute_output traceroute_output) ;;
            io_ret (hops_list ++ [hops])
        | None => io_ret hops_list
        end ;;
      _ <~ sleep run_delay ;;
      live_runs w target max_hops run_delay rest hops_list
  end.

(** The end of [main]: aggregation and the two reports, each of which
    returns. *)
Definition report (args : Args) (hops_list : list (list Hop)) : io event unit :=
  final_stats <~ lift (aggregate_stats hops_list) ;;
  _ <~ emit (SaveToJson final_stats (output args)) ;;
  emit (GenerateBoxplot final_stats (graph args)).

Definition main (args : Args) (w : World) : io event unit :=
  match truthy (test args) with
  | Some test =>
      hops_list <~ read_runs w test
                     (map Z.of_nat (seq 1 (Z.to_nat (num_runs args)))) [] ;;
      report args hops_list
  | None =>
      match truthy (target args) with
      | None => emit (Print "Target is required when not in test mode.")
      | Some target =>
          hops_list <~ live_runs w target (max_hops args) (run_delay args)
                         (seq 0 (Z.to_nat (num_runs args))) [] ;;
          report args hops_list
      end
  end.

End Trstats.

(** ** [pingstats.py] *)

Module Pingstats.

Import PyStr.

(** The dict of one ping summary: the keys are ["avg"], ["max"], ["med"] and
    ["min"]. *)
Record Stats : Set := mkStats {
  avg : float;
  max : float;
  med : float;
  min : float
}.

(** The body of [for part in parts]: a part that starts with "time=" gives
    the text between its first and second "=", which is appended when
    [float()] accepts it. *)
Definition add_part (latencies : list float) (part : string) : list float :=
  if startswith part "time=" then
    match PyNum.float_of_string (nth 1 (split_on "=" part) "") with
    | Some latency => latencies ++ [latency]
    | None => latencies
    end
  else latencies.

(** The body of [for line in ping_output.splitlines()]. *)
Definition add_line (latencies : list float) (line : string) : list float :=
  if contains "time=" line then fold_left add_part (split line) latencies
  else latencies.

(** The list [latencies] at the end of the loop. *)
Definition ping_latencies (ping_output : string) : list float :=
  fold_left add_line (splitlines ping_output) [].

(** The dict computed from a list of samples. *)
Definition stats_record (latencies : list float) : result Stats :=
  a <- PyNum.truediv (PyNum.sum latencies) (PyNum.len latencies) ;;
  mx <- PyNum.max latencies ;;
  md <- PyNum.median latencies ;;
  mn <- PyNum.min latencies ;;
  Ok (mkStats a mx md mn).

Definition parse_ping_output (ping_output : string) : result (option Stats) :=
  let latencies := ping_latencies ping_output in
  match latencies with
  | [] => Ok None
  | _ :: _ => stats <- stats_record latencies ;; Ok (Some stats)
  end.

(** The list [all_latencies] at the end of the loop of
    [aggregate_ping_stats]. *)
Definition all_latencies (stats_list : list Stats) : list float :=
  fold_left (fun acc stats => acc ++ [min stats; med stats; avg stats; max stats])
    stats_list [].

Definition aggregate_ping_stats (stats_list : list Stats) : result Stats :=
  let all_latencies := all_latencies stats_list in
  s <- PyNum.truediv (PyNum.sum all_latencies) (PyNum.len all_latencies) ;;
  let a := PyNum.round s 3 in
  mx <- PyNum.max all_latencies ;;
  md <- PyNum.median all_latencies ;;
  mn <- PyNum.min all_latencies ;;
  Ok (mkStats a mx md mn).

(** *** The program

    [main] before an outside in which [save_to_json] and [generate_boxplot]
    return.  [PingRun], further down, is the same program when these calls
    can raise. *)

Inductive event : Set :=
| Print (text : string)
| SaveToJson (data : Stats) (output_file : string)
| GenerateBoxplot (latency_stats : Stats) (output_file : string).

Record Args : Set := mkArgs {
  max_pings : Z;
  delay : Z;
  output : string;
  graph : string;
  target : option string
}.

Definition run_ping (target : string) (max_pings delay : Z) (c : completed)
  : io event (option string) :=
  match c with
  | Exited returncode stdout stderr =>
      if (returncode =? 0)%Z then io_ret (Some stdout)
      else _ <~ emit (Print ("Error running ping: " ++ stderr)) ;; io_ret None
  | Failed e =>
      _ <~ emit (Print ("Exception running ping: " ++ e)) ;; io_ret None
  end.

(** [main]; [c] is what the one call of [subprocess.run] does. *)
Definition main (args : Args) (c : completed) : io event unit :=
  match truthy (target args) with
  | None => emit (Print "Target is required.")
  | Some target =>
      ping_output <~ run_ping target (max_pings args) (delay args) c ;;
      match truthy ping_output with
      | Some ping_output =>
          stats <~ lift (parse_ping_output ping_output) ;;
          match stats with
          | Some stats =>
              _ <~ emit (SaveToJson stats (output args)) ;;
              emit (GenerateBoxplot stats (graph args))
          | None => io_ret tt
          end
      | None => io_ret tt
      end
  end.

End Pingstats.

(** ** The two programs before an outside whose calls can raise

    [save_to_json] opens a file for writing, [generate_boxplot] calls the
    plotting library, the test mode opens and reads the files it finds, and
    [time.sleep] converts its argument to nanoseconds: each of these calls
    can raise.  Here what a call of the outside does, returning or raising,
    is a parameter, and the event of a call is recorded when the call is
    made. *)

Module TrRun.

Import Trstats.

(** What is found at a path: nothing ([os.path.exists] is false); a text;
    or something that exists and that [open] or [read] does not give as a
    text (a directory, a file that may not be read, bytes that are not a
    text), with the exception raised. *)
Inductive file : Set :=
| Missing
| Text (content : string)
| Unreadable (e : exn).

(** The outside: what is found at each path, what the k-th call of
    [subprocess.run] (from 0) did, and what the calls [save_to_json(data,
    output_file)] and [generate_boxplot(hops_stats, output_file)] do. *)
Record World : Type := mkWorld {
  files : string -> file;
  traceroute : nat -> completed;
  save_to_json : list Hop -> string -> result unit;
  generate_boxplot : list Hop -> string -> result unit
}.

(** The largest number of seconds whose nanoseconds fit the signed 64-bit
    time of CPython. *)
Definition sleep_max : Z := 9223372036.

(** [time.sleep(seconds)] on an int: the seconds are converted to
    nanoseconds, which raises [OverflowError] out of 64 bits; then a
    negative length raises [ValueError]. *)
Definition sleep (seconds : Z) : io event unit :=
  if ((seconds <? - sleep_max) || (sleep_max <? seconds))%Z
  then lift (Raise OverflowError)
  else if (seconds <? 0)%Z then lift (Raise ValueError)
  else emit (Sleep seconds).

(** The loop of the test mode, over the run indices still to read. *)
Fixpoint read_runs (w : World) (test : string) (indices : list Z)
  (hops_list : list (list Hop)) : io event (list (list Hop)) :=
  match indices with
  | [] => io_ret hops_list
  | i :: rest =>
      let file_path := path_join test ("tr_run-" ++ str i ++ ".out") in
      match files w file_path with
      | Text traceroute_output =>
          hops <~ lift (parse_traceroute_output traceroute_output) ;;
          read_runs w test rest (hops_list ++ [hops])
      | Unreadable e => lift (Raise e)
      | Missing =>
          _ <~ emit (Print ("File " ++ file_path ++ " does not exist.")) ;;
          read_runs w test rest hops_list
      end
  end.

(** The loop of the live mode, over the calls still to make. *)
Fixpoint live_runs (w : World) (target : string) (max_hops run_delay : Z)
  (calls : list nat) (hops_list : list (list Hop)) : io event (list (list Hop)) :=
  match calls with
  | [] => io_ret hops_list
  | k :: rest =>
      traceroute_output <~ run_traceroute target max_hops (traceroute w k) ;;
      hops_list <~
        match truthy traceroute_output with
        | Some traceroute_output =>
            hops <~ lift (parse_traceroute_output traceroute_output) ;;
            io_ret (hops_list ++ [hops])
        | None => io_ret hops_list
        end ;;
      _ <~ sleep run_delay ;;
      live_runs w target max_hops run_delay rest hops_list
  end.

(** The end of [main]: aggregation and the two reports. *)
Definition report (args : Args) (w : World) (hops_list : list (list Hop))
  : io event unit :=
  final_stats <~ lift (aggregate_stats hops_list) ;;
  _ <~ emit (SaveToJson final_stats (output args)) ;;
  _ <~ lift (save_to_json w final_stats (output args)) ;;
  _ <~ emit (GenerateBoxplot final_stats (graph args)) ;;
  lift (generate_boxplot w final_stats (graph args)).

Definition main (args : Args) (w : World) : io event unit :=
  match truthy (test args) with
  | Some test =>
      hops_list <~ read_runs w test
                     (map Z.of_nat (seq 1 (Z.to_nat (num_runs args)))) [] ;;
      report args w hops_list
  | None =>
      match truthy (target args) with
      | None => emit (Print "Target is required when not in test mode.")
      | Some target =>
          hops_list <~ live_runs w target (max_hops args) (run_delay args)
                         (seq 0 (Z.to_nat (num_runs args))) [] ;;
          report args w hops_list
      end
  end.

End TrRun.

Module PingRun.

Import Pingstats.

(** The outside: what the one call of [subprocess.run] did, and what the
    calls [save_to_json(data, output_file)] and
    [generate_boxplot(latency_stats, output_file)] do. *)
Record World : Type := mkWorld {
  ping : completed;
  save_to_json : Stats -> string -> result unit;
  generate_boxplot : Stats -> string -> result unit
}.

Definition main (args : Args) (w : World) : io event unit :=
  match truthy (target args) with
  | None => emit (Print "Target is required.")
  | Some target =>
      ping_output <~ run_ping target (max_pings args) (delay args) (ping w) ;;
      match truthy ping_output with
      | Some ping_output =>
          stats <~ lift (parse_ping_output ping_output) ;;
          match stats with
          | Some stats =>
              _ <~ emit (SaveToJson stats (output args)) ;;
              _ <~ lift (save_to_json w stats (output args)) ;;
              _ <~ emit (GenerateBoxplot stats (graph args)) ;;
              lift (generate_boxplot w stats (graph args))
          | None => io_ret tt
          end
      | None => io_ret tt
      end
  end.

End PingRun.

(** * Sample inputs and the functions the statements are written with *)

#[local] Set Warnings "-inexact-float".

Local Open Scope float_scope.

(** [x == x]: [x] is not NaN. *)
Definition not_nan (x : float) : Prop := (x =? x) = true.

(** [x <= y] *)
Definition fle (x y : float) : Prop := (x <=? y) = true.

(** The value of a finite float in units of 2^-1075, half the least positive
    float, in which every finite float and the half of every finite float is
    an integer; 0 for the infinities and NaN. *)
Module Binary64.

Definition ival (x : spec_float) : Z :=
  match x with
  | S754_finite s m e => cond_Zopp s (Zpos m * 2 ^ (e + 1075))%Z
  | _ => 0%Z
  end.

(** [x] is a zero or a finite float. *)
Definition finite (x : spec_float) : bool :=
  match x with
  | S754_zero _ | S754_finite _ _ _ => true
  | _ => false
  end.

End Binary64.

Definition fval (x : float) : Z := Binary64.ival (Prim2SF x).

(** [x] ends with the character [c]. *)
Definition ends_with (c : ascii) (x : string) : Prop := exists u, x = PyStr.snoc u c.

Definition example_line : string :=
  "3  router.example.com (192.168.1.1)  15.234 ms  16.012 ms".

(** Some traceroute programs continue a hop on a second line when another
    router answered; such a line starts with a hostname. *)
Definition continued_hop : string :=
  " 3  a.example (1.2.3.4)  10.1 ms" ++ String "010"
  "    b.example (1.2.3.5)  11.2 ms  12.3 ms".

(** A hop line with a hostname that no parenthesized token follows. *)
Definition bare_hostname_line : string := "1  gateway  1.5 ms  2.5 ms".

(** Two runs: the first reports hops 1 and 2, the second hop 1 only. *)
Definition two_runs : list (list Trstats.Hop) :=
  [[Trstats.mkHop 1.5 1 [["a.example"; "(10.0.0.1)"]] 2 1.5 1;
    Trstats.mkHop 7 2 [["b.example"; "(10.0.0.2)"]] 9 6 5];
   [Trstats.mkHop 2.5 1 [["c.example"; "(10.0.0.3)"]] 4 2 1.25]].

(** A hop line on which one router answers twice and another once. *)
Definition repeated_host_line : string :=
  "2  b.example (10.0.0.2)  1.0 ms  a.example (10.0.0.1)  2.0 ms  b.example (10.0.0.2)  3.0 ms".

Module TrSpec.

Import PyStr Trstats.

(** The entries [[hostname, ip_address]] the cursor meets on [parts], in the
    order it meets them, repetitions included. *)
Fixpoint paired_entries (parts : list string) : list host_entry :=
  match parts with
  | [] => []
  | part :: rest =>
      if parenthesized part then paired_entries rest
      else
        match PyNum.float_of_string (replace_ms part) with
        | Some _ => paired_entries rest
        | None =>
            match rest with
            | ip_address :: rest' =>
                if parenthesized ip_address
                then [part; ip_address] :: paired_entries rest'
                else paired_entries rest
            | [] => []
            end
        end
  end.

(** The samples the cursor meets on [parts], in order. *)
Fixpoint samples (parts : list string) : list float :=
  match parts with
  | [] => []
  | part :: rest =>
      if parenthesized part then samples rest
      else
        match PyNum.float_of_string (replace_ms part) with
        | Some latency => latency :: samples rest
        | None =>
            match rest with
            | ip_address :: rest' =>
                if parenthesized ip_address then samples rest' else samples rest
            | [] => []
            end
        end
  end.

(** [if entry not in hosts: hosts.append(entry)] *)
Definition add_entry (hosts : list host_entry) (entry : host_entry) : list host_entry :=
  if mem entry hosts then hosts else hosts ++ [entry].

(** The first occurrence of each entry of [l] that is not in [seen], in the
    order of [l]. *)
Fixpoint first_occurrences (seen l : list host_entry) : list host_entry :=
  match l with
  | [] => []
  | x :: rest =>
      if mem x seen then first_occurrences seen rest
      else x :: first_occurrences (seen ++ [x]) rest
  end.

(** The hops numbered [n] among [seen], in the order of [seen]. *)
Definition group (n : Z) (seen : list Hop) : list Hop :=
  filter (fun h => (hop h =? n)%Z) seen.

(** The pool for hop number [n] once the hops [seen] are added: none when
    no hop of [seen] is numbered [n]; otherwise the hosts of the first such
    hop and the four values of each such hop, in order. *)
Definition pool_of (n : Z) (seen : list Hop) : option Pool :=
  match group n seen with
  | [] => None
  | (h :: _) as g =>
      Some (mkPool n (hosts h) (map min g) (map max g) (map avg g) (map med g))
  end.

(** The four appends of one hop. *)
Definition extend (h : Hop) (p : Pool) : Pool :=
  add_med (med h) (add_avg (avg h) (add_max (max h) (add_min (min h) p))).

(** [aggregated] holds the hops [seen]. *)
Definition represents (aggregated : dict) (seen : list Hop) : Prop :=
  NoDup (map fst aggregated) /\
  forall n, lookup n aggregated = pool_of n seen.

End TrSpec.

Module PingSpec.

Import PyStr Pingstats.

(** The sample a token gives: for a token that starts with "time=", what
    [float()] makes of the text between its first "=" and its next "=" (or
    its end); nothing for another token or when [float()] raises. *)
Definition time_value (part : string) : option float :=
  if startswith part "time=" then
    PyNum.float_of_string (nth 1 (split_on "=" part) "")
  else None.

Definition part_samples (part : string) : list float :=
  match time_value part with
  | Some latency => [latency]
  | None => []
  end.

(** The samples of one line. *)
Definition line_samples (line : string) : list float :=
  if contains "time=" line then flat_map part_samples (split line) else [].

(** The text a run hands to the parser: the standard output of a process
    that exited with status 0, unless it is empty. *)
Definition usable_output (c : completed) : option string :=
  match c with
  | Exited returncode stdout _ => if (returncode =? 0)%Z then truthy (Some stdout) else None
  | Failed _ => None
  end.

(** The samples of a run. *)
Definition run_samples (c : completed) : list float :=
  match usable_output c with
  | Some ping_output => ping_latencies ping_output
  | None => []
  end.

(** What [run_ping] prints. *)
Definition runner_messages (c : completed) : list event :=
  match c with
  | Exited returncode _ stderr =>
      if (returncode =? 0)%Z then [] else [Print ("Error running ping: " ++ stderr)]
  | Failed e => [Print ("Exception running ping: " ++ e)]
  end.

End PingSpec.

(** Three echo replies of 0.1 ms. *)
Definition three_replies : string :=
  "64 bytes from 10.0.0.1: icmp_seq=1 ttl=64 time=0.1 ms" ++ String "010"
  ("64 bytes from 10.0.0.1: icmp_seq=2 ttl=64 time=0.1 ms" ++ String "010"
   "64 bytes from 10.0.0.1: icmp_seq=3 ttl=64 time=0.1 ms").

(** A hop whose three probes are answered in 0.1 ms. *)
Definition three_probes : string :=
  " 1  gateway.example (10.0.0.1)  0.1 ms  0.1 ms  0.1 ms".

(** An echo reply whose unit is attached to the value. *)
Definition attached_unit_reply : string :=
  "64 bytes from 10.0.0.1: icmp_seq=1 ttl=64 time=10.0ms".

(** An echo reply whose value reads as NaN. *)
Definition nan_reply : string :=
  "64 bytes from 10.0.0.1: icmp_seq=1 ttl=64 time=nan ms".

(** The output of a ping run without any reply. *)
Definition no_reply : string :=
  "PING 10.0.0.9 (10.0.0.9) 56(84) bytes of data." ++ String "010"
  "3 packets transmitted, 0 received, 100% packet loss".

(** * Lines, runs and reports: the functions the further statements are
    written with *)

(** A traceroute output: the header, a hop with two answers, a hop without
    answer and a hop with one answer. *)
Definition three_hops : string :=
  "traceroute to example.com (93.184.216.34), 30 hops max" ++ String "010"
  (" 1  gateway.example (10.0.0.1)  1.5 ms  2.5 ms" ++ String "010"
   (" 2  * * *" ++ String "010"
    " 3  core.example (10.0.1.1)  7.5 ms")).

Module TrLines.

Import PyStr Trstats TrSpec.

(** The line has a sample after its first token. *)
Definition has_samples (line : string) : bool :=
  match samples (tl (split line)) with
  | [] => false
  | _ :: _ => true
  end.

(** The line is read and has a sample. *)
Definition gives_hop (line : string) : bool :=
  negb (skipped line) && has_samples line.

(** The first token of the line is an integer literal. *)
Definition starts_with_int (line : string) : bool :=
  match split line with
  | first :: _ =>
      match PyNum.int_of_string first with
      | Some _ => true
      | None => false
      end
  | [] => false
  end.

(** [h] is the hop of [line]: numbered by the first token, with the hosts
    met on the line and the summary of the samples met on it. *)
Definition hop_of_line (h : Hop) (line : string) : Prop :=
  exists first rest n,
    split line = first :: rest /\
    PyNum.int_of_string first = Some n /\
    samples rest <> [] /\
    hop_record n (first_occurrences [] (paired_entries rest)) (samples rest) = Ok h.

End TrLines.

Module TrAgg.

Import Trstats.

(** What [aggregate_stats] makes of a hop that is alone under its number:
    the same hop, with the average of the one value [avg], rounded to 3
    decimals. *)
Definition alone (h : Hop) : Hop :=
  mkHop (PyNum.round ((0 + avg h) / 1) 3) (hop h) (hosts h) (max h) (med h) (min h).

End TrAgg.

Module PingAgg.

Import Pingstats.

(** The four values a summary gives to the pooled list, in order. *)
Definition fields (stats : Stats) : list float :=
  [min stats; med stats; avg stats; max stats].

(** The pooled list of [aggregate_ping_stats]. *)
Definition pooled (stats_list : list Stats) : list float :=
  flat_map fields stats_list.

End PingAgg.

Module TrMain.

Import Trstats.

(** What [run_traceroute] prints. *)
Definition runner_messages (c : completed) : list event :=
  match c with
  | Exited returncode _ stderr =>
      if (returncode =? 0)%Z then [] else [Print ("Error running traceroute: " ++ stderr)]
  | Failed e => [Print ("Exception running traceroute: " ++ e)]
  end.

(** The file read for run [i] of the test mode. *)
Definition fixture_path (test : string) (i : Z) : string :=
  path_join test ("tr_run-" ++ str i ++ ".out").

(** [range(1, num_runs + 1)] *)
Definition run_indices (num_runs : Z) : list Z :=
  map Z.of_nat (seq 1 (Z.to_nat num_runs)).

(** [range(num_runs)] *)
Definition calls (num_runs : Z) : list nat := seq 0 (Z.to_nat num_runs).

(** The texts the live mode hands to the parser, in the order of the runs. *)
Definition live_outputs (w : TrRun.World) (ks : list nat) : list string :=
  flat_map
    (fun k =>
       match PingSpec.usable_output (TrRun.traceroute w k) with
       | Some traceroute_output => [traceroute_output]
       | None => []
       end)
    ks.

(** What the live mode prints and sleeps when nothing raises. *)
Definition live_events (w : TrRun.World) (run_delay : Z) (ks : list nat) : list event :=
  flat_map (fun k => runner_messages (TrRun.traceroute w k) ++ [Sleep run_delay]) ks.

(** The fixture of run [i] is missing or is read as a text. *)
Definition readable (w : TrRun.World) (test : string) (i : Z) : Prop :=
  forall e, TrRun.files w (fixture_path test i) <> TrRun.Unreadable e.

(** The texts the test mode hands to the parser, in the order of the runs. *)
Definition test_outputs (w : TrRun.World) (test : string) (indices : list Z) : list string :=
  flat_map
    (fun i =>
       match TrRun.files w (fixture_path test i) with
       | TrRun.Text traceroute_output => [traceroute_output]
       | _ => []
       end)
    indices.

(** What the test mode prints when nothing raises. *)
Definition test_events (w : TrRun.World) (test : string) (indices : list Z) : list event :=
  flat_map
    (fun i =>
       match TrRun.files w (fixture_path test i) with
       | TrRun.Missing => [Print ("File " ++ fixture_path test i ++ " does not exist.")]
       | _ => []
       end)
    indices.

(** The two calls that write a file. *)
Definition is_report (ev : event) : bool :=
  match ev with
  | SaveToJson _ _ | GenerateBoxplot _ _ => true
  | Print _ | Sleep _ => false
  end.

(** [parse_traceroute_output] returns [hops] on [text]. *)
Definition parses_to (text : string) (hops : list Hop) : Prop :=
  parse_traceroute_output text = Ok hops.

(** The two reports on [final_stats]: [save_to_json] is called; when it
    returns, [generate_boxplot] is called; the result is that of the last
    call made. *)
Definition reports (args : Args) (w : TrRun.World) (final_stats : list Hop)
  : io event unit :=
  match TrRun.save_to_json w final_stats (output args) with
  | Ok _ =>
      ([SaveToJson final_stats (output args); GenerateBoxplot final_stats (graph args)],
       TrRun.generate_boxplot w final_stats (graph args))
  | Raise e => ([SaveToJson final_stats (output args)], Raise e)
  end.

(** The events [ev], then the two reports on [final_stats]. *)
Definition then_reports (ev : list event) (args : Args) (w : TrRun.World)
  (final_stats : list Hop) : io event unit :=
  (ev ++ fst (reports args w final_stats), snd (reports args w final_stats)).

(** [time.sleep] accepts the delay. *)
Definition sleeps (run_delay : Z) : bool :=
  ((0 <=? run_delay) && (run_delay <=? TrRun.sleep_max))%Z.

(** The exception of [time.sleep] on a delay that it refuses. *)
Definition sleep_error (run_delay : Z) : exn :=
  if ((run_delay <? - TrRun.sleep_max) || (TrRun.sleep_max <? run_delay))%Z
  then OverflowError else ValueError.

(** The plotting library draws any plot that has a box, and raises
    [ValueError] on a plot without box. *)
Definition plot_needs_a_box (hops_stats : list Hop) (output_file : string) : result unit :=
  match hops_stats with
  | [] => Raise ValueError
  | _ :: _ => Ok tt
  end.

(** A world with two fixture files, for the runs 1 and 3, in which both
    output files can be written. *)
Definition two_fixtures : TrRun.World :=
  TrRun.mkWorld
    (fun path =>
       if String.eqb path "runs/tr_run-1.out" then TrRun.Text three_hops
       else if String.eqb path "runs/tr_run-3.out" then TrRun.Text example_line
       else TrRun.Missing)
    (fun _ => Failed "not called")
    (fun _ _ => Ok tt)
    plot_needs_a_box.

(** A world in which the first run fails and every later run answers, and
    in which both output files can be written. *)
Definition first_run_fails : TrRun.World :=
  TrRun.mkWorld (fun _ => TrRun.Missing)
    (fun k => match k with
              | O => Exited 1 "" "Temporary failure in name resolution"
              | S _ => Exited 0 three_hops ""
              end)
    (fun _ _ => Ok tt)
    plot_needs_a_box.

(** A world in which every run fails on an unknown host; the JSON file can
    be written and [generate_boxplot] does [outcome]. *)
Definition unknown_host (outcome : list Hop -> string -> result unit) : TrRun.World :=
  TrRun.mkWorld (fun _ => TrRun.Missing)
    (fun _ => Exited 2 "" "unknown host")
    (fun _ _ => Ok tt)
    outcome.

(** A world in which the directory of the JSON file does not exist. *)
Definition no_output_directory : TrRun.World :=
  TrRun.mkWorld (fun _ => TrRun.Missing)
    (fun _ => Exited 0 three_hops "")
    (fun _ _ => Raise OSError)
    plot_needs_a_box.

(** The outside of [Trstats.main]: the files are texts, and writing and
    plotting return. *)
Definition reliable (w : Trstats.World) : TrRun.World :=
  TrRun.mkWorld
    (fun path => match Trstats.files w path with
                 | Some text => TrRun.Text text
                 | None => TrRun.Missing
                 end)
    (Trstats.traceroute w)
    (fun _ _ => Ok tt)
    (fun _ _ => Ok tt).

End TrMain.

Module PingMain.

Import Pingstats.

(** The two reports on [stats]: [save_to_json] is called; when it returns,
    [generate_boxplot] is called; the result is that of the last call
    made. *)
Definition reports (args : Args) (w : PingRun.World) (stats : Stats) : io event unit :=
  match PingRun.save_to_json w stats (output args) with
  | Ok _ =>
      ([SaveToJson stats (output args); GenerateBoxplot stats (graph args)],
       PingRun.generate_boxplot w stats (graph args))
  | Raise e => ([SaveToJson stats (output args)], Raise e)
  end.

(** The outside of [Pingstats.main]: writing and plotting return. *)
Definition reliable (c : completed) : PingRun.World :=
  PingRun.mkWorld c (fun _ _ => Ok tt) (fun _ _ => Ok tt).

(** A run of three replies, before a JSON path that cannot be opened. *)
Definition unwritable_json : PingRun.World :=
  PingRun.mkWorld (Exited 0 three_replies "") (fun _ _ => Raise OSError) (fun _ _ => Ok tt).

End PingMain.

Module TrPlot.

Import Trstats.

(** The boxes [generate_boxplot] hands to the plotting library: the four
    values of each record. *)
Definition latency_distribution (hops_stats : list Hop) : list (list float) :=
  map (fun hop => [min hop; med hop; avg hop; max hop]) hops_stats.

(** The labels it hands with them: the hop numbers in decimal. *)
Definition hops (hops_stats : list Hop) : list string :=
  map (fun h => str (hop h)) hops_stats.

End TrPlot.

(** * Properties *)

(** ** The summary functions on a list that is not empty *)

Section Numbers.

Lemma insert_length (y : float) (l : list float) :
  List.length (PyNum.insert y l) = S (List.length l).
Proof.
  induction l as [|z l IH]; simpl; [reflexivity|].
  destruct (z <? y); simpl; [now rewrite IH | reflexivity].
Qed.

Lemma sorted_length (l : list float) :
  List.length (PyNum.sorted l) = List.length l.
Proof.
  induction l as [|y l IH]; simpl; [reflexivity|].
  now rewrite insert_length, IH.
Qed.

Lemma truediv_len_ok {A : Type} (s : float) (x : A) (l : list A) :
  PyNum.truediv s (PyNum.len (x :: l)) = Ok (s / PyNum.float_of_Z (PyNum.len (x :: l))).
Proof.
  unfold PyNum.truediv, PyNum.len.
  assert (H : (Z.of_nat (List.length (x :: l)) =? 0)%Z = false)
    by (apply Z.eqb_neq; simpl List.length; lia).
  now rewrite H.
Qed.

Lemma max_ok (x : float) (l : list float) : exists m, PyNum.max (x :: l) = Ok m.
Proof. eexists; reflexivity. Qed.

Lemma min_ok (x : float) (l : list float) : exists m, PyNum.min (x :: l) = Ok m.
Proof. eexists; reflexivity. Qed.

Lemma median_ok (x : float) (l : list float) : exists m, PyNum.median (x :: l) = Ok m.
Proof.
  unfold PyNum.median. rewrite sorted_length. simpl List.length. simpl Nat.eqb.
  destruct (Nat.odd (S (List.length l))); eexists; reflexivity.
Qed.

End Numbers.
(** ** Parsing one traceroute line *)

(** C1, as stated, fails in its summary values: the hop parsed from the
    example line has [avg] and [med] equal to the binary64 result of
    [(15.234 + 16.012) / 2], which is not the float 15.623 (it is the next
    float above, printed 15.623000000000001). *)
Lemma example_line_avg_med_not_15_623 :
  exists h,
    Trstats.parse_traceroute_output example_line = Ok [h] /\
    (Trstats.avg h =? 15.623) = false /\
    (Trstats.med h =? 15.623) = false /\
    (15.623 <? Trstats.avg h) = true.
Proof.
  eexists. split; [vm_compute; reflexivity|].
  repeat split; vm_compute; reflexivity.
Qed.

(** C1, amended: parsing the example line yields exactly one hop, numbered
    3, with the one host entry [router.example.com, (192.168.1.1)], from the
    samples 15.234 and 16.012 (the two "ms" tokens add no sample and no host
    entry); its min is 15.234, its max 16.012, and its med and avg are both
    the binary64 value 15.623000000000001. *)
Theorem parse_example_line :
  PyStr.split example_line =
    ["3"; "router.example.com"; "(192.168.1.1)"; "15.234"; "ms"; "16.012"; "ms"] /\
  Trstats.scan (tl (PyStr.split example_line)) [] [] =
    ([["router.example.com"; "(192.168.1.1)"]], [15.234; 16.012]) /\
  Trstats.scan ["ms"] [] [] = ([], []) /\
  Trstats.parse_traceroute_output example_line =
    Ok [Trstats.mkHop 15.623000000000001 3
          [["router.example.com"; "(192.168.1.1)"]]
          16.012 15.623000000000001 15.234].
Proof.
  repeat split; vm_compute; reflexivity.
Qed.

(** The compensated [sum] gives the same average on these two samples. *)
Lemma example_line_avg_compensated :
  PyNum.truediv (PyNum.sum_compensated [15.234; 16.012]) 2 = Ok 15.623000000000001.
Proof. vm_compute. reflexivity. Qed.

(** ** Aggregating ping summaries *)

(** C4: on the summaries {min 1, med 2, avg 3, max 4} and {min 2, med 3,
    avg 4, max 5}, read as floats, [aggregate_ping_stats] pools the eight
    values in the order [1, 2, 3, 4, 2, 3, 4, 5] and returns avg 3.0 (the
    mean 24 / 8 rounded to 3 decimals), max 5, med 3.0 (the median of the
    eight values) and min 1. *)
Theorem aggregate_ping_stats_example :
  let stats_list := [Pingstats.mkStats 3 4 2 1; Pingstats.mkStats 4 5 3 2] in
  Pingstats.all_latencies stats_list = [1; 2; 3; 4; 2; 3; 4; 5] /\
  PyNum.truediv (PyNum.sum [1; 2; 3; 4; 2; 3; 4; 5]) 8 = Ok 3 /\
  PyNum.round 3 3 = 3 /\
  PyNum.median [1; 2; 3; 4; 2; 3; 4; 5] = Ok 3 /\
  Pingstats.aggregate_ping_stats stats_list = Ok (Pingstats.mkStats 3 5 3 1).
Proof.
  repeat split; vm_compute; reflexivity.
Qed.

(** The compensated [sum] gives the same total on the eight values. *)
Lemma aggregate_ping_stats_example_compensated :
  PyNum.truediv (PyNum.sum_compensated [1; 2; 3; 4; 2; 3; 4; 5]) 8 = Ok 3.
Proof. vm_compute. reflexivity. Qed.

(** ** A line that does not start with a hop number *)

(** C7: [int(parts[0])] is not guarded.  On a text with a line that is not
    blank, does not start with "traceroute" and whose first token is not an
    integer, [parse_traceroute_output] raises [ValueError]; in [main] nothing
    catches it, so the program stops before any report. *)
Theorem parse_traceroute_output_raises :
  Trstats.parse_traceroute_output continued_hop = Raise ValueError /\
  Trstats.main
    (Trstats.mkArgs 1 0 30 "out.json" "out.pdf" (Some "a.example") None)
    (Trstats.mkWorld (fun _ => None) (fun _ => Exited 0 continued_hop ""))
  = ([], Raise ValueError).
Proof.
  split; vm_compute; reflexivity.
Qed.

(** The same on every line: a first token that [int()] rejects raises
    [ValueError] out of the loop body. *)
Lemma parse_line_not_int (line first : string) (rest : list string) :
  PyStr.split line = first :: rest ->
  PyNum.int_of_string first = None ->
  Trstats.parse_line line = Raise ValueError.
Proof.
  intros Hsplit Hint. unfold Trstats.parse_line. now rewrite Hsplit, Hint.
Qed.

(** ** The host list of a hop *)

Section Hosts.

Import PyStr Trstats TrSpec.

Lemma mem_In (entry : host_entry) (hosts : list host_entry) :
  mem entry hosts = true <-> In entry hosts.
Proof.
  unfold mem. rewrite existsb_exists. split.
  - intros [x [Hin Heq]]. unfold host_entry_eqb in Heq.
    destruct (list_eq_dec string_dec entry x); [subst; assumption | discriminate].
  - intros Hin. exists entry. split; [assumption|].
    unfold host_entry_eqb. destruct (list_eq_dec string_dec entry entry); congruence.
Qed.

Lemma mem_false (entry : host_entry) (hosts : list host_entry) :
  mem entry hosts = false <-> ~ In entry hosts.
Proof.
  rewrite <- mem_In. destruct (mem entry hosts); split; congruence.
Qed.

(** The loop computes the two lists independently: the hosts from the
    entries met, the samples in the order met. *)
Lemma scan_fold (n : nat) :
  forall parts hosts latencies,
    (List.length parts <= n)%nat ->
    scan parts hosts latencies =
      (fold_left add_entry (paired_entries parts) hosts, latencies ++ samples parts).
Proof.
  induction n as [|n IH]; intros parts hosts latencies Hlen.
  - destruct parts; [simpl; now rewrite app_nil_r | simpl in Hlen; lia].
  - destruct parts as [|part rest]; [simpl; now rewrite app_nil_r|].
    simpl in Hlen. simpl.
    destruct (parenthesized part); [apply IH; lia|].
    destruct (PyNum.float_of_string (replace_ms part)).
    + rewrite IH by lia. now rewrite <- app_assoc.
    + destruct rest as [|ip rest']; [simpl; now rewrite app_nil_r|].
      destruct (parenthesized ip) eqn:Hip.
      * simpl in Hlen. rewrite IH by lia. reflexivity.
      * apply IH. lia.
Qed.

Lemma fold_add_entry (l : list host_entry) :
  forall hosts, fold_left add_entry l hosts = hosts ++ first_occurrences hosts l.
Proof.
  induction l as [|x rest IH]; intros hosts; simpl.
  - now rewrite app_nil_r.
  - unfold add_entry at 2. destruct (mem x hosts); rewrite IH; [reflexivity|].
    now rewrite <- app_assoc.
Qed.

Lemma scan_hosts (parts : list string) :
  fst (scan parts [] []) = first_occurrences [] (paired_entries parts).
Proof.
  rewrite (scan_fold (List.length parts)) by lia. simpl. now rewrite fold_add_entry.
Qed.

Lemma first_occurrences_In (l : list host_entry) :
  forall seen e, In e (first_occurrences seen l) <-> In e l /\ ~ In e seen.
Proof.
  induction l as [|x rest IH]; intros seen e; simpl.
  - tauto.
  - destruct (mem x seen) eqn:Hx.
    + apply mem_In in Hx. rewrite IH. split.
      * tauto.
      * intros [[->|H] Hn]; [contradiction | tauto].
    + apply mem_false in Hx. simpl. rewrite IH, in_app_iff. simpl. split.
      * intros [->|[H Hn]]; tauto.
      * intros [[->|H] Hn]; [tauto|].
        destruct (list_eq_dec string_dec x e); [tauto | right; tauto].
Qed.

Lemma first_occurrences_NoDup (l : list host_entry) :
  forall seen, NoDup seen -> NoDup (seen ++ first_occurrences seen l).
Proof.
  induction l as [|x rest IH]; intros seen Hseen; simpl.
  - now rewrite app_nil_r.
  - destruct (mem x seen) eqn:Hx; [now apply IH|].
    apply mem_false in Hx.
    change (x :: first_occurrences (seen ++ [x]) rest)
      with ([x] ++ first_occurrences (seen ++ [x]) rest).
    rewrite app_assoc. apply IH.
    apply NoDup_app; [assumption | repeat constructor; simpl; tauto |].
    intros y Hy [<-|[]]. contradiction.
Qed.

(** An entry placed before another one was met before the other one was
    ever met. *)
Lemma first_occurrences_order (l : list host_entry) :
  forall seen l1 a l2 b,
    first_occurrences seen l = l1 ++ a :: l2 -> In b l2 ->
    exists p1 p2, l = p1 ++ a :: p2 /\ ~ In a p1 /\ ~ In b p1.
Proof.
  induction l as [|x rest IH]; intros seen l1 a l2 b Heq Hb; simpl in Heq.
  - destruct l1; discriminate.
  - assert (Hout : forall seen', first_occurrences seen' rest = l1 ++ a :: l2 ->
                     ~ In a seen' /\ ~ In b seen').
    { intros seen' E. split.
      - apply (first_occurrences_In rest seen' a). rewrite E, in_app_iff. simpl. tauto.
      - apply (first_occurrences_In rest seen' b). rewrite E, in_app_iff. simpl. tauto. }
    destruct (mem x seen) eqn:Hx.
    + apply mem_In in Hx.
      destruct (IH _ _ _ _ _ Heq Hb) as [p1 [p2 [E [Ha Hb']]]].
      destruct (Hout _ Heq) as [Hna Hnb].
      exists (x :: p1), p2. subst rest. simpl. repeat split.
      * intros [->|H]; tauto.
      * intros [->|H]; tauto.
    + destruct l1 as [|y l1']; simpl in Heq; injection Heq as <- Heq.
      * exists [], rest. simpl. tauto.
      * destruct (IH _ _ _ _ _ Heq Hb) as [p1 [p2 [E [Ha Hb']]]].
        assert (Hout' : ~ In a (seen ++ [x]) /\ ~ In b (seen ++ [x])).
        { split.
          - apply (first_occurrences_In rest (seen ++ [x]) a).
            rewrite Heq, in_app_iff. simpl. tauto.
          - apply (first_occurrences_In rest (seen ++ [x]) b).
            rewrite Heq, in_app_iff. simpl. tauto. }
        destruct Hout' as [Hna Hnb]. rewrite in_app_iff in Hna, Hnb. simpl in Hna, Hnb.
        exists (x :: p1), p2. subst rest. simpl. repeat split.
        -- intros [->|H]; tauto.
        -- intros [->|H]; tauto.
Qed.

Lemma hop_record_fields (n : Z) (hs : list host_entry) (latencies : list float) (h : Hop) :
  hop_record n hs latencies = Ok h -> hop h = n /\ hosts h = hs.
Proof.
  unfold hop_record.
  destruct (PyNum.truediv _ _); simpl; [|discriminate].
  destruct (PyNum.max _); simpl; [|discriminate].
  destruct (PyNum.median _); simpl; [|discriminate].
  destruct (PyNum.min _); simpl; [|discriminate].
  intros [= <-]. split; reflexivity.
Qed.

Lemma parse_line_hosts (line : string) (h : Hop) :
  parse_line line = Ok (Some h) ->
  hosts h = fst (scan (tl (split line)) [] []).
Proof.
  unfold parse_line. destruct (split line) as [|first rest]; [discriminate|].
  destruct (PyNum.int_of_string first); [|discriminate].
  simpl. destruct (scan rest [] []) as [hs latencies].
  destruct latencies as [|x latencies]; [discriminate|].
  destruct (hop_record _ _ _) eqn:R; simpl; [|discriminate].
  intros [= <-]. apply hop_record_fields in R. apply R.
Qed.

Lemma parse_lines_Forall (P : Hop -> Prop) (lines : list string) :
  (forall line h, In line lines -> parse_line line = Ok (Some h) -> P h) ->
  forall acc hops,
    Forall P acc -> parse_lines lines acc = Ok hops -> Forall P hops.
Proof.
  induction lines as [|line rest IH]; intros Hline acc hops Hacc; simpl.
  - intros [= <-]. assumption.
  - destruct (skipped line).
    + apply IH; [|assumption]. intros l h Hl. apply Hline. now right.
    + destruct (parse_line line) as [[h|]|] eqn:E; simpl; [| |discriminate].
      * apply IH.
        -- intros l h' Hl. apply Hline. now right.
        -- apply Forall_app. split; [assumption|].
           constructor; [|constructor]. apply (Hline line); [now left | assumption].
      * apply IH; [|assumption]. intros l h Hl. apply Hline. now right.
Qed.

End Hosts.

(** C9: in every hop that [parse_traceroute_output] returns, the host list
    has no repeated entry, holds exactly the entries met on the hop's line,
    and lists them in the order of their first insertion: an entry placed
    before another one was met before the other one was ever met. *)
Theorem hosts_unique_in_first_insertion_order (text : string) (hops : list Trstats.Hop) :
  Trstats.parse_traceroute_output text = Ok hops ->
  Forall
    (fun h =>
       NoDup (Trstats.hosts h) /\
       exists line,
         In line (PyStr.splitlines text) /\
         let met := TrSpec.paired_entries (tl (PyStr.split line)) in
         (forall e, In e (Trstats.hosts h) <-> In e met) /\
         (forall l1 a l2 b,
             Trstats.hosts h = l1 ++ a :: l2 -> In b l2 ->
             exists p1 p2, met = p1 ++ a :: p2 /\ ~ In a p1 /\ ~ In b p1))
    hops.
Proof.
  unfold Trstats.parse_traceroute_output. intros Hparse.
  eapply parse_lines_Forall; [| constructor | exact Hparse].
  intros line h Hin Hline. apply parse_line_hosts in Hline.
  rewrite scan_hosts in Hline. split.
  - rewrite Hline. apply (first_occurrences_NoDup _ []). constructor.
  - exists line. split; [assumption|]. cbv zeta. rewrite Hline. split.
    + intros e. rewrite first_occurrences_In. simpl. tauto.
    + intros l1 a l2 b. apply first_occurrences_order.
Qed.

Lemma hosts_unique_in_first_insertion_order_witness :
  exists h,
    Trstats.parse_traceroute_output repeated_host_line = Ok [h] /\
    Trstats.hosts h = [["b.example"; "(10.0.0.2)"]; ["a.example"; "(10.0.0.1)"]] /\
    NoDup (Trstats.hosts h).
Proof.
  eexists. split; [vm_compute; reflexivity|]. split; [reflexivity|].
  assert (Hparse : Trstats.parse_traceroute_output repeated_host_line =
                   Ok [Trstats.mkHop 2 2
                         [["b.example"; "(10.0.0.2)"]; ["a.example"; "(10.0.0.1)"]]
                         3 2 1])
    by (vm_compute; reflexivity).
  pose proof (hosts_unique_in_first_insertion_order _ _ Hparse) as H.
  inversion H as [|h hs [Hnodup _] _]. exact Hnodup.
Defined.

(** C6, as stated, fails: on a line where the hostname "gateway" is followed
    by a sample, the hop has the two samples and an empty host list. *)
Lemma bare_hostname_not_retained :
  PyStr.split bare_hostname_line = ["1"; "gateway"; "1.5"; "ms"; "2.5"; "ms"] /\
  Trstats.parenthesized "gateway" = false /\
  PyNum.float_of_string (PyStr.replace_ms "gateway") = None /\
  Trstats.parenthesized "1.5" = false /\
  Trstats.parse_traceroute_output bare_hostname_line = Ok [Trstats.mkHop 2 1 [] 2.5 2 1.5].
Proof.
  repeat split; vm_compute; reflexivity.
Qed.

(** C6, amended: a hostname token (not parenthesized, not a float) whose
    next token is not parenthesized, or which is the last token, is dropped:
    the cursor moves past it and the host list and the samples stay as they
    were. *)
Theorem unpaired_hostname_is_dropped
  (part : string) (rest : list string)
  (hosts : list Trstats.host_entry) (latencies : list float) :
  Trstats.parenthesized part = false ->
  PyNum.float_of_string (PyStr.replace_ms part) = None ->
  (forall ip rest', rest = ip :: rest' -> Trstats.parenthesized ip = false) ->
  Trstats.scan (part :: rest) hosts latencies = Trstats.scan rest hosts latencies.
Proof.
  intros Hpart Hfloat Hnext. simpl. rewrite Hpart, Hfloat.
  destruct rest as [|ip rest']; [reflexivity|].
  now rewrite (Hnext ip rest' eq_refl).
Qed.

Lemma unpaired_hostname_is_dropped_witness :
  Trstats.scan ["gateway"; "1.5"; "ms"] [] [] = Trstats.scan ["1.5"; "ms"] [] [] /\
  Trstats.scan ["1.5"; "ms"] [] [] = ([], [1.5]).
Proof.
  split; [|vm_compute; reflexivity].
  apply (unpaired_hostname_is_dropped "gateway" ["1.5"; "ms"] [] []).
  - vm_compute; reflexivity.
  - vm_compute; reflexivity.
  - intros ip rest' [= <- <-]. vm_compute; reflexivity.
Defined.

(** Every entry of a host list is a hostname with the parenthesized token
    that followed it. *)
Lemma paired_entries_shape (n : nat) :
  forall parts e,
    (List.length parts <= n)%nat ->
    In e (TrSpec.paired_entries parts) ->
    exists hostname ip l1 l2,
      e = [hostname; ip] /\ parts = l1 ++ hostname :: ip :: l2 /\
      Trstats.parenthesized hostname = false /\ Trstats.parenthesized ip = true.
Proof.
  induction n as [|n IH]; intros parts e Hlen Hin.
  - destruct parts; [destruct Hin | simpl in Hlen; lia].
  - destruct parts as [|part rest]; [destruct Hin|].
    simpl in Hlen, Hin.
    assert (Htail : In e (TrSpec.paired_entries rest) ->
                    exists hostname ip l1 l2,
                      e = [hostname; ip] /\ part :: rest = l1 ++ hostname :: ip :: l2 /\
                      Trstats.parenthesized hostname = false /\
                      Trstats.parenthesized ip = true).
    { intros H. destruct (IH rest e ltac:(lia) H) as [hn [ip [l1 [l2 [E1 [E2 E3]]]]]].
      exists hn, ip, (part :: l1), l2. subst rest. simpl. tauto. }
    destruct (Trstats.parenthesized part) eqn:Hpart; [auto|].
    destruct (PyNum.float_of_string (PyStr.replace_ms part)); [auto|].
    destruct rest as [|ip rest']; [destruct Hin|].
    destruct (Trstats.parenthesized ip) eqn:Hip; [|auto].
    destruct Hin as [<-|Hin].
    + exists part, ip, [], rest'. simpl. tauto.
    + simpl in Hlen.
      destruct (IH rest' e ltac:(lia) Hin) as [hn [ip' [l1 [l2 [E1 [E2 E3]]]]]].
      exists hn, ip', (part :: ip :: l1), l2. subst rest'. simpl. tauto.
Qed.

(** ** Texts that [float()] rejects by their last character *)

Section Suffix.

Import PyStr PyNum.

Variable c : ascii.
Hypothesis c_not_digit : isdigit c = false.
Hypothesis c_not_space : isspace c = false.
Hypothesis c_not_point : c <> "."%char.


Lemma ends_c_cases (x : string) :
  ends_with c x -> exists d rest, x = String d rest /\ (rest = EmptyString /\ d = c \/ ends_with c rest).
Proof.
  intros [[|d u] ->]; simpl.
  - exists c, EmptyString. tauto.
  - exists d, (snoc u c). split; [reflexivity|]. right. now exists u.
Qed.

Lemma ends_c_cons (d : ascii) (x : string) : ends_with c x -> ends_with c (String d x).
Proof. intros [u ->]. now exists (String d u). Qed.

Lemma ends_c_nonempty (x : string) : ends_with c x -> x <> EmptyString.
Proof. intros [[|d u] ->]; discriminate. Qed.

Lemma snoc_inj (w t : string) (d e : ascii) : snoc w d = snoc t e -> w = t /\ d = e.
Proof.
  revert t. induction w as [|a w IH]; intros [|b t]; simpl; intros H.
  - injection H as ->. tauto.
  - injection H as -> H. destruct t; discriminate.
  - injection H as -> H. destruct w; discriminate.
  - injection H as -> H. destruct (IH _ H) as [-> ->]. tauto.
Qed.

Lemma list_ascii_app (a b : string) :
  list_ascii_of_string (a ++ b) = (list_ascii_of_string a ++ list_ascii_of_string b)%list.
Proof. induction a as [|d a IH]; simpl; [reflexivity | now rewrite IH]. Qed.

Lemma rev_snoc (x : string) (d : ascii) : rev (snoc x d) = String d (rev x).
Proof.
  unfold rev, snoc. rewrite list_ascii_app. simpl. now rewrite rev_app_distr.
Qed.

Lemma rev_cons (x : string) (d : ascii) : rev (String d x) = snoc (rev x) d.
Proof.
  unfold rev, snoc. simpl.
  generalize (List.rev (list_ascii_of_string x)). intros l.
  induction l as [|a l IH]; simpl; [reflexivity | now rewrite IH].
Qed.

Lemma rev_involutive (x : string) : rev (rev x) = x.
Proof.
  induction x as [|d x IH]; [reflexivity|].
  now rewrite rev_cons, rev_snoc, IH.
Qed.

Lemma strip_ends_c (x : string) : ends_with c x -> ends_with c (strip x).
Proof.
  intros Hx. unfold strip.
  assert (Hl : ends_with c (lstrip x)).
  { destruct Hx as [u ->]. induction u as [|d u IH]; simpl.
    - rewrite c_not_space. now exists EmptyString.
    - destruct (isspace d); [assumption | now exists (String d u)]. }
  destruct Hl as [u Hu]. rewrite Hu. unfold rstrip.
  rewrite rev_snoc. simpl. rewrite c_not_space.
  rewrite <- rev_snoc, rev_involutive. now exists u.
Qed.

Lemma sign_ends_c (x : string) :
  ends_with c x -> snd (sign x) = EmptyString \/ ends_with c (snd (sign x)).
Proof.
  intros Hx. destruct (ends_c_cases x Hx) as [d [rest [-> Hrest]]]. simpl.
  destruct (Ascii.eqb d "-"); simpl; [tauto|].
  destruct (Ascii.eqb d "+"); simpl; [tauto|].
  now right.
Qed.

Lemma digits_tail_ends_c (k : nat) :
  forall x acc n,
    (String.length x <= k)%nat -> ends_with c x -> ends_with c (snd (digits_tail acc n x)).
Proof.
  induction k as [|k IH]; intros x acc n Hlen Hx;
    destruct (ends_c_cases x Hx) as [d [rest [-> Hrest]]]; simpl in Hlen; [lia|].
  simpl. destruct (isdigit d) eqn:Hd.
  - destruct Hrest as [[-> ->]|Hrest]; [congruence|]. apply IH; [lia | assumption].
  - destruct (Ascii.eqb d "_"); [|assumption].
    destruct rest as [|e rest']; [assumption|].
    destruct (isdigit e) eqn:He; [|assumption].
    destruct Hrest as [[? _]|Hrest]; [discriminate|].
    destruct (ends_c_cases _ Hrest) as [e' [r' [[= <- <-] Hr']]].
    destruct Hr' as [[-> ->]|Hr']; [congruence|].
    simpl in Hlen. apply IH; [lia | assumption].
Qed.

Lemma digitpart_ends_c (acc v n : Z) (x r : string) :
  ends_with c x -> digitpart acc x = Some (v, n, r) -> ends_with c r.
Proof.
  intros Hx. destruct (ends_c_cases x Hx) as [d [rest [-> Hrest]]]. unfold digitpart.
  destruct (isdigit d) eqn:Hd; [|discriminate].
  destruct Hrest as [[-> ->]|Hrest]; [congruence|].
  intros [= H].
  assert (Ht : r = snd (v, n, r)) by reflexivity.
  rewrite <- H in Ht. rewrite Ht.
  apply (digits_tail_ends_c _ rest _ 1 (le_n _) Hrest).
Qed.

Lemma digitpart_rejects (acc : Z) (x : string) :
  x = EmptyString \/ ends_with c x ->
  match digitpart acc x with
  | Some (_, _, EmptyString) => False
  | _ => True
  end.
Proof.
  intros [->|Hx]; [exact I|].
  destruct (digitpart acc x) as [[[v n] r]|] eqn:E; [|exact I].
  apply (digitpart_ends_c _ _ _ _ _ Hx) in E.
  destruct r; [now apply ends_c_nonempty in E | exact I].
Qed.

Lemma exponent_ends_c (x : string) : ends_with c x -> exponent x = None.
Proof.
  intros Hx. destruct (ends_c_cases x Hx) as [d [rest [-> Hrest]]]. simpl.
  destruct (Ascii.eqb (lower d) "e"); [|reflexivity].
  assert (Hbody : snd (sign rest) = EmptyString \/ ends_with c (snd (sign rest))).
  { destruct Hrest as [[-> _]|Hrest]; [now left | now apply sign_ends_c]. }
  destruct (sign rest) as [neg body]. simpl in Hbody.
  pose proof (digitpart_rejects 0 body Hbody) as H.
  destruct (digitpart 0 body) as [[[v n] [|e r]]|]; [destruct H | reflexivity | reflexivity].
Qed.

Lemma after_point (rest : string) : ends_with c (String "." rest) -> ends_with c rest.
Proof.
  intros H. destruct (ends_c_cases _ H) as [d [r [[= <- <-] [[_ E]|Hr]]]]; [|assumption].
  now elim c_not_point.
Qed.

Lemma floatnumber_ends_c (x : string) : ends_with c x -> floatnumber x = None.
Proof.
  intros Hx. unfold floatnumber.
  destruct (digitpart 0 x) as [[[i n] rest]|] eqn:E.
  - apply (digitpart_ends_c _ _ _ _ _ Hx) in E.
    destruct (ends_c_cases rest E) as [d [rest2 [-> _]]].
    destruct (Ascii.eqb d ".") eqn:Hd.
    + apply Ascii.eqb_eq in Hd. subst d. apply after_point in E.
      destruct (digitpart i rest2) as [[[m nf] rest3]|] eqn:E2.
      * apply (digitpart_ends_c _ _ _ _ _ E) in E2. now rewrite exponent_ends_c.
      * now rewrite exponent_ends_c.
    + now rewrite exponent_ends_c.
  - destruct (ends_c_cases x Hx) as [d [rest2 [-> _]]].
    destruct (Ascii.eqb d ".") eqn:Hd; [|reflexivity].
    apply Ascii.eqb_eq in Hd. subst d. apply after_point in Hx.
    destruct (digitpart 0 rest2) as [[[m nf] rest3]|] eqn:E2; [|reflexivity].
    apply (digitpart_ends_c _ _ _ _ _ Hx) in E2. now rewrite exponent_ends_c.
Qed.

Lemma lowercase_snoc (u : string) (d : ascii) :
  lowercase (snoc u d) = snoc (lowercase u) (lower d).
Proof.
  unfold snoc. induction u as [|a u IH]; simpl; [reflexivity | now rewrite IH].
Qed.

Hypothesis c_not_f : lower c <> "f"%char.
Hypothesis c_not_y : lower c <> "y"%char.
Hypothesis c_not_n : lower c <> "n"%char.

(** [float()] rejects every text that ends with [c]. *)
Lemma float_rejects_ending (u : string) : float_of_string (snoc u c) = None.
Proof.
  unfold float_of_string.
  assert (Hs : ends_with c (strip (snoc u c))) by (apply strip_ends_c; now exists u).
  pose proof (sign_ends_c _ Hs) as Hbody.
  destruct (sign (strip (snoc u c))) as [neg body]. simpl in Hbody.
  assert (Hlit : forall w d, lower c <> d -> String.eqb (lowercase body) (snoc w d) = false).
  { intros w d Hd. apply String.eqb_neq. intros E.
    destruct Hbody as [->|[t ->]]; [destruct w; discriminate|].
    rewrite lowercase_snoc in E. apply snoc_inj in E. tauto. }
  assert (H1 : String.eqb (lowercase body) "inf" = false)
    by exact (Hlit "in" "f"%char c_not_f).
  assert (H2 : String.eqb (lowercase body) "infinity" = false)
    by exact (Hlit "infinit" "y"%char c_not_y).
  assert (H3 : String.eqb (lowercase body) "nan" = false)
    by exact (Hlit "na" "n"%char c_not_n).
  cbv zeta. rewrite H1, H2, H3. simpl. destruct Hbody as [->|Hbody]; [reflexivity|].
  now rewrite floatnumber_ends_c.
Qed.

End Suffix.

Section Unit.

Import PyStr PyNum PingSpec.

Lemma append_nil_r (s : string) : (s ++ "")%string = s.
Proof. induction s as [|d s IH]; simpl; [reflexivity | now rewrite IH]. Qed.

Lemma append_assoc (a b d : string) : ((a ++ b) ++ d)%string = (a ++ (b ++ d))%string.
Proof. induction a as [|x a IH]; simpl; [reflexivity | now rewrite IH]. Qed.

Lemma split_on_absent (sep : ascii) (v : string) :
  forall cur,
    contains (String sep EmptyString) v = false ->
    split_on_from sep cur v = [(cur ++ v)%string].
Proof.
  induction v as [|d v IH]; intros cur; simpl.
  - intros _. now rewrite append_nil_r.
  - destruct (ascii_dec sep d) as [<-|Hne].
    + destruct v; discriminate.
    + intros H. unfold String.prefix in H.
      assert (E : Ascii.eqb d sep = false).
      { apply Ascii.eqb_neq. congruence. }
      rewrite E, IH by assumption.
      unfold snoc. now rewrite append_assoc.
Qed.

Lemma contains_app_false (sub a b : string) :
  sub <> EmptyString ->
  String.length sub = 1%nat ->
  contains sub a = false -> contains sub b = false -> contains sub (a ++ b) = false.
Proof.
  intros Hne Hlen Ha Hb. destruct sub as [|s [|s' sub]]; try discriminate. clear Hne Hlen.
  induction a as [|d a IH]; simpl in *; [assumption|].
  destruct (ascii_dec s d).
  - destruct a; discriminate.
  - apply IH. assumption.
Qed.

(** A value followed at once by a unit that ends with a letter such as "s"
    is not a float literal: the token is skipped. *)
Lemma attached_unit_is_skipped (v : string) :
  contains "=" v = false ->
  time_value ("time=" ++ v ++ "ms") = None /\
  time_value ("time=" ++ v ++ "s") = None.
Proof.
  intros Hv. unfold time_value.
  assert (Hstart : forall x, startswith ("time=" ++ x) "time=" = true).
  { intros x. unfold startswith. simpl.
    repeat match goal with |- context [ascii_dec ?a ?b] =>
      destruct (ascii_dec a b); [|congruence] end.
    now destruct x. }
  assert (Hsplit : forall x, contains "=" x = false ->
            nth 1 (split_on "=" ("time=" ++ x)) EmptyString = x).
  { intros x Hx. unfold split_on. simpl. now rewrite (split_on_absent "=" x EmptyString Hx). }
  rewrite !Hstart.
  assert (Hs : float_of_string (snoc v "s") = None).
  { apply float_rejects_ending; try reflexivity; discriminate. }
  assert (Hms : float_of_string (snoc (v ++ "m") "s") = None).
  { apply float_rejects_ending; try reflexivity; discriminate. }
  unfold snoc in Hs, Hms. rewrite append_assoc in Hms. simpl in Hms.
  rewrite !Hsplit.
  - tauto.
  - apply contains_app_false; try reflexivity; try discriminate; assumption.
  - apply contains_app_false; try reflexivity; try discriminate; assumption.
Qed.

End Unit.

(** ** The samples of a ping run *)

Section Ping.

Import PyStr Pingstats PingSpec.

Lemma fold_add_part (parts : list string) :
  forall latencies,
    fold_left add_part parts latencies = latencies ++ flat_map part_samples parts.
Proof.
  induction parts as [|part rest IH]; intros latencies; simpl.
  - now rewrite app_nil_r.
  - rewrite IH. unfold add_part, part_samples, time_value.
    destruct (startswith part "time="); [|reflexivity].
    destruct (PyNum.float_of_string _); [|reflexivity].
    now rewrite <- app_assoc.
Qed.

Lemma fold_add_line (lines : list string) :
  forall latencies,
    fold_left add_line lines latencies = latencies ++ flat_map line_samples lines.
Proof.
  induction lines as [|line rest IH]; intros latencies; simpl.
  - now rewrite app_nil_r.
  - rewrite IH. unfold add_line, line_samples.
    destruct (contains "time=" line); [|reflexivity].
    rewrite fold_add_part. now rewrite <- app_assoc.
Qed.

(** No exception leaves the summary of a list that is not empty. *)
Lemma stats_record_ok (x : float) (latencies : list float) :
  exists stats, stats_record (x :: latencies) = Ok stats.
Proof.
  unfold stats_record. rewrite truediv_len_ok.
  destruct (max_ok x latencies) as [mx ->].
  destruct (median_ok x latencies) as [md ->].
  destruct (min_ok x latencies) as [mn ->].
  eexists; reflexivity.
Qed.

End Ping.

(** C8, as stated, fails: a unit attached to the value is not discarded.
    The token "time=10.0ms" gives the text "10.0ms", which [float()]
    rejects, so the reply gives no sample; with the unit as a token of its
    own the sample is read. *)
Lemma attached_unit_not_discarded :
  PyStr.contains "time=" attached_unit_reply = true /\
  Pingstats.ping_latencies attached_unit_reply = [] /\
  Pingstats.parse_ping_output attached_unit_reply = Ok None /\
  Pingstats.ping_latencies "64 bytes from 10.0.0.1: icmp_seq=1 ttl=64 time=10.0 ms" = [10].
Proof.
  repeat split; vm_compute; reflexivity.
Qed.

(** C8, amended: the samples of a ping output are, line by line and token
    by token in order, the values of the tokens that start with "time=" on
    the lines that contain "time="; the value of such a token is the text
    between its first "=" and its next "=" (or its end) when [float()]
    accepts that text as it is, and the token is skipped otherwise; no unit
    is discarded, so a token with the unit "ms" or "s" attached to its value
    is skipped; a line without "time=" gives nothing; and no exception
    leaves [parse_ping_output]. *)
Theorem ping_samples_by_token (ping_output : string) :
  Pingstats.ping_latencies ping_output =
    flat_map PingSpec.line_samples (PyStr.splitlines ping_output) /\
  (exists r, Pingstats.parse_ping_output ping_output = Ok r) /\
  (forall v,
      PyStr.contains "=" v = false ->
      PingSpec.time_value ("time=" ++ v ++ "ms") = None /\
      PingSpec.time_value ("time=" ++ v ++ "s") = None) /\
  PingSpec.time_value "time=10.0" = Some 10 /\
  PingSpec.time_value "time=abc" = None /\
  PingSpec.time_value "ttl=64" = None.
Proof.
  split; [|split; [|split]].
  - unfold Pingstats.ping_latencies. now rewrite fold_add_line.
  - unfold Pingstats.parse_ping_output.
    destruct (Pingstats.ping_latencies ping_output) as [|x latencies].
    + eexists; reflexivity.
    + destruct (stats_record_ok x latencies) as [stats ->]. eexists; reflexivity.
  - apply attached_unit_is_skipped.
  - repeat split; vm_compute; reflexivity.
Qed.

Lemma ping_samples_by_token_witness :
  Pingstats.ping_latencies attached_unit_reply = [] /\
  PyStr.contains "=" "10.0" = false /\
  PingSpec.time_value "time=10.0ms" = None.
Proof.
  destruct (ping_samples_by_token attached_unit_reply) as [Hsamples [_ [Hunit _]]].
  split; [|split].
  - rewrite Hsamples. vm_compute. reflexivity.
  - reflexivity.
  - exact (proj1 (Hunit "10.0" eq_refl)).
Defined.

(** ** Runs without usable data *)

(** C5, as stated, fails on both programs.  A ping run that exits with
    status 0 and has no reply prints nothing at all.  A traceroute run that
    fails leaves nothing to aggregate, and [main] still calls [save_to_json]
    on the empty list, which writes the JSON file, and then
    [generate_boxplot] on the empty list: the plotting library raises
    [ValueError] on a plot without box, and the program ends by that
    exception; whatever [generate_boxplot] does, the JSON file is written
    before. *)
Lemma no_data_counterexample :
  Pingstats.main
    (Pingstats.mkArgs 10 1 "out.json" "out.pdf" (Some "10.0.0.9"))
    (Exited 0 no_reply "")
  = ([], Ok tt) /\
  TrRun.main
    (Trstats.mkArgs 1 1 30 "out.json" "out.pdf" (Some "nowhere.example") None)
    (TrMain.unknown_host TrMain.plot_needs_a_box)
  = ([Trstats.Print "Error running traceroute: unknown host";
      Trstats.Sleep 1;
      Trstats.SaveToJson [] "out.json";
      Trstats.GenerateBoxplot [] "out.pdf"], Raise ValueError) /\
  (forall outcome,
      TrRun.main
        (Trstats.mkArgs 1 1 30 "out.json" "out.pdf" (Some "nowhere.example") None)
        (TrMain.unknown_host outcome)
      = ([Trstats.Print "Error running traceroute: unknown host";
          Trstats.Sleep 1;
          Trstats.SaveToJson [] "out.json";
          Trstats.GenerateBoxplot [] "out.pdf"], outcome [] "out.pdf")).
Proof.
  split; [|split]; [vm_compute; reflexivity | vm_compute; reflexivity |].
  intros outcome. vm_compute. now destruct (outcome [] "out.pdf").
Qed.

(** C5, amended: in both programs a missing target (for traceroute, outside
    the test mode) prints one diagnostic and returns with nothing written;
    in the ping program a run that gives no sample returns with nothing
    written, and what is printed is only what [run_ping] printed (nothing
    when the process exited with status 0). *)
Theorem no_data_no_report :
  (forall args c,
      truthy (Pingstats.target args) = None ->
      Pingstats.main args c = ([Pingstats.Print "Target is required."], Ok tt)) /\
  (forall args w,
      truthy (Trstats.test args) = None ->
      truthy (Trstats.target args) = None ->
      Trstats.main args w =
        ([Trstats.Print "Target is required when not in test mode."], Ok tt)) /\
  (forall args c target,
      truthy (Pingstats.target args) = Some target ->
      PingSpec.run_samples c = [] ->
      Pingstats.main args c = (PingSpec.runner_messages c, Ok tt)).
Proof.
  split; [|split].
  - intros args c Htarget. unfold Pingstats.main. now rewrite Htarget.
  - intros args w Htest Htarget. unfold Trstats.main. now rewrite Htest, Htarget.
  - intros args c target Htarget Hnone. unfold Pingstats.main. rewrite Htarget.
    unfold PingSpec.run_samples, PingSpec.usable_output in Hnone.
    destruct c as [returncode stdout stderr|e]; simpl.
    + destruct (returncode =? 0)%Z; simpl; [|reflexivity].
      destruct stdout as [|ch stdout]; simpl in *; [reflexivity|].
      unfold Pingstats.parse_ping_output. rewrite Hnone. reflexivity.
    + reflexivity.
Qed.

Lemma no_data_no_report_witness :
  Pingstats.main (Pingstats.mkArgs 10 1 "out.json" "out.pdf" None) (Exited 0 three_replies "")
    = ([Pingstats.Print "Target is required."], Ok tt) /\
  Trstats.main (Trstats.mkArgs 1 1 30 "out.json" "out.pdf" None (Some ""))
    (Trstats.mkWorld (fun _ => None) (fun _ => Exited 0 example_line ""))
    = ([Trstats.Print "Target is required when not in test mode."], Ok tt) /\
  Pingstats.main (Pingstats.mkArgs 10 1 "out.json" "out.pdf" (Some "10.0.0.9"))
    (Exited 1 no_reply "ping: sendmsg: Network is unreachable")
    = ([Pingstats.Print "Error running ping: ping: sendmsg: Network is unreachable"], Ok tt).
Proof.
  destruct no_data_no_report as [Hping [Htr Hnone]].
  split; [|split].
  - apply Hping. reflexivity.
  - apply Htr; reflexivity.
  - exact (Hnone (Pingstats.mkArgs 10 1 "out.json" "out.pdf" (Some "10.0.0.9"))
             (Exited 1 no_reply "ping: sendmsg: Network is unreachable")
             "10.0.0.9" eq_refl eq_refl).
Defined.

(** ** Aggregating traceroute runs *)

Section Aggregate.

Import Trstats TrSpec.

Lemma lookup_setitem_same (k : Z) (v : Pool) (d : dict) :
  lookup k (setitem k v d) = Some v.
Proof.
  induction d as [|[j w] d IH]; simpl.
  - now rewrite Z.eqb_refl.
  - destruct (j =? k)%Z eqn:E; simpl; rewrite E; [reflexivity | assumption].
Qed.

Lemma lookup_setitem_other (k n : Z) (v : Pool) (d : dict) :
  k <> n -> lookup n (setitem k v d) = lookup n d.
Proof.
  intros Hkn. induction d as [|[j w] d IH]; simpl.
  - apply Z.eqb_neq in Hkn. now rewrite Hkn.
  - destruct (j =? k)%Z eqn:E; simpl.
    + apply Z.eqb_eq in E. subst j. apply Z.eqb_neq in Hkn. now rewrite Hkn.
    + now rewrite IH.
Qed.

Lemma setitem_setitem (k : Z) (v w : Pool) (d : dict) :
  setitem k v (setitem k w d) = setitem k v d.
Proof.
  induction d as [|[j u] d IH]; simpl.
  - now rewrite Z.eqb_refl.
  - destruct (j =? k)%Z eqn:E; simpl; rewrite E; [reflexivity | now rewrite IH].
Qed.

Lemma lookup_None_keys (k : Z) (d : dict) :
  lookup k d = None <-> ~ In k (map fst d).
Proof.
  induction d as [|[j w] d IH]; simpl; [tauto|].
  destruct (j =? k)%Z eqn:E.
  - apply Z.eqb_eq in E. split; [discriminate | tauto].
  - apply Z.eqb_neq in E. rewrite IH. tauto.
Qed.

Lemma keys_setitem (k : Z) (v : Pool) (d : dict) :
  map fst (setitem k v d) =
    match lookup k d with
    | Some _ => map fst d
    | None => map fst d ++ [k]
    end.
Proof.
  induction d as [|[j w] d IH]; simpl; [reflexivity|].
  destruct (j =? k)%Z eqn:E; simpl; [reflexivity|].
  rewrite IH. now destruct (lookup k d).
Qed.

Lemma lookup_In (k : Z) (p : Pool) (d : dict) :
  NoDup (map fst d) -> In (k, p) d -> lookup k d = Some p.
Proof.
  induction d as [|[j w] d IH]; simpl; intros Hnd Hin; [destruct Hin|].
  inversion Hnd as [|? ? Hj Hnd']; subst.
  destruct Hin as [[= -> ->]|Hin].
  - now rewrite Z.eqb_refl.
  - destruct (j =? k)%Z eqn:E; [|now apply IH].
    apply Z.eqb_eq in E. subst j. exfalso. apply Hj.
    change k with (fst (k, p)). now apply in_map.
Qed.

Lemma append_to_found (k : Z) (f : Pool -> Pool) (p : Pool) (d : dict) :
  lookup k d = Some p -> append_to k f d = Ok (setitem k (f p) d).
Proof.
  intros H. unfold append_to, getitem. now rewrite H.
Qed.

(** One hop: its pool is created when its number is new, and then receives
    the four values; no [KeyError]. *)
Lemma add_hop_eq (d : dict) (h : Hop) :
  add_hop d h =
    Ok (setitem (hop h)
          (extend h match lookup (hop h) d with
                    | Some p => p
                    | None => mkPool (hop h) (hosts h) [] [] [] []
                    end) d).
Proof.
  unfold add_hop, extend.
  set (k := hop h).
  set (p0 := match lookup k d with Some p => p | None => mkPool k (hosts h) [] [] [] [] end).
  set (d1 := match lookup k d with
             | None => setitem k (mkPool k (hosts h) [] [] [] []) d
             | Some _ => d
             end).
  assert (H1 : lookup k d1 = Some p0).
  { unfold d1, p0. destruct (lookup k d) eqn:E; [assumption | apply lookup_setitem_same]. }
  assert (H2 : forall v, setitem k v d1 = setitem k v d).
  { intros v. unfold d1. destruct (lookup k d); [reflexivity | apply setitem_setitem]. }
  rewrite (append_to_found _ _ _ _ H1). simpl.
  rewrite (append_to_found _ _ _ _ (lookup_setitem_same _ _ _)). simpl.
  rewrite (append_to_found _ _ _ _ (lookup_setitem_same _ _ _)). simpl.
  rewrite (append_to_found _ _ _ _ (lookup_setitem_same _ _ _)).
  now rewrite !setitem_setitem, H2.
Qed.

Lemma group_app (n : Z) (l1 l2 : list Hop) :
  group n (l1 ++ l2) = group n l1 ++ group n l2.
Proof. apply filter_app. Qed.

Lemma represents_add (d : dict) (seen : list Hop) (h : Hop) :
  represents d seen ->
  represents
    (setitem (hop h)
       (extend h match lookup (hop h) d with
                 | Some p => p
                 | None => mkPool (hop h) (hosts h) [] [] [] []
                 end) d)
    (seen ++ [h]).
Proof.
  intros [Hnd Hlook]. split.
  - rewrite keys_setitem. destruct (lookup (hop h) d) eqn:E; [assumption|].
    apply lookup_None_keys in E.
    apply NoDup_app; [assumption | repeat constructor; simpl; tauto |].
    intros y Hy [<-|[]]. contradiction.
  - intros n. unfold pool_of. rewrite group_app. simpl.
    destruct (Z.eq_dec (hop h) n) as [<-|Hne].
    + rewrite lookup_setitem_same, Z.eqb_refl, Hlook. unfold pool_of.
      destruct (group (hop h) seen) as [|h0 g]; simpl.
      * reflexivity.
      * unfold extend, add_med, add_avg, add_max, add_min. simpl.
        now rewrite !map_app.
    + rewrite lookup_setitem_other by assumption.
      apply Z.eqb_neq in Hne. rewrite Hne, app_nil_r. apply Hlook.
Qed.

Lemma add_hops_represents (hops : list Hop) :
  forall d seen,
    represents d seen ->
    exists d', add_hops d hops = Ok d' /\ represents d' (seen ++ hops).
Proof.
  induction hops as [|h rest IH]; intros d seen Hrep; simpl.
  - exists d. now rewrite app_nil_r.
  - rewrite add_hop_eq. simpl.
    destruct (IH _ _ (represents_add d seen h Hrep)) as [d' [E Hrep']].
    exists d'. split; [assumption|]. now rewrite <- app_assoc in Hrep'.
Qed.

Lemma add_runs_represents (hops_list : list (list Hop)) :
  forall d seen,
    represents d seen ->
    exists d', add_runs d hops_list = Ok d' /\ represents d' (seen ++ List.concat hops_list).
Proof.
  induction hops_list as [|hops rest IH]; intros d seen Hrep; simpl.
  - exists d. now rewrite app_nil_r.
  - destruct (add_hops_represents hops d seen Hrep) as [d1 [E1 Hrep1]].
    rewrite E1. simpl.
    destruct (IH _ _ Hrep1) as [d' [E Hrep']].
    exists d'. split; [assumption|]. now rewrite <- app_assoc in Hrep'.
Qed.

Lemma represents_nil : represents [] [].
Proof. split; [constructor | reflexivity]. Qed.

(** The sorted keys. *)

Lemma insert_key_In (k j : Z) (ks : list Z) :
  In j (insert_key k ks) <-> j = k \/ In j ks.
Proof.
  induction ks as [|i ks IH]; simpl; [intuition congruence|].
  destruct (i <? k)%Z; simpl; [rewrite IH|]; intuition congruence.
Qed.

Lemma sorted_keys_In (j : Z) (ks : list Z) : In j (sorted_keys ks) <-> In j ks.
Proof.
  induction ks as [|k ks IH]; simpl; [tauto|].
  rewrite insert_key_In, IH. intuition congruence.
Qed.

Lemma insert_key_sorted (k : Z) (ks : list Z) :
  StronglySorted Z.lt ks -> ~ In k ks -> StronglySorted Z.lt (insert_key k ks).
Proof.
  induction ks as [|i ks IH]; simpl; intros Hs Hk.
  - repeat constructor.
  - inversion Hs as [|? ? Hs' Hall]; subst.
    destruct (i <? k)%Z eqn:E.
    + apply Z.ltb_lt in E. constructor; [apply IH; tauto|].
      apply Forall_forall. intros j Hj. apply insert_key_In in Hj.
      destruct Hj as [->|Hj]; [assumption|].
      rewrite Forall_forall in Hall. now apply Hall.
    + apply Z.ltb_ge in E. assert (k < i) by lia.
      constructor; [assumption|]. constructor; [assumption|].
      eapply Forall_impl; [|exact Hall]. simpl. intros; lia.
Qed.

Lemma sorted_keys_sorted (ks : list Z) :
  NoDup ks -> StronglySorted Z.lt (sorted_keys ks).
Proof.
  induction ks as [|k ks IH]; simpl; intros Hnd; [constructor|].
  inversion Hnd; subst. apply insert_key_sorted; [now apply IH|].
  now rewrite sorted_keys_In.
Qed.

(** The record of a pool that holds a group of hops. *)
Lemma final_record_group (n : Z) (h0 : Hop) (g : list Hop) :
  let p := mkPool n (hosts h0) (map min (h0 :: g)) (map max (h0 :: g))
             (map avg (h0 :: g)) (map med (h0 :: g)) in
  exists r,
    final_record p = Ok r /\
    hop r = n /\ hosts r = hosts h0 /\
    (s <- PyNum.truediv (PyNum.sum (map avg (h0 :: g))) (PyNum.len (map avg (h0 :: g))) ;;
     Ok (PyNum.round s 3)) = Ok (avg r) /\
    PyNum.max (map max (h0 :: g)) = Ok (max r) /\
    PyNum.median (map med (h0 :: g)) = Ok (med r) /\
    PyNum.min (map min (h0 :: g)) = Ok (min r).
Proof.
  intros p. unfold final_record, p. simpl pool_avg. simpl pool_max.
  simpl pool_med. simpl pool_min. simpl pool_hop. simpl pool_hosts.
  simpl map. rewrite truediv_len_ok.
  destruct (max_ok (max h0) (map max g)) as [mx Hmx].
  destruct (median_ok (med h0) (map med g)) as [md Hmd].
  destruct (min_ok (min h0) (map min g)) as [mn Hmn].
  rewrite Hmx, Hmd, Hmn. simpl.
  eexists. split; [reflexivity|]. simpl. repeat split; reflexivity.
Qed.

(** The second loop, on keys that are all in the dict. *)
Lemma finalize_represents (d : dict) (seen : list Hop) (keys : list Z) :
  represents d seen ->
  (forall k, In k keys -> In k (map fst d)) ->
  forall acc,
  exists out,
    finalize d keys acc = Ok (acc ++ out) /\
    map hop out = keys /\
    Forall
      (fun r =>
         let g := group (hop r) seen in
         (s <- PyNum.truediv (PyNum.sum (map avg g)) (PyNum.len (map avg g)) ;;
          Ok (PyNum.round s 3)) = Ok (avg r) /\
         PyNum.max (map max g) = Ok (max r) /\
         PyNum.median (map med g) = Ok (med r) /\
         PyNum.min (map min g) = Ok (min r) /\
         option_map hosts (head g) = Some (hosts r))
      out.
Proof.
  intros [Hnd Hlook]. induction keys as [|k keys IH]; intros Hkeys acc; simpl.
  - exists []. rewrite app_nil_r. repeat split; constructor.
  - assert (Hk : lookup k d <> None).
    { rewrite lookup_None_keys. intros H. apply H, Hkeys. now left. }
    unfold getitem. rewrite Hlook in *. unfold pool_of in *.
    destruct (group k seen) as [|h0 g] eqn:Hg; [congruence|].
    destruct (final_record_group k h0 g) as [r [Hr [Hhop [Hhosts Hvals]]]].
    cbv zeta in Hr. cbn [bind]. rewrite Hr. cbn [bind].
    destruct (IH (fun j Hj => Hkeys j (or_intror Hj)) (acc ++ [r])) as [out [E [Hmap Hall]]].
    exists (r :: out). rewrite E, <- app_assoc. simpl.
    split; [reflexivity|]. split; [now rewrite Hhop, Hmap|].
    constructor; [|assumption].
    cbv zeta. rewrite Hhop, Hg. simpl head. simpl option_map. rewrite Hhosts.
    tauto.
Qed.

Lemma group_nonempty (n : Z) (seen : list Hop) :
  group n seen <> [] <-> exists h, In h seen /\ hop h = n.
Proof.
  unfold group. split.
  - destruct (filter _ seen) as [|h g] eqn:E; [congruence|]. intros _.
    assert (Hin : In h (filter (fun h => (hop h =? n)%Z) seen)) by (rewrite E; now left).
    apply filter_In in Hin. exists h. split; [tauto|]. now apply Z.eqb_eq.
  - intros [h [Hin Hn]] E.
    assert (Hf : In h (filter (fun h => (hop h =? n)%Z) seen)).
    { apply filter_In. split; [assumption | now apply Z.eqb_eq]. }
    rewrite E in Hf. destruct Hf.
Qed.

Lemma represents_keys (d : dict) (seen : list Hop) (n : Z) :
  represents d seen -> (In n (map fst d) <-> exists h, In h seen /\ hop h = n).
Proof.
  intros [Hnd Hlook]. rewrite <- group_nonempty.
  destruct (In_dec Z.eq_dec n (map fst d)) as [Hin|Hnin].
  - split; [|tauto]. intros _ E.
    assert (H : lookup n d = None) by (rewrite Hlook; unfold pool_of; now rewrite E).
    apply lookup_None_keys in H. contradiction.
  - split; [tauto|]. intros Hg. exfalso. apply Hg.
    apply lookup_None_keys in Hnin. rewrite Hlook in Hnin. unfold pool_of in Hnin.
    destruct (group n seen); [reflexivity | discriminate].
Qed.

End Aggregate.

(** C3: [aggregate_stats] returns one record for each hop number that some
    run reports, in ascending order of hop number; with [g] the hops of that
    number in the order met (run after run, and only from the runs that
    report it), the record has avg = the mean of the avg values of [g]
    rounded to 3 decimals, max = the max of their max values, med = the
    median of their med values, min = the min of their min values, and the
    hosts of the first hop of [g]. *)
Theorem aggregate_stats_by_hop_number (hops_list : list (list Trstats.Hop)) :
  exists final_stats,
    Trstats.aggregate_stats hops_list = Ok final_stats /\
    StronglySorted Z.lt (map Trstats.hop final_stats) /\
    (forall n, In n (map Trstats.hop final_stats) <->
               exists h, In h (List.concat hops_list) /\ Trstats.hop h = n) /\
    Forall
      (fun r =>
         let g := TrSpec.group (Trstats.hop r) (List.concat hops_list) in
         (s <- PyNum.truediv (PyNum.sum (map Trstats.avg g))
                 (PyNum.len (map Trstats.avg g)) ;;
          Ok (PyNum.round s 3)) = Ok (Trstats.avg r) /\
         PyNum.max (map Trstats.max g) = Ok (Trstats.max r) /\
         PyNum.median (map Trstats.med g) = Ok (Trstats.med r) /\
         PyNum.min (map Trstats.min g) = Ok (Trstats.min r) /\
         option_map Trstats.hosts (head g) = Some (Trstats.hosts r))
      final_stats.
Proof.
  unfold Trstats.aggregate_stats.
  destruct (add_runs_represents hops_list [] [] represents_nil) as [d [E Hrep]].
  simpl in Hrep. rewrite E. simpl.
  destruct (finalize_represents d (List.concat hops_list)
              (Trstats.sorted_keys (map fst d)) Hrep
              (fun k Hk => proj1 (sorted_keys_In k _) Hk) [])
    as [out [Hfin [Hmap Hall]]].
  exists out. simpl in Hfin. split; [assumption|]. rewrite Hmap. split; [|split].
  - apply sorted_keys_sorted. apply Hrep.
  - intros n. rewrite sorted_keys_In. now apply represents_keys.
  - assumption.
Qed.

(** C10: [aggregate_stats] returns on every list of runs, and returns the
    empty list on the empty list; the dict built by its first loop has, under
    every hop number, four lists that are not empty, so that the mean taken
    in the second loop never divides by zero. *)
Theorem aggregate_stats_total :
  (forall hops_list, exists final_stats, Trstats.aggregate_stats hops_list = Ok final_stats) /\
  Trstats.aggregate_stats [] = Ok [] /\
  (forall hops_list,
      exists aggregated,
        Trstats.add_runs [] hops_list = Ok aggregated /\
        Forall
          (fun kv =>
             Trstats.pool_min (snd kv) <> [] /\ Trstats.pool_max (snd kv) <> [] /\
             Trstats.pool_avg (snd kv) <> [] /\ Trstats.pool_med (snd kv) <> [] /\
             exists s,
               PyNum.truediv (PyNum.sum (Trstats.pool_avg (snd kv)))
                 (PyNum.len (Trstats.pool_avg (snd kv))) = Ok s)
          aggregated).
Proof.
  split; [|split].
  - intros hops_list. unfold Trstats.aggregate_stats.
    destruct (add_runs_represents hops_list [] [] represents_nil) as [d [E Hrep]].
    rewrite E. simpl.
    destruct (finalize_represents d _ (Trstats.sorted_keys (map fst d)) Hrep
                (fun k Hk => proj1 (sorted_keys_In k _) Hk) [])
      as [out [Hfin _]].
    exists out. exact Hfin.
  - reflexivity.
  - intros hops_list.
    destruct (add_runs_represents hops_list [] [] represents_nil) as [d [E [Hnd Hlook]]].
    exists d. split; [assumption|].
    apply Forall_forall. intros [k p] Hin. simpl.
    apply (lookup_In k p d Hnd) in Hin. rewrite Hlook in Hin.
    unfold TrSpec.pool_of in Hin.
    destruct (TrSpec.group k ([] ++ List.concat hops_list)) as [|h0 g]; [discriminate|].
    injection Hin as <-. simpl.
    repeat split; try discriminate.
    eexists. apply truediv_len_ok.
Qed.

(** Two runs, the second without hop 2: hop 1 pools both runs, hop 2 is
    computed from the first run alone, and the hosts of hop 1 are those of
    the first run. *)
Lemma aggregate_two_runs :
  Trstats.aggregate_stats two_runs =
    Ok [Trstats.mkHop 2 1 [["a.example"; "(10.0.0.1)"]] 4 1.75 1;
        Trstats.mkHop 7 2 [["b.example"; "(10.0.0.2)"]] 9 6 5].
Proof. vm_compute. reflexivity. Qed.

(** ** Rounding to binary64

    The float operations round an exact value to a nearest float.  Here the
    values are integers, in units of 2^-1075, half the least positive float:
    what is proved of the rounding of [SpecFloat] is that no float lies
    strictly between an exact value and its rounded value, which bounds the
    float [(a + b) / 2] by [a] and [b]. *)

Section Rounding.

Import Binary64.

Local Open Scope Z_scope.

Lemma fexp_eq (z : Z) : fexp prec emax z = Z.max (z - 53) (-1074).
Proof. reflexivity. Qed.

Lemma pow2_pos (k : Z) : 0 <= k -> 0 < 2 ^ k.
Proof. intros H. apply Z.pow_pos_nonneg; lia. Qed.

Lemma pow2_split (a b : Z) : 0 <= a -> 0 <= b -> 2 ^ (a + b) = 2 ^ a * 2 ^ b.
Proof. intros. apply Z.pow_add_r; assumption. Qed.

Lemma pow2_le (a b : Z) : 0 <= a <= b -> 2 ^ a <= 2 ^ b.
Proof. intros. apply Z.pow_le_mono_r; lia. Qed.

Lemma pow2_lt (a b : Z) : 0 <= a < b -> 2 ^ a < 2 ^ b.
Proof. intros. apply Z.pow_lt_mono_r; lia. Qed.

Lemma pow2_succ (a : Z) : 0 <= a -> 2 ^ (a + 1) = 2 * 2 ^ a.
Proof. intros. rewrite Z.pow_add_r by lia. change (2 ^ 1) with 2. lia. Qed.

(** 2^(d-1) <= p < 2^d for d the number of digits of p. *)
Lemma digits2_bounds (p : positive) :
  2 ^ (Zpos (digits2_pos p) - 1) <= Zpos p < 2 ^ Zpos (digits2_pos p).
Proof.
  induction p as [p IH|p IH|]; simpl digits2_pos.
  - rewrite Pos2Z.inj_succ. unfold Z.succ.
    replace (Zpos (digits2_pos p) + 1 - 1) with (Zpos (digits2_pos p) - 1 + 1) by lia.
    rewrite !pow2_succ by lia. lia.
  - rewrite Pos2Z.inj_succ. unfold Z.succ.
    replace (Zpos (digits2_pos p) + 1 - 1) with (Zpos (digits2_pos p) - 1 + 1) by lia.
    rewrite !pow2_succ by lia. lia.
  - simpl. lia.
Qed.

Lemma Zdigits2_bounds (m : Z) :
  0 < m -> 2 ^ (Zdigits2 m - 1) <= m < 2 ^ Zdigits2 m.
Proof. destruct m as [|p|p]; try lia. intros _. apply digits2_bounds. Qed.

Lemma Zdigits2_nonneg (m : Z) : 0 <= Zdigits2 m.
Proof. destruct m; simpl; lia. Qed.

Lemma Zdigits2_pos (m : Z) : 0 < m -> 0 < Zdigits2 m.
Proof. destruct m; simpl; lia. Qed.

(** A number below 2^k has at most k digits. *)
Lemma Zdigits2_le (m k : Z) : 0 <= k -> 0 <= m < 2 ^ k -> Zdigits2 m <= k.
Proof.
  intros Hk Hm. destruct (Z.eq_dec m 0) as [->|Hne]; [simpl; lia|].
  assert (H := Zdigits2_bounds m ltac:(lia)).
  destruct (Z_le_gt_dec (Zdigits2 m) k) as [|Hgt]; [assumption|].
  assert (2 ^ k <= 2 ^ (Zdigits2 m - 1)) by (apply pow2_le; lia). lia.
Qed.

(** A number from 2^k on has more than k digits. *)
Lemma Zdigits2_gt (m k : Z) : 0 <= k -> 2 ^ k <= m -> k < Zdigits2 m.
Proof.
  intros Hk Hm. assert (0 < 2 ^ k) by now apply pow2_pos.
  assert (H' := Zdigits2_bounds m ltac:(lia)).
  destruct (Z_lt_le_dec k (Zdigits2 m)) as [|Hle]; [assumption|].
  assert (0 < Zdigits2 m) by (apply Zdigits2_pos; lia).
  assert (2 ^ Zdigits2 m <= 2 ^ k) by (apply pow2_le; lia). lia.
Qed.

(** *** Shifting right *)

Lemma iter_pos_nat {A : Type} (f : A -> A) (p : positive) :
  forall x, iter_pos f p x = Nat.iter (Pos.to_nat p) f x.
Proof.
  induction p as [p IH|p IH|]; intros x; simpl iter_pos.
  - rewrite !IH. rewrite Pos2Nat.inj_xI.
    replace (S (2 * Pos.to_nat p))%nat with (Pos.to_nat p + Pos.to_nat p + 1)%nat by lia.
    rewrite !Nat.iter_add. reflexivity.
  - rewrite !IH. rewrite Pos2Nat.inj_xO.
    replace (2 * Pos.to_nat p)%nat with (Pos.to_nat p + Pos.to_nat p)%nat by lia.
    rewrite Nat.iter_add. reflexivity.
  - reflexivity.
Qed.

Lemma shr_1_m (mrs : shr_record) :
  0 <= shr_m mrs -> shr_m (shr_1 mrs) = shr_m mrs / 2.
Proof.
  destruct mrs as [m r s]. simpl. intros Hm.
  destruct m as [|[p|p|]|p]; try lia; cbn [shr_m].
  - reflexivity.
  - apply Z.div_unique with 1; lia.
  - apply Z.div_unique with 0; lia.
  - reflexivity.
Qed.

Lemma shr_1_exact (mrs : shr_record) :
  0 <= shr_m mrs -> shr_m mrs mod 2 = 0 -> shr_r mrs = false -> shr_s mrs = false ->
  shr_r (shr_1 mrs) = false /\ shr_s (shr_1 mrs) = false.
Proof.
  destruct mrs as [m r s]. simpl. intros Hm Hmod -> ->.
  destruct m as [|[p|p|]|p]; try lia; cbn [shr_r shr_s orb]; try tauto.
  - exfalso. assert (E : Zpos p~1 = 1 + Zpos p * 2) by lia. rewrite E in Hmod.
    rewrite Z_mod_plus_full in Hmod. discriminate.
  - discriminate.
Qed.

Lemma shr_iter (n : nat) (m0 : Z) (r0 s0 : bool) :
  0 <= m0 ->
  let mrs := Nat.iter n shr_1 (Build_shr_record m0 r0 s0) in
  shr_m mrs = m0 / 2 ^ Z.of_nat n /\
  (r0 = false -> s0 = false -> m0 mod 2 ^ Z.of_nat n = 0 ->
   shr_r mrs = false /\ shr_s mrs = false).
Proof.
  intros Hm0. induction n as [|n IH].
  - simpl. split; [now rewrite Z.div_1_r | tauto].
  - cbv zeta in *. rewrite Nat.iter_succ. destruct IH as [IHm IHe].
    set (mrs := Nat.iter n shr_1 (Build_shr_record m0 r0 s0)) in *.
    assert (Hp : 0 < 2 ^ Z.of_nat n) by (apply pow2_pos; lia).
    assert (Hq : 0 <= shr_m mrs) by (rewrite IHm; apply Z.div_pos; lia).
    rewrite Nat2Z.inj_succ. unfold Z.succ. rewrite pow2_succ by lia.
    split.
    + rewrite shr_1_m by assumption. rewrite IHm.
      rewrite Z.div_div by lia. f_equal. lia.
    + intros Hr Hs Hmod.
      assert (Hmod' : m0 mod 2 ^ Z.of_nat n = 0).
      { apply Z.mod_divide in Hmod; [|lia]. apply Z.mod_divide; [lia|].
        destruct Hmod as [c Hc]. exists (c * 2). lia. }
      destruct (IHe Hr Hs Hmod') as [Er Es].
      apply shr_1_exact; try assumption.
      rewrite IHm.
      apply Z.mod_divide in Hmod; [|lia]. destruct Hmod as [c Hc].
      rewrite Hc. replace (c * (2 * 2 ^ Z.of_nat n)) with ((c * 2) * 2 ^ Z.of_nat n) by lia.
      rewrite Z.div_mul by lia. now rewrite Z.mod_mul by lia.
Qed.

(** [shr] by [n >= 0] places: the mantissa is divided by 2^n; from an exact
    position, a mantissa that is a multiple of 2^n stays exact. *)
Lemma shr_value (m0 : Z) (lx : location) (e n : Z) :
  0 <= m0 -> 0 <= n ->
  let '(mrs, e') := shr (shr_record_of_loc m0 lx) e n in
  e' = e + n /\
  shr_m mrs = m0 / 2 ^ n /\
  (lx = loc_Exact -> m0 mod 2 ^ n = 0 -> loc_of_shr_record mrs = loc_Exact).
Proof.
  intros Hm0 Hn. unfold shr. destruct n as [|p|p]; try lia.
  - split; [lia|]. split; [destruct lx as [|[]]; simpl; now rewrite Z.div_1_r|].
    intros ->. reflexivity.
  - split; [reflexivity|]. rewrite iter_pos_nat.
    assert (Hrec : exists r0 s0, shr_record_of_loc m0 lx = Build_shr_record m0 r0 s0 /\
                                 (lx = loc_Exact -> r0 = false /\ s0 = false)).
    { destruct lx as [|[]]; simpl; eexists; eexists; split; try reflexivity;
        try discriminate; tauto. }
    destruct Hrec as [r0 [s0 [-> Hex]]].
    destruct (shr_iter (Pos.to_nat p) m0 r0 s0 Hm0) as [Hm He].
    rewrite positive_nat_Z in Hm, He. split; [assumption|].
    intros Hlx Hmod. destruct (Hex Hlx) as [-> ->].
    destruct (He eq_refl eq_refl Hmod) as [Hr Hs].
    destruct (Nat.iter (Pos.to_nat p) shr_1 _) as [m r s]. simpl in *. now subst.
Qed.

Lemma round_nearest_even_bounds (m : Z) (l : location) :
  m <= round_nearest_even m l <= m + 1 /\
  (l = loc_Exact -> round_nearest_even m l = m).
Proof.
  destruct l as [|[]]; simpl; try (destruct (Z.even m)); split; try lia; try discriminate;
    reflexivity.
Qed.

(** *** Rounding a mantissa and an exponent

    [binary_round_aux] on a mantissa [M >= 0] at an exponent [E] not above
    its target: the mantissa is cut to [q], the quotient of [M] by the power
    of two between [E] and the target, and rounded to [q] or [q + 1], to [q]
    when nothing is lost. *)
Lemma bra_value (sx : bool) (M E : Z) (lx : location) :
  0 <= M ->
  let e' := fexp prec emax (Zdigits2 M + E) in
  E <= e' ->
  let q := M / 2 ^ (e' - E) in
  exists m2,
    q <= m2 <= q + 1 /\
    (lx = loc_Exact -> M mod 2 ^ (e' - E) = 0 -> m2 = q) /\
    ((m2 = 0 /\ binary_round_aux prec emax sx M E lx = S754_zero sx) \/
     exists m3 e3,
       Zpos m3 * 2 ^ (e3 + 1075) = m2 * 2 ^ (e' + 1075) /\
       e' <= e3 <= e' + 1 /\
       (m2 < 2 ^ 53 -> e3 = e') /\
       binary_round_aux prec emax sx M E lx =
         if e3 <=? 971 then S754_finite sx m3 e3 else S754_infinity sx).
Proof.
  intros HM e' HE q.
  assert (He' : -1074 <= e') by (unfold e'; rewrite fexp_eq; lia).
  assert (Hn : 0 <= e' - E) by lia.
  assert (Hpn : 0 < 2 ^ (e' - E)) by now apply pow2_pos.
  assert (Hq0 : 0 <= q) by (apply Z.div_pos; lia).
  assert (Hq53 : q < 2 ^ 53).
  { apply Z.div_lt_upper_bound; [lia|].
    destruct (Z.eq_dec M 0) as [->|HM0].
    - assert (0 < 2 ^ 53) by (apply pow2_pos; lia). lia.
    - assert (HMd := Zdigits2_bounds M ltac:(lia)).
      assert (Hd : Zdigits2 M <= (e' - E) + 53) by (unfold e'; rewrite fexp_eq; lia).
      assert (0 < Zdigits2 M) by (apply Zdigits2_pos; lia).
      assert (2 ^ Zdigits2 M <= 2 ^ ((e' - E) + 53)) by (apply pow2_le; lia).
      rewrite pow2_split in H0 by lia. lia. }
  unfold binary_round_aux, shr_fexp. fold e'.
  pose proof (shr_value M lx E (e' - E) HM Hn) as Hshr.
  destruct (shr (shr_record_of_loc M lx) E (e' - E)) as [mrs1 e1].
  destruct Hshr as [He1 [Hm1 Hex1]]. fold q in Hm1.
  assert (Ee1 : e1 = e') by lia. clear He1. subst e1.
  destruct (round_nearest_even_bounds (shr_m mrs1) (loc_of_shr_record mrs1)) as [Hb Hexact].
  set (m2 := round_nearest_even (shr_m mrs1) (loc_of_shr_record mrs1)) in *.
  rewrite Hm1 in Hb.
  exists m2. split; [assumption|]. split.
  { intros Hlx Hmod. rewrite (Hexact (Hex1 Hlx Hmod)). exact Hm1. }
  assert (Hcases : m2 = 0 \/ 0 < m2 < 2 ^ 53 \/ m2 = 2 ^ 53) by lia.
  destruct Hcases as [H0|[Hmid|Htop]].
  - left. split; [assumption|]. rewrite H0. simpl Zdigits2.
    assert (Hn2 : fexp prec emax (0 + e') - e' <= 0) by (rewrite fexp_eq; lia).
    unfold shr. destruct (fexp prec emax (0 + e') - e') as [|p|p]; try lia; reflexivity.
  - right.
    assert (Hd2 : Zdigits2 m2 <= 53) by (apply Zdigits2_le; lia).
    assert (Hn2 : fexp prec emax (Zdigits2 m2 + e') - e' <= 0) by (rewrite fexp_eq; lia).
    destruct m2 as [|p2|p2] eqn:Em2; try lia.
    exists p2, e'. split; [reflexivity|]. split; [lia|]. split; [reflexivity|].
    unfold shr. destruct (fexp prec emax (Zdigits2 (Zpos p2) + e') - e') as [|p|p]; try lia;
      reflexivity.
  - right. exists (Z.to_pos (2 ^ 52)), (e' + 1).
    split.
    { rewrite Htop. replace (e' + 1 + 1075) with (e' + 1075 + 1) by lia.
      rewrite pow2_succ by lia. change (Zpos (Z.to_pos (2 ^ 52))) with (2 ^ 52).
      change (2 ^ 53) with (2 * 2 ^ 52). lia. }
    split; [lia|]. split; [lia|].
    rewrite Htop. change (Zdigits2 (2 ^ 53)) with 54.
    assert (Hn2 : fexp prec emax (54 + e') - e' = 1) by (rewrite fexp_eq; lia).
    rewrite Hn2. reflexivity.
Qed.

(** The result of rounding an exact value [X = M * 2^(E + 1075)], when it
    is not infinite, is on the same side of [X] as every number [m * 2^j]
    with [m] below 2^53: no such number lies strictly between [X] and its
    rounded value. *)
Lemma bra_between (sx : bool) (M E : Z) :
  0 < M -> -1074 <= E -> E <= fexp prec emax (Zdigits2 M + E) ->
  finite (binary_round_aux prec emax sx M E loc_Exact) = true ->
  exists v,
    0 <= v /\
    ival (binary_round_aux prec emax sx M E loc_Exact) = cond_Zopp sx v /\
    forall m j, 1 <= j -> 0 < m < 2 ^ 53 ->
      (m * 2 ^ j <= M * 2 ^ (E + 1075) -> m * 2 ^ j <= v) /\
      (M * 2 ^ (E + 1075) <= m * 2 ^ j -> v <= m * 2 ^ j).
Proof.
  intros HM HE Halign Hfin.
  destruct (bra_value sx M E loc_Exact ltac:(lia) Halign) as [m2 [Hb [Hexact Hres]]].
  set (e' := fexp prec emax (Zdigits2 M + E)) in *.
  set (n := e' - E) in *. set (q := M / 2 ^ n) in *.
  assert (He' : -1074 <= e') by (unfold e'; rewrite fexp_eq; lia).
  assert (Hn : 0 <= n) by (unfold n; lia).
  set (w := 2 ^ n) in *. set (u := 2 ^ (E + 1075)).
  assert (Hw : 0 < w) by (apply pow2_pos; lia).
  assert (Hu : 0 < u) by (apply pow2_pos; lia).
  assert (Hk : 2 ^ (e' + 1075) = w * u).
  { unfold w, u. rewrite <- pow2_split by lia. f_equal. unfold n. lia. }
  assert (Hdiv : M = w * q + M mod w) by (apply Z.div_mod; lia).
  assert (Hr : 0 <= M mod w < w) by (apply Z.mod_pos_bound; lia).
  set (r := M mod w) in *.
  assert (Hq0 : 0 <= q) by (apply Z.div_pos; lia).
  exists (m2 * (w * u)). split; [nia|]. split.
  { destruct Hres as [[H0 HR]|[m3 [e3 [Hv [He3 [_ HR]]]]]].
    - rewrite HR, H0. simpl. now destruct sx.
    - rewrite HR in Hfin |- *. destruct (e3 <=? 971); [|discriminate].
      unfold ival. now rewrite Hv, Hk. }
  intros m j Hj Hm.
  assert (Hpj : 0 < 2 ^ j) by (apply pow2_pos; lia).
  destruct (Z_le_gt_dec (e' + 1075) j) as [Hjk|Hjk].
  - (* a multiple of the spacing *)
    assert (Ej : 2 ^ j = 2 ^ (j - (e' + 1075)) * (w * u)).
    { rewrite <- Hk, <- pow2_split by lia. f_equal. lia. }
    assert (Hc : 0 < 2 ^ (j - (e' + 1075))) by (apply pow2_pos; lia).
    set (c := 2 ^ (j - (e' + 1075))) in *. rewrite Ej.
    assert (Hwu : 0 < w * u) by nia.
    split.
    + intros HV. assert (m * c <= q) by nia. nia.
    + intros HV. destruct (Z.eq_dec r 0) as [Hr0|Hr0].
      * rewrite (Hexact eq_refl Hr0). nia.
      * assert (q + 1 <= m * c) by nia. nia.
  - (* below the spacing: the value rounded is normal *)
    assert (Ee' : e' = Zdigits2 M + E - 53) by (unfold e' in *; rewrite fexp_eq in *; lia).
    assert (Hd := Zdigits2_bounds M HM).
    assert (Hq52 : 2 ^ 52 <= q).
    { apply Z.div_le_lower_bound; [lia|].
      assert (E1 : Zdigits2 M - 1 = n + 52) by (unfold n; lia).
      rewrite E1, pow2_split in Hd by lia. fold w in Hd. lia. }
    assert (Hjle : 2 ^ j * 2 <= w * u).
    { rewrite <- Hk. replace (2 ^ j * 2) with (2 ^ (j + 1)) by (rewrite pow2_succ; lia).
      apply pow2_le. lia. }
    assert (H53 : 2 ^ 53 = 2 * 2 ^ 52) by reflexivity.
    assert (HVlt : m * 2 ^ j < q * (w * u)) by nia.
    split; intros HV; nia.
Qed.

(** *** Valid mantissas *)

Lemma bounded_facts (m : positive) (e : Z) :
  bounded prec emax m e = true ->
  -1074 <= e <= 971 /\ 0 < Zpos m < 2 ^ 53 /\ (-1074 < e -> 2 ^ 52 <= Zpos m).
Proof.
  unfold bounded, canonical_mantissa. intros H. apply andb_prop in H. destruct H as [Hc He].
  apply Z.eqb_eq in Hc. apply Z.leb_le in He. rewrite fexp_eq in Hc.
  change (emax - prec) with 971 in He.
  assert (Hd := digits2_bounds m).
  split; [lia|]. split.
  - split; [lia|].
    assert (2 ^ Zpos (digits2_pos m) <= 2 ^ 53) by (apply pow2_le; lia). lia.
  - intros Hn. assert (Ed : Zpos (digits2_pos m) = 53) by lia. rewrite Ed in Hd.
    exact (proj1 Hd).
Qed.

(** *** Shifting left *)

Lemma iter_xO_value (m d : positive) :
  Zpos (Pos.iter xO m d) = Zpos m * 2 ^ Zpos d /\
  Zpos (digits2_pos (Pos.iter xO m d)) = Zpos (digits2_pos m) + Zpos d.
Proof.
  induction d as [|d IH] using Pos.peano_ind.
  - simpl. split; lia.
  - rewrite Pos.iter_succ. destruct IH as [IHv IHd].
    rewrite Pos2Z.inj_succ. unfold Z.succ. rewrite pow2_succ by lia.
    split.
    + rewrite Pos2Z.inj_xO, IHv. lia.
    + simpl digits2_pos. rewrite Pos2Z.inj_succ, IHd. lia.
Qed.

Lemma shl_align_value (mx : positive) (ex ex' : Z) :
  let '(mz, ez) := shl_align mx ex ex' in
  ez = Z.min ex ex' /\
  Zpos mz = Zpos mx * 2 ^ (ex - ez) /\
  Zpos (digits2_pos mz) = Zpos (digits2_pos mx) + (ex - ez).
Proof.
  unfold shl_align. destruct (ex' - ex) as [|d|d] eqn:Ed.
  - split; [lia|]. replace (ex - ex) with 0 by lia. split; simpl; lia.
  - split; [lia|]. replace (ex - ex) with 0 by lia. split; simpl; lia.
  - split; [lia|]. replace (ex - ex') with (Zpos d) by lia. apply iter_xO_value.
Qed.

(** [binary_round] rounds the exact value [mx * 2^(ex + 1075)]. *)
Lemma binary_round_between (sx : bool) (mx : positive) (ex : Z) :
  -1074 <= ex ->
  finite (binary_round prec emax sx mx ex) = true ->
  exists v,
    0 <= v /\
    ival (binary_round prec emax sx mx ex) = cond_Zopp sx v /\
    forall m j, 1 <= j -> 0 < m < 2 ^ 53 ->
      (m * 2 ^ j <= Zpos mx * 2 ^ (ex + 1075) -> m * 2 ^ j <= v) /\
      (Zpos mx * 2 ^ (ex + 1075) <= m * 2 ^ j -> v <= m * 2 ^ j).
Proof.
  intros Hex. unfold binary_round.
  pose proof (shl_align_value mx ex (fexp prec emax (Zpos (digits2_pos mx) + ex))) as Hal.
  destruct (shl_align mx ex (fexp prec emax (Zpos (digits2_pos mx) + ex))) as [mz ez].
  destruct Hal as [Hez [Hmz Hdz]].
  assert (Hf : -1074 <= fexp prec emax (Zpos (digits2_pos mx) + ex))
    by (rewrite fexp_eq; lia).
  intros Hfin.
  assert (Halign : ez <= fexp prec emax (Zdigits2 (Zpos mz) + ez)).
  { simpl Zdigits2. rewrite Hdz.
    replace (Zpos (digits2_pos mx) + (ex - ez) + ez) with (Zpos (digits2_pos mx) + ex) by lia.
    lia. }
  destruct (bra_between sx (Zpos mz) ez ltac:(lia) ltac:(lia) Halign Hfin)
    as [v [Hv [Hval Hbetween]]].
  exists v. split; [assumption|]. split; [assumption|].
  assert (EX : Zpos mz * 2 ^ (ez + 1075) = Zpos mx * 2 ^ (ex + 1075)).
  { rewrite Hmz, <- Z.mul_assoc, <- pow2_split by lia. do 2 f_equal. lia. }
  rewrite <- EX. exact Hbetween.
Qed.

(** *** The order of the valid floats is the order of their values *)

Lemma ival_lex (m1 m2 : positive) (e1 e2 : Z) :
  bounded prec emax m1 e1 = true -> bounded prec emax m2 e2 = true ->
  e1 < e2 -> Zpos m1 * 2 ^ (e1 + 1075) < Zpos m2 * 2 ^ (e2 + 1075).
Proof.
  intros H1 H2 He.
  destruct (bounded_facts m1 e1 H1) as [He1 [Hm1 _]].
  destruct (bounded_facts m2 e2 H2) as [He2 [Hm2 Hn2]].
  specialize (Hn2 ltac:(lia)).
  assert (Hu : 0 < 2 ^ (e1 + 1075)) by (apply pow2_pos; lia).
  assert (Hle : 2 ^ (e1 + 1075 + 1) <= 2 ^ (e2 + 1075)) by (apply pow2_le; lia).
  rewrite pow2_succ in Hle by lia.
  assert (H53 : 2 ^ 53 = 2 * 2 ^ 52) by reflexivity.
  nia.
Qed.

Lemma ival_pos (m : positive) (e : Z) : -1074 <= e -> 0 < Zpos m * 2 ^ (e + 1075).
Proof. intros He. assert (0 < 2 ^ (e + 1075)) by (apply pow2_pos; lia). nia. Qed.

Lemma SFleb_ival (x y : spec_float) :
  valid_binary x = true -> valid_binary y = true ->
  finite x = true -> finite y = true ->
  SFleb x y = (ival x <=? ival y).
Proof.
  intros Vx Vy Fx Fy.
  destruct x as [sx|sx| |sx mx ex], y as [sy|sy| |sy my ey]; try discriminate.
  - reflexivity.
  - simpl in Vy. destruct (bounded_facts my ey Vy) as [He _].
    pose proof (ival_pos my ey ltac:(lia)) as Hp.
    unfold SFleb, SFcompare, ival. destruct sy; cbn [cond_Zopp]; symmetry.
    + apply Z.leb_gt. lia.
    + apply Z.leb_le. lia.
  - simpl in Vx. destruct (bounded_facts mx ex Vx) as [He _].
    pose proof (ival_pos mx ex ltac:(lia)) as Hp.
    unfold SFleb, SFcompare, ival. destruct sx; cbn [cond_Zopp]; symmetry.
    + apply Z.leb_le. lia.
    + apply Z.leb_gt. lia.
  - simpl in Vx, Vy.
    destruct (bounded_facts mx ex Vx) as [Hex _].
    destruct (bounded_facts my ey Vy) as [Hey _].
    pose proof (ival_pos mx ex ltac:(lia)) as Hpx.
    pose proof (ival_pos my ey ltac:(lia)) as Hpy.
    pose proof (ival_lex mx my ex ey Vx Vy) as Hxy.
    pose proof (ival_lex my mx ey ex Vy Vx) as Hyx.
    assert (Hu : 0 < 2 ^ (ex + 1075)) by (apply pow2_pos; lia).
    unfold SFleb, SFcompare, ival.
    change (Pos.compare_cont Eq mx my) with (Pos.compare mx my).
    destruct sx, sy; cbn [cond_Zopp]; symmetry.
    + destruct (Z.compare_spec ex ey) as [E|E|E].
      * subst ey. destruct (Pos.compare_spec mx my) as [E'|E'|E'].
        -- subst. apply Z.leb_le. lia.
        -- apply Z.leb_gt. nia.
        -- apply Z.leb_le. nia.
      * apply Z.leb_gt. specialize (Hxy E). lia.
      * apply Z.leb_le. specialize (Hyx E). lia.
    + apply Z.leb_le. lia.
    + apply Z.leb_gt. lia.
    + destruct (Z.compare_spec ex ey) as [E|E|E].
      * subst ey. destruct (Pos.compare_spec mx my) as [E'|E'|E'].
        -- subst. apply Z.leb_le. lia.
        -- apply Z.leb_le. nia.
        -- apply Z.leb_gt. nia.
      * apply Z.leb_le. specialize (Hxy E). lia.
      * apply Z.leb_gt. specialize (Hyx E). lia.
Qed.

(** *** Addition *)

Lemma finite_SFadd (a b : spec_float) :
  finite (SFadd prec emax a b) = true -> finite a = true /\ finite b = true.
Proof.
  destruct a as [sa|sa| |sa ma ea], b as [sb|sb| |sb mb eb]; simpl;
    try destruct sa; try destruct sb; simpl; split; congruence.
Qed.

(** The mantissa of a valid float aligned to a lower exponent. *)
Lemma aligned_value (m : positive) (e ez : Z) :
  -1074 <= ez <= e ->
  Zpos (fst (shl_align m e ez)) * 2 ^ (ez + 1075) = Zpos m * 2 ^ (e + 1075).
Proof.
  intros He. pose proof (shl_align_value m e ez) as H.
  destruct (shl_align m e ez) as [mz ez1]. destruct H as [Hez [Hmz _]]. simpl fst.
  assert (E1 : ez1 = ez) by lia. subst ez1.
  rewrite Hmz, <- Z.mul_assoc, <- pow2_split by lia. do 2 f_equal. lia.
Qed.

(** Twice the value of a float is a mantissa times a power of two. *)
Lemma twice_value (m : positive) (e : Z) :
  -1074 <= e -> Zpos m * 2 ^ (e + 1076) = 2 * (Zpos m * 2 ^ (e + 1075)).
Proof.
  intros He. replace (e + 1076) with (e + 1075 + 1) by lia. rewrite pow2_succ by lia. lia.
Qed.

(** The float sum of two floats, when finite, is between twice the lesser
    and twice the greater. *)
Lemma SFadd_between (a b : spec_float) :
  valid_binary a = true -> valid_binary b = true ->
  finite (SFadd prec emax a b) = true ->
  2 * Z.min (ival a) (ival b) <= ival (SFadd prec emax a b)
    <= 2 * Z.max (ival a) (ival b).
Proof.
  intros Va Vb Hfin. destruct (finite_SFadd a b Hfin) as [Fa Fb].
  destruct a as [sa|sa| |sa ma ea], b as [sb|sb| |sb mb eb]; try discriminate.
  - destruct sa, sb; simpl; lia.
  - cbn [SFadd]. change (ival (S754_zero sa)) with 0. lia.
  - cbn [SFadd]. change (ival (S754_zero sb)) with 0. lia.
  - simpl in Va, Vb.
    destruct (bounded_facts ma ea Va) as [Hea [Hma _]].
    destruct (bounded_facts mb eb Vb) as [Heb [Hmb _]].
    pose proof (ival_pos ma ea ltac:(lia)) as Hpa.
    pose proof (ival_pos mb eb ltac:(lia)) as Hpb.
    pose proof (twice_value ma ea ltac:(lia)) as Hta.
    pose proof (twice_value mb eb ltac:(lia)) as Htb.
    cbn [SFadd] in Hfin |- *. cbv zeta in Hfin |- *.
    set (ez := Z.min ea eb) in *.
    pose proof (aligned_value ma ea ez ltac:(lia)) as Ha.
    pose proof (aligned_value mb eb ez ltac:(lia)) as Hb.
    set (A := Zpos (fst (shl_align ma ea ez))) in *.
    set (B := Zpos (fst (shl_align mb eb ez))) in *.
    assert (Hu : 0 < 2 ^ (ez + 1075)) by (apply pow2_pos; lia).
    set (u := 2 ^ (ez + 1075)) in *.
    set (Pa := Zpos ma * 2 ^ (ea + 1075)) in *.
    set (Pb := Zpos mb * 2 ^ (eb + 1075)) in *.
    assert (HN : (cond_Zopp sa A + cond_Zopp sb B) * u = cond_Zopp sa Pa + cond_Zopp sb Pb).
    { destruct sa, sb; cbn [cond_Zopp]; lia. }
    change (ival (S754_finite sa ma ea)) with (cond_Zopp sa Pa).
    change (ival (S754_finite sb mb eb)) with (cond_Zopp sb Pb).
    destruct (cond_Zopp sa A + cond_Zopp sb B) as [|p|p] eqn:EN;
      cbn [binary_normalize] in Hfin |- *.
    + cbn [ival]. destruct sa, sb; cbn [cond_Zopp] in *; lia.
    + destruct (binary_round_between false p ez ltac:(lia) Hfin) as [v [Hv [-> Hbet]]].
      destruct (Hbet (Zpos ma) (ea + 1076) ltac:(lia) Hma) as [Ha1 Ha2].
      destruct (Hbet (Zpos mb) (eb + 1076) ltac:(lia) Hmb) as [Hb1 Hb2].
      fold u in Ha1, Ha2, Hb1, Hb2. rewrite Hta in Ha1, Ha2. rewrite Htb in Hb1, Hb2.
      fold Pa in Ha1, Ha2. fold Pb in Hb1, Hb2.
      destruct sa, sb; cbn [cond_Zopp] in *; lia.
    + destruct (binary_round_between true p ez ltac:(lia) Hfin) as [v [Hv [-> Hbet]]].
      destruct (Hbet (Zpos ma) (ea + 1076) ltac:(lia) Hma) as [Ha1 Ha2].
      destruct (Hbet (Zpos mb) (eb + 1076) ltac:(lia) Hmb) as [Hb1 Hb2].
      fold u in Ha1, Ha2, Hb1, Hb2. rewrite Hta in Ha1, Ha2. rewrite Htb in Hb1, Hb2.
      fold Pa in Ha1, Ha2. fold Pb in Hb1, Hb2.
      destruct sa, sb; cbn [cond_Zopp] in *; lia.
Qed.

(** *** Division by 1 and by 2 *)

Lemma div_eucl_pair (a b : Z) : Z.div_eucl a b = (a / b, a mod b).
Proof. unfold Z.div, Z.modulo. now destruct (Z.div_eucl a b). Qed.

(** The quotient [SFdiv] hands to the rounding, for a valid dividend and
    the divisor 2^t, [t] being 0 or 1: it is exact, but for the least
    exponent divided by 2, where the last bit of the mantissa is left as a
    remainder of one half. *)
Lemma div_core_pow2 (ms : positive) (es t : Z) :
  bounded prec emax ms es = true -> t = 0 \/ t = 1 ->
  let '(M, E, lz) :=
    SFdiv_core_binary prec emax (Zpos ms) es 4503599627370496 (t - 52) in
  -1074 <= E /\
  ((lz = loc_Exact /\ E <= es - t <= E + 1 /\
    M = Zpos ms * 2 ^ (es - t - E) /\
    Zdigits2 M = Zpos (digits2_pos ms) + (es - t - E)) \/
   (t = 1 /\ es = -1074 /\ E = -1074 /\
    ((Zpos ms = 2 * M /\ lz = loc_Exact) \/
     (Zpos ms = 2 * M + 1 /\ lz = loc_Inexact Eq)))).
Proof.
  intros Hb Ht.
  assert (Hcan : Z.max (Zpos (digits2_pos ms) + es - 53) (-1074) = es /\ es <= 971).
  { unfold bounded, canonical_mantissa in Hb. apply andb_prop in Hb.
    destruct Hb as [Hc He]. apply Z.eqb_eq in Hc. apply Z.leb_le in He.
    rewrite fexp_eq in Hc. change (emax - prec) with 971 in He. split; assumption. }
  destruct Hcan as [Hcan Hes].
  unfold SFdiv_core_binary.
  change (Zdigits2 4503599627370496) with 53. cbn [Zdigits2].
  set (d1 := Zpos (digits2_pos ms)) in *.
  assert (Hd1 : 1 <= d1) by (unfold d1; lia).
  set (e' := Z.min (fexp prec emax (d1 + es - (53 + (t - 52)))) (es - (t - 52))).
  assert (He' : e' = Z.max (d1 + es - 54 - t) (-1074)) by (unfold e'; rewrite fexp_eq; lia).
  set (sh := es - (t - 52) - e').
  assert (Hsh : sh = 53 \/ sh = 52 \/ (sh = 51 /\ t = 1 /\ es = -1074)) by lia.
  assert (Hm' : match sh with
                | 0 => Zpos ms
                | Zpos _ => Z.shiftl (Zpos ms) sh
                | Zneg _ => 0
                end = Zpos ms * 2 ^ sh).
  { destruct sh as [|p|p] eqn:Esh; try lia. rewrite Z.shiftl_mul_pow2 by lia. reflexivity. }
  rewrite Hm', div_eucl_pair.
  split; [lia|].
  destruct Hsh as [E53|[E52|[E51 [Et Ees]]]].
  - left. rewrite E53.
    assert (Hq : Zpos ms * 2 ^ 53 = (2 * Zpos ms) * 4503599627370496) by lia.
    rewrite Hq, Z.div_mul, Z.mod_mul by lia.
    split; [reflexivity|]. split; [lia|].
    replace (es - t - e') with 1 by lia. split; [lia|]. simpl. unfold d1. lia.
  - left. rewrite E52.
    change (2 ^ 52) with 4503599627370496. rewrite Z.div_mul, Z.mod_mul by lia.
    split; [reflexivity|]. split; [lia|].
    replace (es - t - e') with 0 by lia. split; [lia|]. simpl. unfold d1. lia.
  - right. split; [assumption|]. split; [assumption|]. split; [lia|].
    rewrite E51.
    change 4503599627370496 with (2 * 2 ^ 51).
    rewrite Z.div_mul_cancel_r by lia.
    rewrite Z.mul_mod_distr_r by lia.
    pose proof (Z.div_mod (Zpos ms) 2 ltac:(lia)) as Hdm.
    pose proof (Z.mod_pos_bound (Zpos ms) 2 ltac:(lia)) as Hmb.
    assert (Hpar : Zpos ms mod 2 = 0 \/ Zpos ms mod 2 = 1) by lia.
    destruct Hpar as [Hp|Hp]; rewrite Hp in *.
    + left. split; [lia | reflexivity].
    + right. split; [lia | reflexivity].
Qed.

(** The float quotient of a valid float by 2^t, [t] being 0 or 1, is
    finite, and on the same side of the exact quotient as every number
    [m * 2^j] with [m] below 2^53. *)
Lemma SFdiv_pow2_between (ss : bool) (ms : positive) (es t : Z) :
  bounded prec emax ms es = true -> t = 0 \/ t = 1 ->
  finite (SFdiv prec emax (S754_finite ss ms es)
            (S754_finite false 4503599627370496 (t - 52))) = true /\
  exists v,
    0 <= v /\
    ival (SFdiv prec emax (S754_finite ss ms es)
            (S754_finite false 4503599627370496 (t - 52))) = cond_Zopp ss v /\
    forall m j, 1 <= j -> 0 < m < 2 ^ 53 ->
      (2 ^ t * (m * 2 ^ j) <= Zpos ms * 2 ^ (es + 1075) -> m * 2 ^ j <= v) /\
      (Zpos ms * 2 ^ (es + 1075) <= 2 ^ t * (m * 2 ^ j) -> v <= m * 2 ^ j).
Proof.
  intros Hb Ht. cbn [SFdiv]. rewrite xorb_false_r.
  pose proof (div_core_pow2 ms es t Hb Ht) as Hcore.
  destruct (SFdiv_core_binary prec emax (Zpos ms) es 4503599627370496 (t - 52))
    as [[M E] lz].
  destruct Hcore as [HE Hcore].
  destruct (bounded_facts ms es Hb) as [Hes [Hms _]].
  assert (Hcan : Z.max (Zpos (digits2_pos ms) + es - 53) (-1074) = es).
  { unfold bounded, canonical_mantissa in Hb. apply andb_prop in Hb.
    destruct Hb as [Hc _]. apply Z.eqb_eq in Hc. now rewrite fexp_eq in Hc. }
  destruct Hcore as [[-> [Hk [HM HdM]]]|[-> [-> [-> Hpar]]]].
  - (* the quotient is exact *)
    set (k := es - t - E) in *.
    assert (Hpk : 0 < 2 ^ k) by (apply pow2_pos; lia).
    assert (HM0 : 0 < M) by nia.
    assert (Hal : E <= fexp prec emax (Zdigits2 M + E)) by (rewrite fexp_eq, HdM; lia).
    assert (Hfin : finite (binary_round_aux prec emax ss M E loc_Exact) = true).
    { destruct (bra_value ss M E loc_Exact ltac:(lia) Hal)
        as [m2 [Hm2 [Hexact [[_ ->]|[m3 [e3 [_ [He3 [Hno ->]]]]]]]]]; [reflexivity|].
      assert (He3' : e3 <= 971).
      { rewrite fexp_eq, HdM in He3, Hno, Hexact, Hm2.
        destruct Ht as [->| ->]; [|lia].
        assert (En : Z.max (Zpos (digits2_pos ms) + k + E - 53) (-1074) - E = k)
          by (unfold k in *; lia).
        rewrite En in Hexact, Hm2.
        assert (Hm2q : m2 = Zpos ms).
        { rewrite (Hexact eq_refl); rewrite HM.
          - now rewrite Z.div_mul by lia.
          - now rewrite Z.mod_mul by lia. }
        rewrite Hno by lia. unfold k in *. lia. }
      apply Z.leb_le in He3'. now rewrite He3'. }
    split; [assumption|].
    destruct (bra_between ss M E HM0 HE Hal Hfin) as [v [Hv [Hval Hbet]]].
    exists v. split; [assumption|]. split; [assumption|].
    intros m j Hj Hm. destruct (Hbet m j Hj Hm) as [H1 H2].
    assert (EX : 2 ^ t * (M * 2 ^ (E + 1075)) = Zpos ms * 2 ^ (es + 1075)).
    { rewrite HM. rewrite <- Z.mul_assoc, <- pow2_split by lia.
      rewrite (Z.mul_comm (2 ^ t)), <- Z.mul_assoc, <- pow2_split by lia.
      do 2 f_equal. unfold k. lia. }
    assert (Hpt : 0 < 2 ^ t) by (apply pow2_pos; lia).
    rewrite <- EX. split; intros HV; [apply H1 | apply H2]; nia.
  - (* the least exponent, divided by 2 *)
    assert (HM0 : 0 <= M) by lia.
    assert (HM52 : M < 2 ^ 52) by (change (2 ^ 53) with (2 * 2 ^ 52) in Hms; lia).
    assert (HdM : Zdigits2 M <= 52) by (apply Zdigits2_le; lia).
    assert (Hal : -1074 <= fexp prec emax (Zdigits2 M + -1074)) by (rewrite fexp_eq; lia).
    destruct (bra_value ss M (-1074) lz HM0 Hal)
      as [m2 [Hm2 [Hexact Hres]]].
    assert (Eb : fexp prec emax (Zdigits2 M + -1074) = -1074) by (rewrite fexp_eq; lia).
    rewrite Eb in Hm2, Hexact, Hres.
    change (2 ^ (-1074 - -1074)) with 1 in Hm2, Hexact.
    rewrite Z.div_1_r in Hm2, Hexact. rewrite Z.mod_1_r in Hexact.
    change (2 ^ (-1074 + 1075)) with 2 in Hres |- *.
    assert (Hr : finite (binary_round_aux prec emax ss M (-1074) lz) = true /\
                 ival (binary_round_aux prec emax ss M (-1074) lz) = cond_Zopp ss (2 * m2)).
    { destruct Hres as [[H0 ->]|[m3 [e3 [Hv [He3 [_ ->]]]]]].
      - split; [reflexivity|]. rewrite H0. simpl. now destruct ss.
      - assert (He3' : (e3 <=? 971) = true) by (apply Z.leb_le; lia).
        rewrite He3'. split; [reflexivity|]. unfold ival. rewrite Hv. f_equal. lia. }
    destruct Hr as [Hfin Hval]. split; [assumption|].
    exists (2 * m2). split; [lia|]. split; [assumption|].
    intros m j Hj Hm.
    assert (Ej : m * 2 ^ j = 2 * (m * 2 ^ (j - 1))).
    { replace j with (j - 1 + 1) at 1 by lia. rewrite pow2_succ by lia. lia. }
    assert (Hc : 0 < 2 ^ (j - 1)) by (apply pow2_pos; lia).
    rewrite Ej. change (2 ^ 1) with 2.
    destruct Hpar as [[Hms2 Hlz]|[Hms2 Hlz]].
    + rewrite (Hexact Hlz eq_refl). split; intros HV; lia.
    + split; intros HV; lia.
Qed.

Lemma two_pow (t : Z) : t = 0 \/ t = 1 -> 2 ^ t = 1 + t.
Proof. intros [->| ->]; reflexivity. Qed.

(** The float quotient of a valid finite float [x] by 2^t is finite and on
    the same side of the exact quotient as every valid finite float. *)
Lemma SFdiv_between (x c : spec_float) (t : Z) :
  t = 0 \/ t = 1 ->
  valid_binary x = true -> finite x = true ->
  valid_binary c = true -> finite c = true ->
  let R := SFdiv prec emax x (S754_finite false 4503599627370496 (t - 52)) in
  finite R = true /\
  ((1 + t) * ival c <= ival x -> ival c <= ival R) /\
  (ival x <= (1 + t) * ival c -> ival R <= ival c).
Proof.
  intros Ht Vx Fx Vc Fc. cbv zeta.
  destruct x as [sx|sx| |sx mx ex]; try discriminate.
  - cbn [SFdiv]. split; [reflexivity|]. change (ival (S754_zero sx)) with 0.
    change (ival (S754_zero (xorb sx false))) with 0. destruct Ht as [->| ->]; lia.
  - simpl in Vx.
    destruct (SFdiv_pow2_between sx mx ex t Vx Ht) as [Hfin [v [Hv [Hval Hbet]]]].
    split; [assumption|]. rewrite Hval.
    destruct (bounded_facts mx ex Vx) as [Hex _].
    pose proof (ival_pos mx ex ltac:(lia)) as Hpx.
    change (ival (S754_finite sx mx ex)) with (cond_Zopp sx (Zpos mx * 2 ^ (ex + 1075))).
    set (P := Zpos mx * 2 ^ (ex + 1075)) in *.
    rewrite (two_pow t Ht) in Hbet.
    destruct c as [sc|sc| |sc mc ec]; try discriminate.
    + change (ival (S754_zero sc)) with 0. destruct sx; cbn [cond_Zopp]; lia.
    + simpl in Vc. destruct (bounded_facts mc ec Vc) as [Hec [Hmc _]].
      pose proof (ival_pos mc ec ltac:(lia)) as Hpc.
      destruct (Hbet (Zpos mc) (ec + 1075) ltac:(lia) Hmc) as [H1 H2].
      change (ival (S754_finite sc mc ec)) with (cond_Zopp sc (Zpos mc * 2 ^ (ec + 1075))).
      set (Pc := Zpos mc * 2 ^ (ec + 1075)) in *.
      destruct sx, sc; cbn [cond_Zopp]; nia.
Qed.

(** Half the float sum of two valid floats, when the sum is finite, is
    finite and between the two. *)
Lemma SF_mean2 (a b : spec_float) :
  valid_binary a = true -> valid_binary b = true ->
  valid_binary (SFadd prec emax a b) = true ->
  finite (SFadd prec emax a b) = true ->
  let R := SFdiv prec emax (SFadd prec emax a b) (S754_finite false 4503599627370496 (-51)) in
  finite R = true /\
  Z.min (ival a) (ival b) <= ival R <= Z.max (ival a) (ival b).
Proof.
  intros Va Vb Vs Fs. cbv zeta.
  destruct (finite_SFadd a b Fs) as [Fa Fb].
  pose proof (SFadd_between a b Va Vb Fs) as Hs.
  destruct (SFdiv_between (SFadd prec emax a b) a 1 ltac:(now right) Vs Fs Va Fa)
    as [Hfin [Ha1 Ha2]].
  destruct (SFdiv_between (SFadd prec emax a b) b 1 ltac:(now right) Vs Fs Vb Fb)
    as [_ [Hb1 Hb2]].
  change (1 - 52) with (-51) in *.
  split; [assumption|]. lia.
Qed.

(** *** On primitive floats *)

Lemma is_finite_spec (x : float) : is_finite x = finite (Prim2SF x).
Proof.
  unfold is_finite, is_nan, is_infinity. rewrite !eqb_spec, abs_spec.
  change (Prim2SF infinity) with (S754_infinity false).
  destruct (Prim2SF x) as [s|s| |s m e]; try destruct s; try reflexivity.
  - unfold SFeqb, SFcompare, SFabs. rewrite Z.compare_refl.
    change (Pos.compare_cont Eq m m) with (Pos.compare m m). rewrite Pos.compare_refl.
    reflexivity.
  - unfold SFeqb, SFcompare, SFabs. rewrite Z.compare_refl.
    change (Pos.compare_cont Eq m m) with (Pos.compare m m). rewrite Pos.compare_refl.
    reflexivity.
Qed.

(** On finite floats, [<=] is the order of the values. *)
Lemma leb_fval (x y : float) :
  is_finite x = true -> is_finite y = true -> (x <=? y)%float = (fval x <=? fval y).
Proof.
  rewrite !is_finite_spec, leb_spec. intros Fx Fy. unfold fval.
  apply SFleb_ival; try assumption; apply Prim2SF_valid.
Qed.

Lemma is_finite_add (a b : float) :
  is_finite (a + b)%float = true -> is_finite a = true /\ is_finite b = true.
Proof. rewrite !is_finite_spec, add_spec. apply finite_SFadd. Qed.

(** [(a + b) / 2], when [a + b] is finite, is finite and between [a] and
    [b]. *)
Lemma fval_mean2 (a b : float) :
  is_finite (a + b)%float = true ->
  is_finite ((a + b) / 2)%float = true /\
  Z.min (fval a) (fval b) <= fval ((a + b) / 2)%float <= Z.max (fval a) (fval b).
Proof.
  intros Hfin. pose proof Hfin as Fs. rewrite is_finite_spec, add_spec in Fs.
  rewrite is_finite_spec. unfold fval. rewrite div_spec, add_spec.
  change (Prim2SF 2) with (S754_finite false 4503599627370496 (-51)).
  apply SF_mean2; try apply Prim2SF_valid; [|assumption].
  unfold SF64add in *. rewrite <- add_spec. apply Prim2SF_valid.
Qed.

(** [x / 1] has the value of [x]. *)
Lemma fval_div1 (x : float) :
  is_finite x = true ->
  is_finite (x / 1)%float = true /\ fval (x / 1)%float = fval x.
Proof.
  intros Hfin. rewrite is_finite_spec in *. unfold fval. rewrite div_spec.
  change (Prim2SF 1) with (S754_finite false 4503599627370496 (0 - 52)).
  destruct (SFdiv_between (Prim2SF x) (Prim2SF x) 0 ltac:(now left)
              (Prim2SF_valid x) Hfin (Prim2SF_valid x) Hfin) as [Hf [H1 H2]].
  split; [exact Hf|]. unfold SF64div. lia.
Qed.

(** [0 + x] has the value of [x]. *)
Lemma fval_add0 (x : float) :
  is_finite (0 + x)%float = is_finite x /\ fval (0 + x)%float = fval x.
Proof.
  rewrite !is_finite_spec. unfold fval. rewrite add_spec.
  change (Prim2SF 0) with (S754_zero false).
  destruct (Prim2SF x) as [s|s| |s m e]; try destruct s; split; reflexivity.
Qed.

End Rounding.

(** ** The order of floats and the bounds of a summary *)

Section FloatOrder.

Ltac cmp_cases :=
  repeat match goal with
         | |- context [Z.compare ?x ?y] => destruct (Z.compare_spec x y)
         | H : context [Z.compare ?x ?y] |- _ => destruct (Z.compare_spec x y)
         | |- context [Pos.compare_cont Eq ?x ?y] =>
             change (Pos.compare_cont Eq x y) with (Pos.compare x y);
             destruct (Pos.compare_spec x y)
         | H : context [Pos.compare_cont Eq ?x ?y] |- _ =>
             change (Pos.compare_cont Eq x y) with (Pos.compare x y) in H;
             destruct (Pos.compare_spec x y)
         end.

Lemma SFleb_trans (a b c : spec_float) :
  SFleb a b = true -> SFleb b c = true -> SFleb a c = true.
Proof.
  unfold SFleb, SFcompare.
  destruct a as [sa|sa| |sa ma ea], b as [sb|sb| |sb mb eb], c as [sc|sc| |sc mc ec];
    try destruct sa; try destruct sb; try destruct sc; simpl; try congruence;
    intros Hab Hbc; cmp_cases; subst; simpl in *; try congruence; try lia.
Qed.

Lemma SFleb_total (a b : spec_float) :
  a <> S754_nan -> b <> S754_nan -> SFltb b a = false -> SFleb a b = true.
Proof.
  unfold SFleb, SFltb, SFcompare.
  destruct a as [sa|sa| |sa ma ea], b as [sb|sb| |sb mb eb];
    try destruct sa; try destruct sb; simpl; try congruence;
    intros _ _ H; cmp_cases; subst; simpl in *; try congruence; try lia.
Qed.

Lemma SFltb_leb (a b : spec_float) : SFltb a b = true -> SFleb a b = true.
Proof.
  unfold SFleb, SFltb. destruct (SFcompare a b) as [[]|]; congruence.
Qed.

Lemma SFleb_refl (a : spec_float) : a <> S754_nan -> SFleb a a = true.
Proof.
  unfold SFleb, SFcompare.
  destruct a as [sa|sa| |sa ma ea]; try destruct sa; simpl; try congruence;
    intros _; rewrite Z.compare_refl;
    change (Pos.compare_cont Eq ma ma) with (Pos.compare ma ma);
    rewrite Pos.compare_refl; reflexivity.
Qed.

Lemma not_nan_spec (x : float) : not_nan x -> Prim2SF x <> S754_nan.
Proof.
  unfold not_nan. rewrite eqb_spec. intros H E. rewrite E in H. discriminate.
Qed.

Lemma fle_trans (x y z : float) : fle x y -> fle y z -> fle x z.
Proof. unfold fle. rewrite !leb_spec. apply SFleb_trans. Qed.

Lemma fle_total (x y : float) :
  not_nan x -> not_nan y -> (y <? x) = false -> fle x y.
Proof.
  unfold fle. rewrite leb_spec, ltb_spec. intros Hx Hy.
  apply SFleb_total; now apply not_nan_spec.
Qed.

Lemma ltb_fle (x y : float) : (x <? y) = true -> fle x y.
Proof. unfold fle. rewrite leb_spec, ltb_spec. apply SFltb_leb. Qed.

Lemma fle_refl (x : float) : not_nan x -> fle x x.
Proof.
  unfold fle. rewrite leb_spec. intros H. now apply SFleb_refl, not_nan_spec.
Qed.

End FloatOrder.

Section Bounds.

(** [min]: the value kept is an item and is below every item. *)
Lemma min_fold (rest : list float) :
  forall x,
    not_nan x -> Forall not_nan rest ->
    let m := fold_left (fun m item => if item <? m then item else m) rest x in
    In m (x :: rest) /\ fle m x /\ Forall (fle m) rest.
Proof.
  induction rest as [|item rest IH]; intros x Hx Hrest; simpl.
  - split; [now left|]. split; [now apply fle_refl | constructor].
  - inversion Hrest as [|? ? Hitem Hrest']; subst.
    destruct (item <? x) eqn:E.
    + destruct (IH item Hitem Hrest') as [Hin [Hle Hall]]. cbv zeta in *.
      split; [simpl in Hin; tauto|].
      split; [eapply fle_trans; [exact Hle | now apply ltb_fle]|].
      constructor; assumption.
    + destruct (IH x Hx Hrest') as [Hin [Hle Hall]]. cbv zeta in *.
      split; [simpl in Hin; simpl; tauto|].
      split; [assumption|].
      constructor; [|assumption].
      eapply fle_trans; [exact Hle | now apply fle_total].
Qed.

(** [max]: the value kept is an item and is above every item. *)
Lemma max_fold (rest : list float) :
  forall x,
    not_nan x -> Forall not_nan rest ->
    let m := fold_left (fun m item => if m <? item then item else m) rest x in
    In m (x :: rest) /\ fle x m /\ Forall (fun y => fle y m) rest.
Proof.
  induction rest as [|item rest IH]; intros x Hx Hrest; simpl.
  - split; [now left|]. split; [now apply fle_refl | constructor].
  - inversion Hrest as [|? ? Hitem Hrest']; subst.
    destruct (x <? item) eqn:E.
    + destruct (IH item Hitem Hrest') as [Hin [Hle Hall]]. cbv zeta in *.
      split; [simpl in Hin; tauto|].
      split; [apply (fle_trans x item); [apply ltb_fle, E | exact Hle]|].
      constructor; assumption.
    + destruct (IH x Hx Hrest') as [Hin [Hle Hall]]. cbv zeta in *.
      split; [simpl in Hin; simpl; tauto|].
      split; [assumption|].
      constructor; [|assumption].
      apply (fle_trans item x); [now apply fle_total | exact Hle].
Qed.

Lemma insert_perm (x : float) (l : list float) :
  Permutation (PyNum.insert x l) (x :: l).
Proof.
  induction l as [|y l IH]; simpl; [reflexivity|].
  destruct (y <? x); [|reflexivity].
  rewrite IH. apply perm_swap.
Qed.

Lemma sorted_perm (l : list float) : Permutation (PyNum.sorted l) l.
Proof.
  induction l as [|x l IH]; simpl; [reflexivity|].
  rewrite insert_perm. now constructor.
Qed.

Lemma insert_sorted (x : float) (l : list float) :
  not_nan x -> Forall not_nan l ->
  StronglySorted fle l -> StronglySorted fle (PyNum.insert x l).
Proof.
  intros Hx. induction l as [|y l IH]; intros Hl Hs; simpl.
  - repeat constructor.
  - inversion Hl as [|? ? Hy Hl']; subst. inversion Hs as [|? ? Hs' Hall]; subst.
    destruct (y <? x) eqn:E.
    + constructor; [now apply IH|].
      apply Forall_forall. intros z Hz.
      apply (Permutation_in _ (insert_perm x l)) in Hz. destruct Hz as [<-|Hz].
      * now apply ltb_fle.
      * rewrite Forall_forall in Hall. now apply Hall.
    + assert (Hxy : fle x y) by now apply fle_total.
      constructor; [assumption|]. constructor; [assumption|].
      eapply Forall_impl; [|exact Hall]. intros z Hz. now apply (fle_trans x y z).
Qed.

Lemma sorted_sorted (l : list float) :
  Forall not_nan l -> StronglySorted fle (PyNum.sorted l).
Proof.
  induction l as [|x l IH]; intros Hl; simpl; [constructor|].
  inversion Hl; subst. apply insert_sorted; [assumption | | now apply IH].
  apply Forall_forall. intros z Hz.
  apply (Permutation_in _ (sorted_perm l)) in Hz.
  rewrite Forall_forall in H2. now apply H2.
Qed.

Lemma sorted_nth (l : list float) :
  StronglySorted fle l ->
  forall i j, (i < j)%nat -> (j < List.length l)%nat -> fle (nth i l 0) (nth j l 0).
Proof.
  induction 1 as [|x l Hs IH Hall]; intros i j Hij Hj; simpl in Hj; [lia|].
  destruct j as [|j]; [lia|]. destruct i as [|i]; simpl.
  - rewrite Forall_forall in Hall. apply Hall, nth_In. lia.
  - apply IH; lia.
Qed.

(** [statistics.median] on an odd number of items is one of them; on an
    even number it is the float [(a + b) / 2] of two of them, [a <= b]. *)
Lemma median_cases (x : float) (l : list float) :
  Forall not_nan (x :: l) ->
  exists m,
    PyNum.median (x :: l) = Ok m /\
    (Nat.odd (List.length (x :: l)) = true -> In m (x :: l)) /\
    (Nat.odd (List.length (x :: l)) = false ->
     exists a b, In a (x :: l) /\ In b (x :: l) /\ fle a b /\ m = (a + b) / 2).
Proof.
  intros Hnan. unfold PyNum.median.
  pose proof (sorted_length (x :: l)) as Hlen.
  pose proof (sorted_perm (x :: l)) as Hperm.
  pose proof (sorted_sorted (x :: l) Hnan) as Hs.
  set (data := PyNum.sorted (x :: l)) in *.
  rewrite Hlen. set (n := List.length (x :: l)) in *.
  assert (Hn : (0 < n)%nat) by (unfold n; simpl; lia).
  assert (Hn0 : Nat.eqb n 0 = false) by (apply Nat.eqb_neq; lia).
  rewrite Hn0.
  assert (Hhalf : (n / 2 < n)%nat) by (apply Nat.div_lt; lia).
  destruct (Nat.odd n) eqn:Hodd.
  - eexists. split; [reflexivity|]. split; [|discriminate]. intros _.
    apply (Permutation_in _ Hperm). apply nth_In. lia.
  - eexists. split; [reflexivity|]. split; [discriminate|]. intros _.
    assert (H2 : (2 <= n)%nat).
    { destruct n as [|[|n']]; [lia | discriminate | lia]. }
    assert (Hpos : (0 < n / 2)%nat) by (apply Nat.div_str_pos; lia).
    exists (nth (n / 2 - 1) data 0), (nth (n / 2) data 0).
    split; [apply (Permutation_in _ Hperm), nth_In; lia|].
    split; [apply (Permutation_in _ Hperm), nth_In; lia|].
    split; [|reflexivity].
    apply sorted_nth; [assumption | lia | lia].
Qed.

(** [(a + b) / 2] for [a <= b], when [a + b] is finite, is between [a] and
    [b]. *)
Lemma mean2_ordered (a b : float) :
  fle a b -> is_finite (a + b) = true ->
  fle a ((a + b) / 2) /\ fle ((a + b) / 2) b.
Proof.
  unfold fle. intros Hab Hfin.
  destruct (is_finite_add a b Hfin) as [Fa Fb].
  destruct (fval_mean2 a b Hfin) as [Fm Hm].
  rewrite leb_fval in Hab by assumption. apply Z.leb_le in Hab.
  rewrite !leb_fval by assumption. split; apply Z.leb_le; lia.
Qed.

(** The average of one sample is the sample. *)
Lemma avg_one (x : float) :
  is_finite (0 + x) = true ->
  fle x ((0 + x) / 1) /\ fle ((0 + x) / 1) x.
Proof.
  unfold fle. intros Hfin.
  destruct (fval_add0 x) as [Fx Vx]. rewrite Hfin in Fx. symmetry in Fx.
  destruct (fval_div1 (0 + x) Hfin) as [Fd Vd].
  rewrite !leb_fval by assumption. split; apply Z.leb_le; lia.
Qed.

(** The average of two samples, when their sum is finite, is between
    them. *)
Lemma avg_two (x y mn mx : float) :
  is_finite ((0 + x) + y) = true ->
  mn = x \/ mn = y -> fle mn x -> fle mn y ->
  mx = x \/ mx = y -> fle x mx -> fle y mx ->
  fle mn (((0 + x) + y) / 2) /\ fle (((0 + x) + y) / 2) mx.
Proof.
  unfold fle. intros Hfin Hmn Hmnx Hmny Hmx Hxmx Hymx.
  destruct (is_finite_add (0 + x) y Hfin) as [F0 Fy].
  destruct (fval_add0 x) as [Fx Vx]. rewrite F0 in Fx. symmetry in Fx.
  destruct (fval_mean2 (0 + x) y Hfin) as [Fm Hm]. rewrite Vx in Hm.
  assert (Fmn : is_finite mn = true) by (destruct Hmn; now subst).
  assert (Fmx : is_finite mx = true) by (destruct Hmx; now subst).
  rewrite leb_fval in Hmnx, Hmny, Hxmx, Hymx by assumption.
  apply Z.leb_le in Hmnx, Hmny, Hxmx, Hymx.
  rewrite !leb_fval by assumption. split; apply Z.leb_le; lia.
Qed.

End Bounds.

(** C2, as stated, fails in binary64 arithmetic.  Three samples of 0.1 have
    the sum 0.30000000000000004 and the average 0.10000000000000002, above
    their max 0.1, in a ping run and in a hop alike, under the compensated
    summation too; the two samples 1e308 and 1.7e308 have an infinite sum
    and so an infinite median, above their max; and a sample that is NaN,
    which [float()] reads from "nan", is the min, the med and the max of its
    run, of which none is [<=] another. *)
Lemma summary_bounds_fail :
  (exists stats,
      Pingstats.parse_ping_output three_replies = Ok (Some stats) /\
      Pingstats.ping_latencies three_replies = [0.1; 0.1; 0.1] /\
      Pingstats.max stats = 0.1 /\
      Pingstats.avg stats = 0.10000000000000002 /\
      (Pingstats.avg stats <=? Pingstats.max stats) = false) /\
  (exists h,
      Trstats.parse_traceroute_output three_probes = Ok [h] /\
      Trstats.max h = 0.1 /\
      Trstats.avg h = 0.10000000000000002 /\
      (Trstats.avg h <=? Trstats.max h) = false) /\
  (exists stats,
      Pingstats.stats_record [1e308; 1.7e308] = Ok stats /\
      Pingstats.max stats = 1.7e308 /\
      Pingstats.med stats = infinity /\
      (Pingstats.med stats <=? Pingstats.max stats) = false) /\
  PyNum.truediv (PyNum.sum_compensated [0.1; 0.1; 0.1]) 3 = Ok 0.10000000000000002 /\
  (exists stats,
      Pingstats.parse_ping_output nan_reply = Ok (Some stats) /\
      (Pingstats.min stats =? Pingstats.min stats) = false /\
      (Pingstats.min stats <=? Pingstats.med stats) = false /\
      (Pingstats.med stats <=? Pingstats.max stats) = false /\
      (Pingstats.min stats <=? Pingstats.max stats) = false).
Proof.
  split; [|split; [|split; [|split]]].
  - eexists. split; [vm_compute; reflexivity|]. repeat split; vm_compute; reflexivity.
  - eexists. split; [vm_compute; reflexivity|]. repeat split; vm_compute; reflexivity.
  - eexists. split; [vm_compute; reflexivity|]. repeat split; vm_compute; reflexivity.
  - vm_compute. reflexivity.
  - eexists. split; [vm_compute; reflexivity|]. repeat split; vm_compute; reflexivity.
Qed.

(** C2, amended: for every list S of samples that is not empty the summary
    is computed without exception, by both parsers alike, and avg(S) is the
    float sum(S) / len(S).  When S holds no NaN: min(S) and max(S) are
    samples with min(S) <= x <= max(S) for every sample x, so min(S) <=
    max(S); when S has an odd number of samples, med(S) is a sample, so
    min(S) <= med(S) <= max(S); when it has an even number, med(S) is the
    float (a + b) / 2 of two samples a <= b, and min(S) <= med(S) <= max(S)
    whenever the float a + b is finite; and min(S) <= avg(S) <= max(S) when
    S has one or two samples and the float sum(S) is finite.  (With three
    samples or more the rounded avg may leave the interval, and so does med
    when a + b overflows.) *)
Theorem summary_bounds (S : list float) :
  S <> [] ->
  exists stats,
    Pingstats.stats_record S = Ok stats /\
    (forall n hosts,
        Trstats.hop_record n hosts S =
          Ok (Trstats.mkHop (Pingstats.avg stats) n hosts (Pingstats.max stats)
                (Pingstats.med stats) (Pingstats.min stats))) /\
    Pingstats.avg stats = PyNum.sum S / PyNum.float_of_Z (PyNum.len S) /\
    (Forall not_nan S ->
     In (Pingstats.min stats) S /\ In (Pingstats.max stats) S /\
     (forall x, In x S -> fle (Pingstats.min stats) x /\ fle x (Pingstats.max stats)) /\
     fle (Pingstats.min stats) (Pingstats.max stats) /\
     (Nat.odd (List.length S) = true ->
      In (Pingstats.med stats) S /\
      fle (Pingstats.min stats) (Pingstats.med stats) /\
      fle (Pingstats.med stats) (Pingstats.max stats)) /\
     (Nat.odd (List.length S) = false ->
      exists a b,
        In a S /\ In b S /\ fle a b /\ Pingstats.med stats = (a + b) / 2 /\
        (is_finite (a + b) = true ->
         fle (Pingstats.min stats) (Pingstats.med stats) /\
         fle (Pingstats.med stats) (Pingstats.max stats))) /\
     ((List.length S <= 2)%nat -> is_finite (PyNum.sum S) = true ->
      fle (Pingstats.min stats) (Pingstats.avg stats) /\
      fle (Pingstats.avg stats) (Pingstats.max stats))).
Proof.
  intros Hne. destruct S as [|x l]; [congruence|].
  destruct (median_ok x l) as [md Hmd].
  set (mn := fold_left (fun m item => if item <? m then item else m) l x).
  set (mx := fold_left (fun m item => if m <? item then item else m) l x).
  exists (Pingstats.mkStats (PyNum.sum (x :: l) / PyNum.float_of_Z (PyNum.len (x :: l)))
            mx md mn).
  split; [|split; [|split]].
  - unfold Pingstats.stats_record. rewrite truediv_len_ok, Hmd. reflexivity.
  - intros n hosts. unfold Trstats.hop_record. rewrite truediv_len_ok, Hmd. reflexivity.
  - reflexivity.
  - intros Hnan. inversion Hnan as [|? ? Hx Hl]; subst.
    destruct (median_cases x l Hnan) as [md' [Hmd' [Hodd Heven]]].
    rewrite Hmd in Hmd'. injection Hmd' as <-.
    destruct (min_fold l x Hx Hl) as [Hmin_in [Hmin_x Hmin_all]].
    destruct (max_fold l x Hx Hl) as [Hmax_in [Hmax_x Hmax_all]].
    cbv zeta in *. fold mn in Hmin_in, Hmin_x, Hmin_all. fold mx in Hmax_in, Hmax_x, Hmax_all.
    assert (Hbounds : forall y, In y (x :: l) -> fle mn y /\ fle y mx).
    { intros y [<-|Hy]; [tauto|].
      rewrite Forall_forall in Hmin_all, Hmax_all. split; auto. }
    simpl Pingstats.min. simpl Pingstats.max. simpl Pingstats.med. simpl Pingstats.avg.
    split; [assumption|]. split; [assumption|]. split; [assumption|].
    split; [apply (fle_trans mn x mx); assumption|].
    split; [|split].
    + intros Ho. specialize (Hodd Ho). split; [assumption|]. now apply Hbounds.
    + intros He. destruct (Heven He) as [a [b [Ha [Hb [Hab Hmed]]]]].
      exists a, b. split; [assumption|]. split; [assumption|].
      split; [assumption|]. split; [assumption|].
      intros Hfin. destruct (mean2_ordered a b Hab Hfin) as [Hlo Hhi].
      rewrite Hmed. split.
      * apply (fle_trans mn a); [now apply Hbounds | assumption].
      * apply (fle_trans _ b); [assumption | now apply Hbounds].
    + intros Hlen Hfin.
      destruct l as [|y [|z l]]; [| |simpl in Hlen; lia].
      * change (PyNum.float_of_Z (PyNum.len [x])) with 1.
        apply avg_one. exact Hfin.
      * change (PyNum.float_of_Z (PyNum.len [x; y])) with 2.
        apply avg_two.
        -- exact Hfin.
        -- destruct Hmin_in as [E|[E|[]]]; [left | right]; now symmetry.
        -- apply Hbounds. now left.
        -- apply Hbounds. right. now left.
        -- destruct Hmax_in as [E|[E|[]]]; [left | right]; now symmetry.
        -- apply Hbounds. now left.
        -- apply Hbounds. right. now left.
Qed.

Lemma summary_bounds_witness :
  exists stats,
    Pingstats.stats_record [1; 4; 2; 3] = Ok stats /\
    Pingstats.med stats = 2.5 /\
    fle (Pingstats.min stats) (Pingstats.med stats) /\
    fle (Pingstats.med stats) (Pingstats.max stats).
Proof.
  assert (Hne : [1; 4; 2; 3] <> []) by discriminate.
  assert (Hnan : Forall not_nan [1; 4; 2; 3]) by (repeat constructor).
  destruct (summary_bounds [1; 4; 2; 3] Hne) as [stats [Hstats [_ [_ Hb]]]].
  destruct (Hb Hnan) as [_ [_ [_ [_ [_ [Heven _]]]]]].
  destruct (Heven eq_refl) as [a [b [Ha [Hb' [_ [Hmed Hfin]]]]]].
  exists stats. split; [assumption|].
  split; [injection Hstats as <-; vm_compute; reflexivity|].
  apply Hfin.
  simpl in Ha, Hb'.
  destruct Ha as [<-|[<-|[<-|[<-|[]]]]]; destruct Hb' as [<-|[<-|[<-|[<-|[]]]]];
    vm_compute; reflexivity.
Defined.

(** ** The lines of a traceroute output *)

Section Lines.

Import PyStr Trstats TrSpec TrLines.

Lemma split_from_nil (s : string) :
  forall cur, split_from cur s = [] -> cur = EmptyString /\ lstrip s = EmptyString.
Proof.
  induction s as [|c s IH]; intros cur; simpl.
  - destruct cur; [tauto | discriminate].
  - destruct (isspace c).
    + destruct cur; simpl; [|discriminate]. intros H. now apply IH in H.
    + intros H. apply IH in H. destruct H as [H _]. destruct cur; discriminate.
Qed.

(** A line that is read has a first token: [parts[0]] never raises
    [IndexError]. *)
Lemma read_line_has_token (line : string) :
  skipped line = false -> split line <> [].
Proof.
  unfold skipped. intros H E. apply orb_false_elim in H. destruct H as [_ H].
  apply String.eqb_neq in H. apply H.
  apply split_from_nil in E. destruct E as [_ E].
  unfold strip. now rewrite E.
Qed.

Lemma hop_record_ok (n : Z) (hs : list host_entry) (x : float) (l : list float) :
  exists h, hop_record n hs (x :: l) = Ok h.
Proof.
  unfold hop_record. rewrite truediv_len_ok.
  destruct (max_ok x l) as [mx ->].
  destruct (median_ok x l) as [md ->].
  destruct (min_ok x l) as [mn ->].
  eexists; reflexivity.
Qed.

Lemma scan_from_start (parts : list string) :
  scan parts [] [] = (first_occurrences [] (paired_entries parts), samples parts).
Proof.
  rewrite (scan_fold (List.length parts)) by lia. now rewrite fold_add_entry.
Qed.

(** What the loop body does on a line that is read. *)
Lemma parse_line_cases (line : string) :
  skipped line = false ->
  (starts_with_int line = false /\ parse_line line = Raise ValueError) \/
  (starts_with_int line = true /\ has_samples line = false /\ parse_line line = Ok None) \/
  (starts_with_int line = true /\ has_samples line = true /\
   exists h, hop_of_line h line /\ parse_line line = Ok (Some h)).
Proof.
  intros Hread. apply read_line_has_token in Hread.
  unfold starts_with_int, has_samples, hop_of_line, parse_line.
  destruct (split line) as [|first rest]; [congruence|]. simpl tl.
  destruct (PyNum.int_of_string first) as [n|] eqn:Hint; [|now left].
  right. rewrite scan_from_start.
  destruct (samples rest) as [|x l] eqn:Hs; [now left|].
  right. split; [reflexivity|]. split; [reflexivity|].
  destruct (hop_record_ok n (first_occurrences [] (paired_entries rest)) x l) as [h Hh].
  exists h. rewrite Hh. split; [|reflexivity].
  exists first, rest, n.
  split; [reflexivity|]. split; [assumption|]. rewrite Hs.
  split; [discriminate | assumption].
Qed.

Lemma parse_lines_ok (lines : list string) :
  forall acc hops,
    parse_lines lines acc = Ok hops ->
    exists new,
      hops = acc ++ new /\
      Forall2 hop_of_line new (filter gives_hop lines) /\
      forall line, In line lines -> skipped line = false -> starts_with_int line = true.
Proof.
  induction lines as [|line rest IH]; intros acc hops; simpl.
  - intros [= <-]. exists []. rewrite app_nil_r. repeat split; [constructor | tauto].
  - unfold gives_hop at 1. destruct (skipped line) eqn:Hsk; simpl.
    + intros H. destruct (IH _ _ H) as [new [E [HF Hint]]].
      exists new. repeat split; try assumption.
      intros l [<-|Hl]; [congruence | now apply Hint].
    + destruct (parse_line_cases line Hsk)
        as [[Hi Hp]|[[Hi [Hs Hp]]|[Hi [Hs [h [Hh Hp]]]]]]; rewrite Hp; simpl.
      * discriminate.
      * intros H. destruct (IH _ _ H) as [new [E [HF Hint]]].
        exists new. rewrite Hs. repeat split; try assumption.
        intros l [<-|Hl]; [tauto | now apply Hint].
      * intros H. destruct (IH _ _ H) as [new [E [HF Hint]]].
        exists (h :: new). rewrite Hs. rewrite <- app_assoc in E.
        repeat split; [assumption | now constructor |].
        intros l [<-|Hl]; [tauto | now apply Hint].
Qed.

Lemma parse_lines_raise (lines : list string) :
  forall acc e,
    parse_lines lines acc = Raise e ->
    e = ValueError /\
    exists line, In line lines /\ skipped line = false /\ starts_with_int line = false.
Proof.
  induction lines as [|line rest IH]; intros acc e; simpl; [discriminate|].
  destruct (skipped line) eqn:Hsk.
  - intros H. destruct (IH _ _ H) as [He [l [Hl Hrest]]].
    split; [assumption|]. exists l. tauto.
  - destruct (parse_line_cases line Hsk)
      as [[Hi Hp]|[[Hi [Hs Hp]]|[Hi [Hs [h [Hh Hp]]]]]]; rewrite Hp; simpl.
    + intros [= <-]. split; [reflexivity|]. exists line. tauto.
    + intros H. destruct (IH _ _ H) as [He [l [Hl Hrest]]].
      split; [assumption|]. exists l. tauto.
    + intros H. destruct (IH _ _ H) as [He [l [Hl Hrest]]].
      split; [assumption|]. exists l. tauto.
Qed.

(** Only [ValueError] leaves the parser. *)
Lemma parse_raises_ValueError (text : string) (e : exn) :
  parse_traceroute_output text = Raise e -> e = ValueError.
Proof. intros H. now apply parse_lines_raise in H. Qed.

(** Every host entry comes from two tokens next to each other. *)
Lemma paired_entries_tokens (k : nat) :
  forall parts e,
    (List.length parts <= k)%nat ->
    In e (paired_entries parts) ->
    exists hostname ip l1 l2,
      e = [hostname; ip] /\ parts = l1 ++ hostname :: ip :: l2 /\
      parenthesized hostname = false /\
      PyNum.float_of_string (replace_ms hostname) = None /\
      parenthesized ip = true.
Proof.
  induction k as [|k IH]; intros parts e Hlen Hin.
  - destruct parts; [destruct Hin | simpl in Hlen; lia].
  - destruct parts as [|part rest]; [destruct Hin|].
    simpl in Hlen, Hin.
    assert (Htail : In e (paired_entries rest) ->
                    exists hostname ip l1 l2,
                      e = [hostname; ip] /\ part :: rest = l1 ++ hostname :: ip :: l2 /\
                      parenthesized hostname = false /\
                      PyNum.float_of_string (replace_ms hostname) = None /\
                      parenthesized ip = true).
    { intros H. destruct (IH rest e ltac:(lia) H) as [hn [ip [l1 [l2 [E1 [E2 E3]]]]]].
      exists hn, ip, (part :: l1), l2. subst rest. simpl. tauto. }
    destruct (parenthesized part) eqn:Hpart; [auto|].
    destruct (PyNum.float_of_string (replace_ms part)) eqn:Hfloat; [auto|].
    destruct rest as [|ip rest']; [destruct Hin|].
    destruct (parenthesized ip) eqn:Hip; [|auto].
    destruct Hin as [<-|Hin].
    + exists part, ip, [], rest'. simpl. tauto.
    + simpl in Hlen.
      destruct (IH rest' e ltac:(lia) Hin) as [hn [ip' [l1 [l2 [E1 [E2 E3]]]]]].
      exists hn, ip', (part :: ip :: l1), l2. subst rest'. simpl. tauto.
Qed.

End Lines.

(** X1: [parse_traceroute_output] raises no exception but [ValueError], and
    raises it exactly on the texts with a line that is read (not blank, not
    starting with "traceroute") and whose first token [int()] rejects; the
    access to [parts[0]] itself never fails. *)
Theorem parse_traceroute_output_raises_iff (text : string) :
  (forall e, Trstats.parse_traceroute_output text = Raise e -> e = ValueError) /\
  ((exists e, Trstats.parse_traceroute_output text = Raise e) <->
   exists line,
     In line (PyStr.splitlines text) /\
     Trstats.skipped line = false /\ TrLines.starts_with_int line = false).
Proof.
  split; [intros e; apply parse_raises_ValueError|]. split.
  - intros [e H]. now apply parse_lines_raise in H.
  - intros [line [Hin [Hsk Hint]]]. unfold Trstats.parse_traceroute_output.
    destruct (Trstats.parse_lines (PyStr.splitlines text) []) as [hops|e] eqn:E.
    + apply parse_lines_ok in E. destruct E as [_ [_ [_ Hall]]].
      rewrite (Hall line Hin Hsk) in Hint. discriminate.
    + now exists e.
Qed.

Lemma parse_traceroute_output_raises_iff_witness :
  Trstats.parse_traceroute_output continued_hop = Raise ValueError.
Proof.
  destruct (parse_traceroute_output_raises_iff continued_hop) as [Hv [_ Hraise]].
  destruct Hraise as [e He].
  - exists "    b.example (1.2.3.5)  11.2 ms  12.3 ms".
    repeat split; vm_compute; tauto.
  - now rewrite (Hv e He) in He.
Defined.

(** X2: when [parse_traceroute_output] returns, it returns one hop for each
    line that is read and has a sample, in the order of the lines; the hop
    has the number given by the first token of its line, the hosts met on it
    and the summary of the samples met on it.  A line without sample (a hop
    that did not answer) gives no hop. *)
Theorem hops_follow_lines (text : string) (hops : list Trstats.Hop) :
  Trstats.parse_traceroute_output text = Ok hops ->
  Forall2 TrLines.hop_of_line hops
    (filter TrLines.gives_hop (PyStr.splitlines text)).
Proof.
  intros H. apply parse_lines_ok in H. destruct H as [new [-> [HF _]]]. exact HF.
Qed.

Lemma hops_follow_lines_witness :
  exists h1 h3,
    Trstats.parse_traceroute_output three_hops = Ok [h1; h3] /\
    Forall2 TrLines.hop_of_line [h1; h3]
      [" 1  gateway.example (10.0.0.1)  1.5 ms  2.5 ms";
       " 3  core.example (10.0.1.1)  7.5 ms"].
Proof.
  assert (Hparse : Trstats.parse_traceroute_output three_hops =
                   Ok [Trstats.mkHop 2 1 [["gateway.example"; "(10.0.0.1)"]] 2.5 2 1.5;
                       Trstats.mkHop 7.5 3 [["core.example"; "(10.0.1.1)"]] 7.5 7.5 7.5])
    by (vm_compute; reflexivity).
  eexists. eexists. split; [exact Hparse|].
  exact (hops_follow_lines _ _ Hparse).
Defined.

(** X3: in every hop that [parse_traceroute_output] returns, each host entry
    is a list [hostname, ip] of two tokens that stand next to each other on
    one line of the text, after its first token: [ip] is parenthesized and
    [hostname] is neither parenthesized nor a sample. *)
Theorem host_entries_are_adjacent_tokens
  (text : string) (hops : list Trstats.Hop) (h : Trstats.Hop) (e : Trstats.host_entry) :
  Trstats.parse_traceroute_output text = Ok hops ->
  In h hops -> In e (Trstats.hosts h) ->
  exists line hostname ip l1 l2,
    In line (PyStr.splitlines text) /\
    e = [hostname; ip] /\
    tl (PyStr.split line) = l1 ++ hostname :: ip :: l2 /\
    Trstats.parenthesized hostname = false /\
    PyNum.float_of_string (PyStr.replace_ms hostname) = None /\
    Trstats.parenthesized ip = true.
Proof.
  intros Hparse Hh He.
  assert (Hall : Forall
            (fun h => forall e, In e (Trstats.hosts h) ->
               exists line, In line (PyStr.splitlines text) /\
                 In e (TrSpec.paired_entries (tl (PyStr.split line)))) hops).
  { unfold Trstats.parse_traceroute_output in Hparse.
    eapply parse_lines_Forall; [| constructor | exact Hparse].
    intros line h' Hin Hline e' He'. apply parse_line_hosts in Hline.
    rewrite scan_hosts in Hline. rewrite Hline in He'.
    apply first_occurrences_In in He'. exists line. tauto. }
  rewrite Forall_forall in Hall. destruct (Hall h Hh e He) as [line [Hline Hin]].
  destruct (paired_entries_tokens _ _ e (le_n _) Hin)
    as [hostname [ip [l1 [l2 [E1 [E2 E3]]]]]].
  exists line, hostname, ip, l1, l2. tauto.
Qed.

Lemma host_entries_are_adjacent_tokens_witness :
  exists line hostname ip l1 l2,
    In line (PyStr.splitlines three_hops) /\
    ["core.example"; "(10.0.1.1)"] = [hostname; ip] /\
    tl (PyStr.split line) = l1 ++ hostname :: ip :: l2 /\
    Trstats.parenthesized hostname = false /\
    PyNum.float_of_string (PyStr.replace_ms hostname) = None /\
    Trstats.parenthesized ip = true.
Proof.
  apply (host_entries_are_adjacent_tokens three_hops
           [Trstats.mkHop 2 1 [["gateway.example"; "(10.0.0.1)"]] 2.5 2 1.5;
            Trstats.mkHop 7.5 3 [["core.example"; "(10.0.1.1)"]] 7.5 7.5 7.5]
           (Trstats.mkHop 7.5 3 [["core.example"; "(10.0.1.1)"]] 7.5 7.5 7.5)).
  - vm_compute; reflexivity.
  - simpl; tauto.
  - simpl; tauto.
Defined.

(** ** The samples of a traceroute line *)

Section Samples.

Import PyStr Trstats TrSpec TrLines.

Lemma replace_ms_unit (k : nat) :
  forall v, (String.length v <= k)%nat -> replace_ms (v ++ "ms") = replace_ms v.
Proof.
  induction k as [|k IH]; intros v Hlen.
  - destruct v; [reflexivity | simpl in Hlen; lia].
  - destruct v as [|c [|d v]]; [reflexivity | |].
    + simpl. destruct (Ascii.eqb c "m"); reflexivity.
    + simpl in Hlen. cbn [append replace_ms].
      destruct (Ascii.eqb c "m" && Ascii.eqb d "s")%bool.
      * apply IH. lia.
      * f_equal. apply (IH (String d v)). simpl. lia.
Qed.

Lemma unit_not_parenthesized (v : string) : parenthesized (v ++ "ms") = false.
Proof.
  unfold parenthesized, endswith.
  assert (E : (v ++ "ms")%string = snoc (v ++ "m") "s").
  { unfold snoc. now rewrite append_assoc. }
  rewrite E, rev_snoc. simpl. apply andb_false_r.
Qed.

Lemma hop_record_parts (n : Z) (hs : list host_entry) (S : list float) (h : Hop) :
  hop_record n hs S = Ok h ->
  PyNum.max S = Ok (max h) /\ PyNum.median S = Ok (med h) /\ PyNum.min S = Ok (min h).
Proof.
  unfold hop_record.
  destruct (PyNum.truediv _ _); simpl; [|discriminate].
  destruct (PyNum.max S); simpl; [|discriminate].
  destruct (PyNum.median S); simpl; [|discriminate].
  destruct (PyNum.min S); simpl; [|discriminate].
  intros [= <-]. simpl. tauto.
Qed.

End Samples.

(** ** More on the aggregation of traceroute runs *)

Section AggregateMore.

Import Trstats TrSpec.

Lemma add_hops_app (l1 l2 : list Hop) :
  forall d, add_hops d (l1 ++ l2) = (d' <- add_hops d l1 ;; add_hops d' l2).
Proof.
  induction l1 as [|h l1 IH]; intros d; simpl; [reflexivity|].
  destruct (add_hop d h) as [d'|e]; simpl; [apply IH | reflexivity].
Qed.

Lemma add_runs_concat (hops_list : list (list Hop)) :
  forall d, add_runs d hops_list = add_hops d (List.concat hops_list).
Proof.
  induction hops_list as [|hops rest IH]; intros d; simpl; [reflexivity|].
  rewrite add_hops_app. destruct (add_hops d hops) as [d'|e]; simpl; [apply IH | reflexivity].
Qed.

(** What [aggregate_stats] returns, record by record. *)
Lemma aggregate_stats_records (hops_list : list (list Hop)) :
  exists final_stats,
    aggregate_stats hops_list = Ok final_stats /\
    StronglySorted Z.lt (map hop final_stats) /\
    (forall n, In n (map hop final_stats) <->
               exists h, In h (List.concat hops_list) /\ hop h = n) /\
    Forall
      (fun r =>
         let g := group (hop r) (List.concat hops_list) in
         (s <- PyNum.truediv (PyNum.sum (map avg g)) (PyNum.len (map avg g)) ;;
          Ok (PyNum.round s 3)) = Ok (avg r) /\
         PyNum.max (map max g) = Ok (max r) /\
         PyNum.median (map med g) = Ok (med r) /\
         PyNum.min (map min g) = Ok (min r) /\
         option_map hosts (head g) = Some (hosts r))
      final_stats.
Proof.
  unfold aggregate_stats.
  destruct (add_runs_represents hops_list [] [] represents_nil) as [d [E Hrep]].
  simpl in Hrep. rewrite E. simpl.
  destruct (finalize_represents d (List.concat hops_list)
              (sorted_keys (map fst d)) Hrep
              (fun k Hk => proj1 (sorted_keys_In k _) Hk) [])
    as [out [Hfin [Hmap Hall]]].
  exists out. simpl in Hfin. split; [assumption|]. rewrite Hmap. split; [|split].
  - apply sorted_keys_sorted. apply Hrep.
  - intros n. rewrite sorted_keys_In. now apply represents_keys.
  - assumption.
Qed.

Lemma min_spec (l : list float) (m : float) :
  Forall not_nan l -> PyNum.min l = Ok m -> In m l /\ Forall (fle m) l.
Proof.
  destruct l as [|x l]; [discriminate|]. intros Hnan [= <-].
  inversion Hnan as [|? ? Hx Hl]; subst.
  destruct (min_fold l x Hx Hl) as [Hin [Hle Hall]]. cbv zeta in *.
  split; [assumption | now constructor].
Qed.

Lemma max_spec (l : list float) (m : float) :
  Forall not_nan l -> PyNum.max l = Ok m -> In m l /\ Forall (fun y => fle y m) l.
Proof.
  destruct l as [|x l]; [discriminate|]. intros Hnan [= <-].
  inversion Hnan as [|? ? Hx Hl]; subst.
  destruct (max_fold l x Hx Hl) as [Hin [Hle Hall]]. cbv zeta in *.
  split; [assumption | now constructor].
Qed.

Lemma group_In (n : Z) (seen : list Hop) (h : Hop) :
  In h (group n seen) <-> In h seen /\ hop h = n.
Proof.
  unfold group. rewrite filter_In, Z.eqb_eq. tauto.
Qed.

Lemma group_alone (run : list Hop) (h : Hop) :
  NoDup (map hop run) -> In h run -> group (hop h) run = [h].
Proof.
  induction run as [|x run IH]; simpl; intros Hnd Hin; [destruct Hin|].
  inversion Hnd as [|? ? Hx Hnd']; subst.
  assert (Hnone : forall y, hop y = hop x -> group (hop y) run = []).
  { intros y Hy. destruct (group (hop y) run) as [|z g] eqn:E; [reflexivity|].
    exfalso. apply Hx.
    assert (Hz : In z (group (hop y) run)) by (rewrite E; now left).
    apply group_In in Hz. destruct Hz as [Hz1 Hz2].
    rewrite <- Hy, <- Hz2. now apply in_map. }
  destruct Hin as [->|Hin].
  - rewrite Z.eqb_refl. fold (group (hop h) run). now rewrite Hnone.
  - destruct (hop x =? hop h)%Z eqn:E.
    + apply Z.eqb_eq in E. exfalso. apply Hx. rewrite E. now apply in_map.
    + fold (group (hop h) run). now apply IH.
Qed.

Lemma sorted_lt_NoDup (l : list Z) : StronglySorted Z.lt l -> NoDup l.
Proof.
  induction 1 as [|x l Hs IH Hall]; constructor; [|assumption].
  intros Hin. rewrite Forall_forall in Hall. specialize (Hall x Hin). lia.
Qed.

Lemma float_of_one : PyNum.float_of_Z 1 = 1.
Proof. vm_compute. reflexivity. Qed.

End AggregateMore.

(** X4: [aggregate_stats] depends only on the hops of the runs taken one run
    after the other, not on where one run ends and the next begins: a run
    without hop (a failed run, or one whose hops all stayed silent) changes
    nothing. *)
Theorem aggregate_stats_of_concat (runs1 runs2 : list (list Trstats.Hop)) :
  List.concat runs1 = List.concat runs2 ->
  Trstats.aggregate_stats runs1 = Trstats.aggregate_stats runs2.
Proof.
  intros H. unfold Trstats.aggregate_stats. now rewrite !add_runs_concat, H.
Qed.

Lemma aggregate_stats_of_concat_witness :
  Trstats.aggregate_stats ([] :: two_runs ++ [[]]) = Trstats.aggregate_stats two_runs.
Proof.
  apply aggregate_stats_of_concat. reflexivity.
Defined.

(** X5: when no min and no max of the runs is NaN, the min that
    [aggregate_stats] returns for a hop number is the min of one of the hops
    of that number and lies below the min of each of them, and the max it
    returns is the max of one of them and lies above the max of each. *)
Theorem aggregate_stats_min_max
  (hops_list : list (list Trstats.Hop)) (final_stats : list Trstats.Hop) :
  Trstats.aggregate_stats hops_list = Ok final_stats ->
  Forall (fun h => not_nan (Trstats.min h) /\ not_nan (Trstats.max h))
    (List.concat hops_list) ->
  (forall h, In h (List.concat hops_list) ->
     exists r, In r final_stats /\ Trstats.hop r = Trstats.hop h /\
       fle (Trstats.min r) (Trstats.min h) /\ fle (Trstats.max h) (Trstats.max r)) /\
  (forall r, In r final_stats ->
     exists h1 h2,
       In h1 (List.concat hops_list) /\ Trstats.hop h1 = Trstats.hop r /\
       In h2 (List.concat hops_list) /\ Trstats.hop h2 = Trstats.hop r /\
       Trstats.min r = Trstats.min h1 /\ Trstats.max r = Trstats.max h2).
Proof.
  intros Hagg Hnan.
  destruct (aggregate_stats_records hops_list) as [final [E [_ [Hkeys Hall]]]].
  rewrite Hagg in E. injection E as <-.
  rewrite Forall_forall in Hall, Hnan.
  assert (Hgroup : forall r,
            In r final_stats ->
            let g := TrSpec.group (Trstats.hop r) (List.concat hops_list) in
            (In (Trstats.min r) (map Trstats.min g) /\
             Forall (fle (Trstats.min r)) (map Trstats.min g)) /\
            (In (Trstats.max r) (map Trstats.max g) /\
             Forall (fun y => fle y (Trstats.max r)) (map Trstats.max g))).
  { intros r Hr. destruct (Hall r Hr) as [_ [Hmax [_ [Hmin _]]]]. cbv zeta in *.
    assert (Hg : forall h, In h (TrSpec.group (Trstats.hop r) (List.concat hops_list)) ->
                   not_nan (Trstats.min h) /\ not_nan (Trstats.max h)).
    { intros h Hh. apply group_In in Hh. apply Hnan. tauto. }
    split.
    - apply min_spec; [|assumption]. apply Forall_forall. intros x Hx.
      apply in_map_iff in Hx. destruct Hx as [h [<- Hh]]. now apply Hg.
    - apply max_spec; [|assumption]. apply Forall_forall. intros x Hx.
      apply in_map_iff in Hx. destruct Hx as [h [<- Hh]]. now apply Hg. }
  split.
  - intros h Hh.
    assert (Hn : In (Trstats.hop h) (map Trstats.hop final_stats))
      by (apply Hkeys; now exists h).
    apply in_map_iff in Hn. destruct Hn as [r [Hhop Hr]].
    exists r. split; [assumption|]. split; [assumption|].
    destruct (Hgroup r Hr) as [[_ Hmin] [_ Hmax]]. cbv zeta in *.
    rewrite Forall_forall in Hmin, Hmax.
    assert (Hin : In h (TrSpec.group (Trstats.hop r) (List.concat hops_list)))
      by (apply group_In; split; [assumption | now symmetry]).
    split; [apply Hmin | apply Hmax]; now apply in_map.
  - intros r Hr. destruct (Hgroup r Hr) as [[Hmin _] [Hmax _]]. cbv zeta in *.
    apply in_map_iff in Hmin. destruct Hmin as [h1 [E1 H1]].
    apply in_map_iff in Hmax. destruct Hmax as [h2 [E2 H2]].
    apply group_In in H1. apply group_In in H2.
    exists h1, h2. intuition congruence.
Qed.

Lemma aggregate_stats_min_max_witness :
  exists r,
    In r [Trstats.mkHop 2 1 [["a.example"; "(10.0.0.1)"]] 4 1.75 1;
          Trstats.mkHop 7 2 [["b.example"; "(10.0.0.2)"]] 9 6 5] /\
    Trstats.hop r = 1%Z /\
    fle (Trstats.min r) 1.25 /\ fle 4 (Trstats.max r).
Proof.
  assert (Hagg : Trstats.aggregate_stats two_runs =
                 Ok [Trstats.mkHop 2 1 [["a.example"; "(10.0.0.1)"]] 4 1.75 1;
                     Trstats.mkHop 7 2 [["b.example"; "(10.0.0.2)"]] 9 6 5])
    by (vm_compute; reflexivity).
  assert (Hnan : Forall (fun h => not_nan (Trstats.min h) /\ not_nan (Trstats.max h))
                   (List.concat two_runs))
    by (repeat constructor).
  destruct (aggregate_stats_min_max _ _ Hagg Hnan) as [Hbelow _].
  apply (Hbelow (Trstats.mkHop 2.5 1 [["c.example"; "(10.0.0.3)"]] 4 2 1.25)).
  simpl. tauto.
Defined.

(** X6: for one run whose hops have pairwise distinct numbers,
    [aggregate_stats] returns the hops of the run in ascending order of hop
    number, each with its hosts, max, med and min unchanged and with its avg
    replaced by [round((0 + avg) / 1, 3)]. *)
Theorem aggregate_stats_one_run (run : list Trstats.Hop) :
  NoDup (map Trstats.hop run) ->
  exists final_stats,
    Trstats.aggregate_stats [run] = Ok final_stats /\
    StronglySorted Z.lt (map Trstats.hop final_stats) /\
    Permutation final_stats (map TrAgg.alone run).
Proof.
  intros Hnd.
  destruct (aggregate_stats_records [run]) as [final [E [Hsorted [Hkeys Hall]]]].
  exists final. split; [assumption|]. split; [assumption|].
  simpl List.concat in *. rewrite app_nil_r in *.
  assert (Hrec : forall r h, In r final -> In h run ->
                   Trstats.hop h = Trstats.hop r -> r = TrAgg.alone h).
  { intros r h Hr Hh Hhop. rewrite Forall_forall in Hall.
    specialize (Hall r Hr). cbv zeta in Hall.
    rewrite <- Hhop, (group_alone run h Hnd Hh) in Hall. simpl in Hall.
    unfold PyNum.truediv, PyNum.len, PyNum.sum, PyNum.median in Hall.
    simpl in Hall. rewrite float_of_one in Hall.
    destruct Hall as [[= Ha] [[= Hmx] [[= Hmd] [[= Hmn] [= Hhs]]]]].
    destruct r as [a n hs mx md mn]. simpl in *. unfold TrAgg.alone.
    now subst. }
  apply NoDup_Permutation.
  - apply (NoDup_map_inv Trstats.hop). now apply sorted_lt_NoDup.
  - apply (NoDup_map_inv Trstats.hop). rewrite map_map. simpl. exact Hnd.
  - intros r. rewrite in_map_iff. split.
    + intros Hr.
      assert (Hn : In (Trstats.hop r) (map Trstats.hop final)) by now apply in_map.
      apply Hkeys in Hn. destruct Hn as [h [Hh Hhop]].
      exists h. split; [|assumption]. symmetry. now apply Hrec.
    + intros [h [<- Hh]].
      assert (Hn : In (Trstats.hop h) (map Trstats.hop final))
        by (apply Hkeys; now exists h).
      apply in_map_iff in Hn. destruct Hn as [r [Hhop Hr]].
      now rewrite <- (Hrec r h Hr Hh (eq_sym Hhop)).
Qed.

Lemma aggregate_stats_one_run_witness :
  exists final_stats,
    Trstats.aggregate_stats
      [[Trstats.mkHop 7.5 3 [["core.example"; "(10.0.1.1)"]] 7.5 7.5 7.5;
        Trstats.mkHop 2 1 [["gateway.example"; "(10.0.0.1)"]] 2.5 2 1.5]]
    = Ok final_stats /\
    StronglySorted Z.lt (map Trstats.hop final_stats) /\
    Permutation final_stats
      [Trstats.mkHop 7.5 3 [["core.example"; "(10.0.1.1)"]] 7.5 7.5 7.5;
       Trstats.mkHop 2 1 [["gateway.example"; "(10.0.0.1)"]] 2.5 2 1.5].
Proof.
  apply (aggregate_stats_one_run
           [Trstats.mkHop 7.5 3 [["core.example"; "(10.0.1.1)"]] 7.5 7.5 7.5;
            Trstats.mkHop 2 1 [["gateway.example"; "(10.0.0.1)"]] 2.5 2 1.5]).
  repeat constructor; simpl; intuition discriminate.
Defined.

(** X7: on a traceroute line a unit "ms" attached to a value is removed
    before the value is read: a token made of a text and "ms", where
    [float()] accepts the text once its own "ms" are removed, gives the
    sample of the text, and changes nothing else. *)
Theorem attached_ms_is_removed
  (v : string) (x : float) (rest : list string)
  (hosts : list Trstats.host_entry) (latencies : list float) :
  PyNum.float_of_string (PyStr.replace_ms v) = Some x ->
  Trstats.scan ((v ++ "ms")%string :: rest) hosts latencies =
    Trstats.scan rest hosts (latencies ++ [x]).
Proof.
  intros Hv. cbn [Trstats.scan].
  rewrite unit_not_parenthesized, (replace_ms_unit _ v (le_n _)), Hv. reflexivity.
Qed.

Lemma attached_ms_is_removed_witness :
  Trstats.scan ["15.234ms"; "16.012"; "ms"] [] [] = Trstats.scan ["16.012"; "ms"] [] [15.234] /\
  Trstats.scan ["16.012"; "ms"] [] [15.234] = ([], [15.234; 16.012]).
Proof.
  split; [|vm_compute; reflexivity].
  apply (attached_ms_is_removed "15.234" 15.234 ["16.012"; "ms"] [] []).
  vm_compute. reflexivity.
Defined.

(** X8: every hop that [parse_traceroute_output] returns from a line
    without NaN sample has for min and max two samples of its line, with
    every sample of the line between them, so that min <= max. *)
Theorem hop_min_max_of_line (text : string) (hops : list Trstats.Hop) :
  Trstats.parse_traceroute_output text = Ok hops ->
  Forall2
    (fun h line =>
       let S := TrSpec.samples (tl (PyStr.split line)) in
       Forall not_nan S ->
       In (Trstats.min h) S /\ In (Trstats.max h) S /\
       fle (Trstats.min h) (Trstats.max h) /\
       forall x, In x S -> fle (Trstats.min h) x /\ fle x (Trstats.max h))
    hops (filter TrLines.gives_hop (PyStr.splitlines text)).
Proof.
  intros H. apply parse_lines_ok in H. destruct H as [new [-> [HF _]]]. simpl.
  eapply Forall2_impl; [|exact HF].
  intros h line [first [rest [n [Hsplit [_ [Hne Hrec]]]]]]. cbv zeta.
  rewrite Hsplit. simpl tl. intros Hnan.
  apply hop_record_parts in Hrec. destruct Hrec as [Hmax [_ Hmin]].
  destruct (min_spec _ _ Hnan Hmin) as [Hmin_in Hmin_all].
  destruct (max_spec _ _ Hnan Hmax) as [Hmax_in Hmax_all].
  rewrite Forall_forall in Hmin_all, Hmax_all.
  repeat split; auto.
Qed.

Lemma hop_min_max_of_line_witness :
  Forall2
    (fun h line =>
       let S := TrSpec.samples (tl (PyStr.split line)) in
       Forall not_nan S ->
       In (Trstats.min h) S /\ In (Trstats.max h) S /\
       fle (Trstats.min h) (Trstats.max h) /\
       forall x, In x S -> fle (Trstats.min h) x /\ fle x (Trstats.max h))
    [Trstats.mkHop 15.623000000000001 3 [["router.example.com"; "(192.168.1.1)"]]
       16.012 15.623000000000001 15.234]
    (filter TrLines.gives_hop (PyStr.splitlines example_line)).
Proof.
  apply (hop_min_max_of_line example_line). vm_compute. reflexivity.
Defined.

(** ** More on the ping program *)

Section PingMore.

Import Pingstats PingSpec PingAgg.

Lemma all_latencies_from (stats_list : list Stats) :
  forall acc,
    fold_left (fun acc stats => acc ++ [min stats; med stats; avg stats; max stats])
      stats_list acc
    = acc ++ pooled stats_list.
Proof.
  induction stats_list as [|s l IH]; intros acc; simpl.
  - now rewrite app_nil_r.
  - rewrite IH. now rewrite <- app_assoc.
Qed.

Lemma all_latencies_pooled (stats_list : list Stats) :
  all_latencies stats_list = pooled stats_list.
Proof. unfold all_latencies. now rewrite all_latencies_from. Qed.

Lemma pooled_length (stats_list : list Stats) :
  List.length (pooled stats_list) = (4 * List.length stats_list)%nat.
Proof.
  induction stats_list as [|s l IH]; simpl; [reflexivity|]. rewrite IH. lia.
Qed.

Lemma pooled_In (stats_list : list Stats) (x : float) :
  In x (pooled stats_list) <-> exists t, In t stats_list /\ In x (fields t).
Proof. unfold pooled. apply in_flat_map. Qed.

Lemma odd_four (n : nat) : Nat.odd (4 * n) = false.
Proof.
  replace (4 * n)%nat with (2 * (2 * n))%nat by lia.
  rewrite Nat.odd_mul. reflexivity.
Qed.

End PingMore.

(** X9: [aggregate_ping_stats] raises [ZeroDivisionError] on the empty list
    of summaries, and on no other list: with one summary or more it
    returns. *)
Theorem aggregate_ping_stats_raises_iff (stats_list : list Pingstats.Stats) :
  (stats_list = [] ->
   Pingstats.aggregate_ping_stats stats_list = Raise ZeroDivisionError) /\
  (stats_list <> [] ->
   exists r, Pingstats.aggregate_ping_stats stats_list = Ok r).
Proof.
  split.
  - intros ->. reflexivity.
  - intros Hne. unfold Pingstats.aggregate_ping_stats.
    rewrite all_latencies_pooled.
    destruct stats_list as [|s l]; [congruence|]. simpl PingAgg.pooled.
    rewrite truediv_len_ok. unfold PingAgg.fields. simpl app.
    destruct (max_ok (Pingstats.min s)
                (Pingstats.med s :: Pingstats.avg s :: Pingstats.max s :: PingAgg.pooled l))
      as [mx ->].
    destruct (median_ok (Pingstats.min s)
                (Pingstats.med s :: Pingstats.avg s :: Pingstats.max s :: PingAgg.pooled l))
      as [md ->].
    destruct (min_ok (Pingstats.min s)
                (Pingstats.med s :: Pingstats.avg s :: Pingstats.max s :: PingAgg.pooled l))
      as [mn ->].
    eexists; reflexivity.
Qed.

Lemma aggregate_ping_stats_raises_iff_witness :
  Pingstats.aggregate_ping_stats [] = Raise ZeroDivisionError /\
  exists r, Pingstats.aggregate_ping_stats [Pingstats.mkStats 2 3 2 1] = Ok r.
Proof.
  split.
  - apply (aggregate_ping_stats_raises_iff []). reflexivity.
  - apply (aggregate_ping_stats_raises_iff [Pingstats.mkStats 2 3 2 1]). discriminate.
Defined.

(** X10: for summaries without NaN, the record [aggregate_ping_stats] returns
    has for min and max two of the pooled values, with every value of every
    summary between them; its med is the float (a + b) / 2 of two pooled
    values a <= b, the pooled list having four values for each summary, an
    even number; its avg is the sum of the pooled values divided by four
    times the number of summaries, rounded to 3 decimals. *)
Theorem aggregate_ping_stats_bounds (s : Pingstats.Stats) (l : list Pingstats.Stats) :
  Forall (fun t => Forall not_nan (PingAgg.fields t)) (s :: l) ->
  exists r,
    Pingstats.aggregate_ping_stats (s :: l) = Ok r /\
    (forall t x, In t (s :: l) -> In x (PingAgg.fields t) ->
                 fle (Pingstats.min r) x /\ fle x (Pingstats.max r)) /\
    In (Pingstats.min r) (PingAgg.pooled (s :: l)) /\
    In (Pingstats.max r) (PingAgg.pooled (s :: l)) /\
    (exists a b,
        In a (PingAgg.pooled (s :: l)) /\ In b (PingAgg.pooled (s :: l)) /\
        fle a b /\ Pingstats.med r = (a + b) / 2) /\
    Pingstats.avg r =
      PyNum.round (PyNum.sum (PingAgg.pooled (s :: l)) /
                   PyNum.float_of_Z (4 * PyNum.len (s :: l))) 3.
Proof.
  intros Hnan.
  assert (Hpool : Forall not_nan (PingAgg.pooled (s :: l))).
  { apply Forall_forall. intros x Hx. apply pooled_In in Hx.
    destruct Hx as [t [Ht Hx]]. rewrite Forall_forall in Hnan.
    specialize (Hnan t Ht). rewrite Forall_forall in Hnan. now apply Hnan. }
  assert (Hlen : PyNum.len (PingAgg.pooled (s :: l)) = (4 * PyNum.len (s :: l))%Z).
  { unfold PyNum.len. rewrite pooled_length. lia. }
  assert (Heven : Nat.odd (List.length (PingAgg.pooled (s :: l))) = false)
    by (rewrite pooled_length; apply odd_four).
  unfold Pingstats.aggregate_ping_stats. rewrite all_latencies_pooled.
  remember (PingAgg.pooled (s :: l)) as pool eqn:Epool.
  destruct pool as [|x pool]; [simpl in Epool; discriminate|].
  destruct (median_cases x pool Hpool) as [md [Hmd [_ Hmed]]].
  specialize (Hmed Heven).
  inversion Hpool as [|? ? Hx Hrest]; subst.
  destruct (min_fold pool x Hx Hrest) as [Hmin_in [Hmin_x Hmin_all]].
  destruct (max_fold pool x Hx Hrest) as [Hmax_in [Hmax_x Hmax_all]].
  cbv zeta in *.
  rewrite truediv_len_ok, Hmd. simpl. eexists. split; [reflexivity|]. simpl.
  split; [|split; [assumption | split; [assumption | split; [assumption|]]]].
  - intros t y Ht Hy.
    assert (Hin : In y (x :: pool)).
    { rewrite Epool. apply pooled_In. now exists t. }
    rewrite Forall_forall in Hmin_all, Hmax_all.
    destruct Hin as [<-|Hin]; split; auto.
  - now rewrite Hlen.
Qed.

Lemma aggregate_ping_stats_bounds_witness :
  exists r,
    Pingstats.aggregate_ping_stats [Pingstats.mkStats 3 4 2 1; Pingstats.mkStats 4 5 3 2]
      = Ok r /\
    fle (Pingstats.min r) 3 /\ fle 3 (Pingstats.max r).
Proof.
  assert (Hnan : Forall (fun t => Forall not_nan (PingAgg.fields t))
                   [Pingstats.mkStats 3 4 2 1; Pingstats.mkStats 4 5 3 2])
    by (repeat constructor).
  destruct (aggregate_ping_stats_bounds _ _ Hnan) as [r [Hr [Hbounds _]]].
  exists r. split; [assumption|].
  apply (Hbounds (Pingstats.mkStats 4 5 3 2) 3); simpl; tauto.
Defined.

(** The ping program before an outside whose calls return. *)
Lemma pingstats_main_reliable (args : Pingstats.Args) (c : completed) :
  PingRun.main args (PingMain.reliable c) = Pingstats.main args c.
Proof.
  unfold PingRun.main, Pingstats.main. simpl.
  destruct (truthy (Pingstats.target args)); [|reflexivity].
  destruct (Pingstats.run_ping s (Pingstats.max_pings args) (Pingstats.delay args) c)
    as [ev [o|e]]; [|reflexivity].
  simpl. destruct (truthy o); [|reflexivity].
  destruct (Pingstats.parse_ping_output s0) as [[stats|]|e]; reflexivity.
Qed.

(** X11: an exception leaves the ping program only out of [save_to_json] or
    out of [generate_boxplot]; reading the output of the run raises
    nothing.  When the run gives a sample or more, the program prints
    nothing and calls [save_to_json] on the summary of the samples; only
    when that call returns, it calls [generate_boxplot] on the same
    summary; and it ends as the last call made ends. *)
Theorem pingstats_main_outcome (args : Pingstats.Args) (w : PingRun.World) :
  (forall e,
      snd (PingRun.main args w) = Raise e ->
      exists stats,
        Pingstats.stats_record (PingSpec.run_samples (PingRun.ping w)) = Ok stats /\
        (PingRun.save_to_json w stats (Pingstats.output args) = Raise e \/
         PingRun.save_to_json w stats (Pingstats.output args) = Ok tt /\
         PingRun.generate_boxplot w stats (Pingstats.graph args) = Raise e)) /\
  (forall target x latencies,
      truthy (Pingstats.target args) = Some target ->
      PingSpec.run_samples (PingRun.ping w) = x :: latencies ->
      exists stats,
        Pingstats.stats_record (x :: latencies) = Ok stats /\
        PingRun.main args w = PingMain.reports args w stats).
Proof.
  unfold PingRun.main, PingSpec.run_samples, PingSpec.usable_output, PingMain.reports.
  split.
  - intros e.
    destruct (truthy (Pingstats.target args)); [|discriminate].
    destruct (PingRun.ping w) as [returncode stdout stderr|msg]; simpl; [|discriminate].
    destruct (returncode =? 0)%Z; simpl; [|discriminate].
    destruct stdout as [|ch stdout]; simpl; [discriminate|].
    unfold Pingstats.parse_ping_output.
    destruct (Pingstats.ping_latencies (String ch stdout)) as [|x latencies]; [discriminate|].
    destruct (stats_record_ok x latencies) as [stats Hstats]. rewrite Hstats. simpl.
    destruct (PingRun.save_to_json w stats (Pingstats.output args)) as [[]|e1] eqn:Hsave;
      simpl.
    + destruct (PingRun.generate_boxplot w stats (Pingstats.graph args)) as [[]|e2] eqn:Hplot;
        simpl; [discriminate|].
      intros [= <-]. exists stats. split; [reflexivity | now right].
    + intros [= <-]. exists stats. split; [reflexivity | now left].
  - intros target x latencies -> Hsamples.
    destruct (PingRun.ping w) as [returncode stdout stderr|msg]; simpl in *; [|discriminate].
    destruct (returncode =? 0)%Z; simpl in *; [|discriminate].
    destruct stdout as [|ch stdout]; simpl in *; [discriminate|].
    unfold Pingstats.parse_ping_output. rewrite Hsamples.
    destruct (stats_record_ok x latencies) as [stats Hstats].
    exists stats. split; [assumption|]. rewrite Hstats. simpl.
    destruct (PingRun.save_to_json w stats (Pingstats.output args)) as [[]|e1]; simpl;
      [|reflexivity].
    now destruct (PingRun.generate_boxplot w stats (Pingstats.graph args)).
Qed.

Lemma pingstats_main_outcome_witness :
  exists stats,
    Pingstats.stats_record [0.1; 0.1; 0.1] = Ok stats /\
    PingRun.main (Pingstats.mkArgs 3 1 "missing/out.json" "out.pdf" (Some "10.0.0.1"))
      PingMain.unwritable_json
    = ([Pingstats.SaveToJson stats "missing/out.json"], Raise OSError).
Proof.
  destruct (pingstats_main_outcome
              (Pingstats.mkArgs 3 1 "missing/out.json" "out.pdf" (Some "10.0.0.1"))
              PingMain.unwritable_json) as [_ H].
  apply (H "10.0.0.1" 0.1 [0.1; 0.1]); vm_compute; reflexivity.
Defined.

(** ** The traceroute program *)

Section Main.

Import Trstats TrMain.

Lemma sleep_cases (run_delay : Z) :
  TrRun.sleep run_delay =
    if sleeps run_delay then ([Sleep run_delay], Ok tt)
    else ([], Raise (sleep_error run_delay)).
Proof.
  unfold TrRun.sleep, sleeps, sleep_error.
  destruct (Z.ltb_spec run_delay (- TrRun.sleep_max));
    destruct (Z.ltb_spec TrRun.sleep_max run_delay);
    destruct (Z.ltb_spec run_delay 0);
    destruct (Z.leb_spec 0 run_delay);
    destruct (Z.leb_spec run_delay TrRun.sleep_max);
    simpl; try reflexivity; unfold TrRun.sleep_max in *; lia.
Qed.

(** One turn of the loop of the live mode. *)
Lemma live_runs_step (w : TrRun.World) (target : string) (max_hops run_delay : Z)
  (k : nat) (rest : list nat) (hops_list : list (list Hop)) :
  TrRun.live_runs w target max_hops run_delay (k :: rest) hops_list =
    let msgs := runner_messages (TrRun.traceroute w k) in
    let continue hops_list :=
      if sleeps run_delay then
        let (ev, r) := TrRun.live_runs w target max_hops run_delay rest hops_list in
        (msgs ++ Sleep run_delay :: ev, r)
      else (msgs, Raise (sleep_error run_delay)) in
    match PingSpec.usable_output (TrRun.traceroute w k) with
    | None => continue hops_list
    | Some traceroute_output =>
        match parse_traceroute_output traceroute_output with
        | Ok hops => continue (hops_list ++ [hops])
        | Raise e => (msgs, Raise e)
        end
    end.
Proof.
  cbv zeta. simpl TrRun.live_runs. rewrite sleep_cases.
  unfold run_traceroute, PingSpec.usable_output.
  destruct (TrRun.traceroute w k) as [returncode stdout stderr|e]; simpl.
  - destruct (returncode =? 0)%Z; simpl.
    + destruct stdout as [|ch stdout]; simpl.
      * destruct (sleeps run_delay); simpl; [|reflexivity].
        now destruct (TrRun.live_runs w target max_hops run_delay rest hops_list).
      * destruct (parse_traceroute_output (String ch stdout)); simpl; [|reflexivity].
        destruct (sleeps run_delay); simpl; [|reflexivity].
        now destruct (TrRun.live_runs w target max_hops run_delay rest (hops_list ++ [a])).
    + destruct (sleeps run_delay); simpl; [|reflexivity].
      now destruct (TrRun.live_runs w target max_hops run_delay rest hops_list).
  - destruct (sleeps run_delay); simpl; [|reflexivity].
    now destruct (TrRun.live_runs w target max_hops run_delay rest hops_list).
Qed.

(** One turn of the loop of the test mode. *)
Lemma read_runs_step (w : TrRun.World) (test : string) (i : Z) (rest : list Z)
  (hops_list : list (list Hop)) :
  TrRun.read_runs w test (i :: rest) hops_list =
    match TrRun.files w (fixture_path test i) with
    | TrRun.Text traceroute_output =>
        match parse_traceroute_output traceroute_output with
        | Ok hops => TrRun.read_runs w test rest (hops_list ++ [hops])
        | Raise e => ([], Raise e)
        end
    | TrRun.Unreadable e => ([], Raise e)
    | TrRun.Missing =>
        let (ev, r) := TrRun.read_runs w test rest hops_list in
        (Print ("File " ++ fixture_path test i ++ " does not exist.") :: ev, r)
    end.
Proof.
  cbn [TrRun.read_runs]. unfold fixture_path.
  destruct (TrRun.files w (path_join test ("tr_run-" ++ str i ++ ".out"))) as [|text|e].
  - unfold emit. cbn [io_bind app].
    now destruct (TrRun.read_runs w test rest hops_list).
  - unfold lift. destruct (parse_traceroute_output text); cbn [io_bind]; [|reflexivity].
    now destruct (TrRun.read_runs w test rest (hops_list ++ [a])).
  - reflexivity.
Qed.

Lemma runner_messages_no_report (c : completed) :
  Forall (fun ev => is_report ev = false) (runner_messages c).
Proof.
  destruct c as [returncode stdout stderr|e]; simpl.
  - destruct (returncode =? 0)%Z; repeat constructor.
  - repeat constructor.
Qed.

(** The live loop makes no report; it raises [ValueError], or
    [OverflowError] on a delay out of range. *)
Lemma live_runs_quiet (w : TrRun.World) (target : string) (max_hops run_delay : Z)
  (ks : list nat) :
  forall hops_list ev r,
    TrRun.live_runs w target max_hops run_delay ks hops_list = (ev, r) ->
    Forall (fun ev => is_report ev = false) ev /\
    forall e, r = Raise e ->
              e = ValueError \/
              e = OverflowError /\
              (run_delay < - TrRun.sleep_max \/ TrRun.sleep_max < run_delay)%Z.
Proof.
  induction ks as [|k rest IH]; intros hops_list ev r.
  - simpl. intros [= <- <-]. split; [constructor | discriminate].
  - rewrite live_runs_step. cbv zeta.
    assert (Hcont : forall hl,
              (if sleeps run_delay then
                 let (ev, r) := TrRun.live_runs w target max_hops run_delay rest hl in
                 (runner_messages (TrRun.traceroute w k) ++ Sleep run_delay :: ev, r)
               else (runner_messages (TrRun.traceroute w k), Raise (sleep_error run_delay)))
              = (ev, r) ->
              Forall (fun ev => is_report ev = false) ev /\
              forall e, r = Raise e ->
                        e = ValueError \/
                        e = OverflowError /\
                        (run_delay < - TrRun.sleep_max \/ TrRun.sleep_max < run_delay)%Z).
    { intros hl. destruct (sleeps run_delay).
      - destruct (TrRun.live_runs w target max_hops run_delay rest hl) as [ev' r'] eqn:E.
        intros [= <- <-]. destruct (IH _ _ _ E) as [Hq He]. split; [|assumption].
        apply Forall_app. split; [apply runner_messages_no_report|].
        now constructor.
      - intros [= <- <-]. split; [apply runner_messages_no_report|].
        intros e [= <-]. unfold sleep_error.
        destruct (Z.ltb_spec run_delay (- TrRun.sleep_max));
          destruct (Z.ltb_spec TrRun.sleep_max run_delay); simpl;
          [right | right | right | left]; tauto. }
    destruct (PingSpec.usable_output (TrRun.traceroute w k)) as [text|]; [|apply Hcont].
    destruct (parse_traceroute_output text) as [hops|e] eqn:Hparse; [apply Hcont|].
    intros [= <- <-]. split; [apply runner_messages_no_report|].
    intros e' [= <-]. left. now apply parse_raises_ValueError in Hparse.
Qed.

(** The test loop makes no report; it raises [ValueError], or the exception
    of a file that exists and is not read. *)
Lemma read_runs_quiet (w : TrRun.World) (test : string) (indices : list Z) :
  forall hops_list ev r,
    TrRun.read_runs w test indices hops_list = (ev, r) ->
    Forall (fun ev => is_report ev = false) ev /\
    forall e, r = Raise e ->
              e = ValueError \/
              exists i, In i indices /\
                        TrRun.files w (fixture_path test i) = TrRun.Unreadable e.
Proof.
  induction indices as [|i rest IH]; intros hops_list ev r.
  - simpl. intros [= <- <-]. split; [constructor | discriminate].
  - rewrite read_runs_step.
    destruct (TrRun.files w (fixture_path test i)) as [|text|e0] eqn:Hfile.
    + destruct (TrRun.read_runs w test rest hops_list) as [ev' r'] eqn:E.
      intros [= <- <-]. destruct (IH _ _ _ E) as [Hq He]. split; [now constructor|].
      intros e Hr. destruct (He e Hr) as [->|[j [Hj Hf]]]; [now left|].
      right. exists j. split; [now right | assumption].
    + destruct (parse_traceroute_output text) as [hops|e] eqn:Hparse.
      * intros H. destruct (IH _ _ _ H) as [Hq He]. split; [assumption|].
        intros e Hr. destruct (He e Hr) as [->|[j [Hj Hf]]]; [now left|].
        right. exists j. split; [now right | assumption].
      * intros [= <- <-]. split; [constructor|].
        intros e' [= <-]. left. now apply parse_raises_ValueError in Hparse.
    + intros [= <- <-]. split; [constructor|].
      intros e' [= <-]. right. exists i. split; [now left | assumption].
Qed.

(** The live loop when every text parses and the delay is accepted. *)
Lemma live_runs_ok (w : TrRun.World) (target : string) (max_hops run_delay : Z)
  (ks : list nat) :
  sleeps run_delay = true ->
  Forall (fun text => exists hops, parses_to text hops) (live_outputs w ks) ->
  forall hops_list,
  exists parsed,
    Forall2 parses_to (live_outputs w ks) parsed /\
    TrRun.live_runs w target max_hops run_delay ks hops_list =
      (live_events w run_delay ks, Ok (hops_list ++ parsed)).
Proof.
  intros Hdelay.
  induction ks as [|k rest IH]; intros Hparse hops_list.
  - exists []. simpl. rewrite app_nil_r. split; [constructor | reflexivity].
  - rewrite live_runs_step. cbv zeta. rewrite Hdelay.
    simpl live_outputs in *. simpl live_events.
    destruct (PingSpec.usable_output (TrRun.traceroute w k)) as [text|].
    + simpl in Hparse. inversion Hparse as [|? ? [hops Hhops] Hrest]; subst.
      unfold parses_to in Hhops. rewrite Hhops.
      destruct (IH Hrest (hops_list ++ [hops])) as [parsed [HF ->]].
      exists (hops :: parsed). simpl. split; [now constructor|].
      now rewrite <- !app_assoc.
    + simpl in Hparse. destruct (IH Hparse hops_list) as [parsed [HF ->]].
      exists parsed. simpl. split; [assumption|]. now rewrite <- app_assoc.
Qed.

(** The test loop when every file that exists is read and parses. *)
Lemma read_runs_ok (w : TrRun.World) (test : string) (indices : list Z) :
  Forall (readable w test) indices ->
  Forall (fun text => exists hops, parses_to text hops) (test_outputs w test indices) ->
  forall hops_list,
  exists parsed,
    Forall2 parses_to (test_outputs w test indices) parsed /\
    TrRun.read_runs w test indices hops_list =
      (test_events w test indices, Ok (hops_list ++ parsed)).
Proof.
  induction indices as [|i rest IH]; intros Hread Hparse hops_list.
  - exists []. simpl. rewrite app_nil_r. split; [constructor | reflexivity].
  - rewrite read_runs_step. simpl test_outputs in *. simpl test_events.
    inversion Hread as [|? ? Hi Hread']; subst.
    destruct (TrRun.files w (fixture_path test i)) as [|text|e] eqn:Hfile.
    + simpl in Hparse. destruct (IH Hread' Hparse hops_list) as [parsed [HF ->]].
      exists parsed. simpl. split; [assumption | reflexivity].
    + simpl in Hparse. inversion Hparse as [|? ? [hops Hhops] Hrest]; subst.
      unfold parses_to in Hhops. rewrite Hhops.
      destruct (IH Hread' Hrest (hops_list ++ [hops])) as [parsed [HF ->]].
      exists (hops :: parsed). simpl. split; [now constructor|].
      now rewrite <- !app_assoc.
    + exfalso. exact (Hi e Hfile).
Qed.

(** The end of [main] on the runs collected. *)
Lemma report_ok (args : Args) (w : TrRun.World) (hops_list : list (list Hop)) :
  exists final_stats,
    aggregate_stats hops_list = Ok final_stats /\
    StronglySorted Z.lt (map hop final_stats) /\
    TrRun.report args w hops_list = reports args w final_stats.
Proof.
  destruct (aggregate_stats_records hops_list) as [final [E [Hsorted _]]].
  exists final. split; [assumption|]. split; [assumption|].
  unfold TrRun.report, reports. rewrite E. simpl.
  destruct (TrRun.save_to_json w final (output args)) as [[]|e]; simpl; [|reflexivity].
  now destruct (TrRun.generate_boxplot w final (graph args)).
Qed.

(** The loops of [Trstats.main] are those of [TrRun.main] before an outside
    whose calls return. *)
Lemma read_runs_reliable (w : Trstats.World) (test : string) (indices : list Z) :
  forall hops_list,
    TrRun.read_runs (reliable w) test indices hops_list =
    Trstats.read_runs w test indices hops_list.
Proof.
  induction indices as [|i rest IH]; intros hops_list; [reflexivity|].
  cbn [TrRun.read_runs Trstats.read_runs]. unfold reliable at 1. cbn [TrRun.files].
  destruct (Trstats.files w (path_join test ("tr_run-" ++ str i ++ ".out"))) as [text|].
  - unfold lift. destruct (parse_traceroute_output text); cbn [io_bind]; [|reflexivity].
    now rewrite IH.
  - unfold emit. cbn [io_bind]. now rewrite IH.
Qed.

Lemma live_runs_reliable (w : Trstats.World) (target : string) (max_hops run_delay : Z)
  (ks : list nat) :
  (- TrRun.sleep_max <= run_delay <= TrRun.sleep_max)%Z ->
  forall hops_list,
    TrRun.live_runs (reliable w) target max_hops run_delay ks hops_list =
    Trstats.live_runs w target max_hops run_delay ks hops_list.
Proof.
  intros Hdelay.
  assert (Hsleep : TrRun.sleep run_delay = Trstats.sleep run_delay).
  { unfold TrRun.sleep, Trstats.sleep.
    replace (run_delay <? - TrRun.sleep_max)%Z with false by (symmetry; apply Z.ltb_ge; lia).
    replace (TrRun.sleep_max <? run_delay)%Z with false by (symmetry; apply Z.ltb_ge; lia).
    reflexivity. }
  induction ks as [|k rest IH]; intros hops_list; [reflexivity|].
  cbn [TrRun.live_runs Trstats.live_runs]. rewrite Hsleep.
  unfold reliable at 1. cbn [TrRun.traceroute].
  destruct (run_traceroute target max_hops (Trstats.traceroute w k)) as [ev [o|e]];
    [|reflexivity].
  cbn [io_bind].
  destruct (truthy o) as [text|].
  - unfold lift. destruct (parse_traceroute_output text) as [hops|e]; cbn [io_bind io_ret];
      [|reflexivity].
    destruct (Trstats.sleep run_delay) as [ev' [[]|e]]; cbn [io_bind app]; [|reflexivity].
    now rewrite IH.
  - cbn [io_bind io_ret].
    destruct (Trstats.sleep run_delay) as [ev' [[]|e]]; cbn [io_bind app]; [|reflexivity].
    now rewrite IH.
Qed.

(** [Trstats.main] is [TrRun.main] before an outside whose calls return, for
    a delay [time.sleep] converts. *)
Lemma trstats_main_reliable (args : Args) (w : Trstats.World) :
  (- TrRun.sleep_max <= run_delay args <= TrRun.sleep_max)%Z ->
  TrRun.main args (reliable w) = Trstats.main args w.
Proof.
  intros Hdelay. unfold TrRun.main, Trstats.main.
  assert (Hreport : forall hops_list,
            TrRun.report args (reliable w) hops_list = Trstats.report args hops_list).
  { intros hops_list. unfold TrRun.report, Trstats.report.
    destruct (aggregate_stats hops_list); reflexivity. }
  destruct (truthy (test args)) as [test|].
  - rewrite read_runs_reliable.
    destruct (Trstats.read_runs w test _ []) as [ev [hops_list|e]]; [|reflexivity].
    cbn [io_bind]. now rewrite Hreport.
  - destruct (truthy (target args)) as [target|]; [|reflexivity].
    rewrite live_runs_reliable by assumption.
    destruct (Trstats.live_runs w target _ _ _ []) as [ev [hops_list|e]]; [|reflexivity].
    cbn [io_bind]. now rewrite Hreport.
Qed.

End Main.

(** X12: the traceroute program ends in one of three ways.  Its loop over
    the runs raises, with neither [save_to_json] nor [generate_boxplot]
    called: the exception is [ValueError], or [OverflowError] for a delay
    that [time.sleep] cannot convert, or the exception raised by reading a
    fixture file that exists.  Or, the target missing outside the test
    mode, it prints one message and returns.  Or it gets to its reports:
    after every run, and nowhere before, it calls [save_to_json] on the
    records, which are in ascending order of hop number; it calls
    [generate_boxplot], on the same records, only when [save_to_json] has
    returned; and it ends as the last of these calls ends. *)
Theorem trstats_main_outcomes (args : Trstats.Args) (w : TrRun.World) :
  exists ev,
    Forall (fun ev => TrMain.is_report ev = false) ev /\
    ((exists e,
         TrRun.main args w = (ev, Raise e) /\
         (e = ValueError \/
          e = OverflowError /\
          (Trstats.run_delay args < - TrRun.sleep_max \/
           TrRun.sleep_max < Trstats.run_delay args)%Z \/
          exists test i,
            truthy (Trstats.test args) = Some test /\
            TrRun.files w (TrMain.fixture_path test i) = TrRun.Unreadable e)) \/
     (truthy (Trstats.test args) = None /\ truthy (Trstats.target args) = None /\
      ev = [Trstats.Print "Target is required when not in test mode."] /\
      TrRun.main args w = (ev, Ok tt)) \/
     exists final_stats,
       StronglySorted Z.lt (map Trstats.hop final_stats) /\
       TrRun.main args w = TrMain.then_reports ev args w final_stats).
Proof.
  unfold TrRun.main.
  assert (Hloop : forall (loop : io Trstats.event (list (list Trstats.Hop))) ev r,
            loop = (ev, r) ->
            (exists e, r = Raise e /\
                       (hops_list <~ loop ;; TrRun.report args w hops_list) = (ev, Raise e)) \/
            exists final_stats,
              StronglySorted Z.lt (map Trstats.hop final_stats) /\
              (hops_list <~ loop ;; TrRun.report args w hops_list) =
                TrMain.then_reports ev args w final_stats).
  { intros loop ev r ->. destruct r as [hops_list|e]; simpl.
    - right. destruct (report_ok args w hops_list) as [final [_ [Hsorted ->]]].
      exists final. split; [assumption|]. unfold TrMain.then_reports.
      now destruct (TrMain.reports args w final).
    - left. exists e. split; reflexivity. }
  destruct (truthy (Trstats.test args)) as [test|] eqn:Htest.
  - destruct (TrRun.read_runs w test
                (map Z.of_nat (seq 1 (Z.to_nat (Trstats.num_runs args)))) [])
      as [ev r] eqn:E.
    destruct (read_runs_quiet w test _ _ _ _ E) as [Hq He].
    exists ev. split; [assumption|]. rewrite <- E.
    destruct (Hloop _ ev r E) as [[e [-> Hmain]]|Hrep].
    + left. exists e. split; [assumption|].
      destruct (He e eq_refl) as [->|[i [_ Hi]]]; [now left|].
      right. right. exists test, i. split; [reflexivity | assumption].
    + right. right. exact Hrep.
  - destruct (truthy (Trstats.target args)) as [target|] eqn:Htarget.
    + destruct (TrRun.live_runs w target (Trstats.max_hops args) (Trstats.run_delay args)
                  (seq 0 (Z.to_nat (Trstats.num_runs args))) [])
        as [ev r] eqn:E.
      destruct (live_runs_quiet w target _ _ _ _ _ _ E) as [Hq He].
      exists ev. split; [assumption|]. rewrite <- E.
      destruct (Hloop _ ev r E) as [[e [-> Hmain]]|Hrep].
      * left. exists e. split; [assumption|].
        destruct (He e eq_refl) as [->|[-> Hs]]; [now left|].
        right. left. split; [reflexivity | assumption].
      * right. right. exact Hrep.
    + exists [Trstats.Print "Target is required when not in test mode."].
      split; [repeat constructor|]. right. left. tauto.
Qed.

(** X13: in the live mode (no test directory, a target), when [time.sleep]
    accepts the delay and every run output handed to the parser is parsed,
    the program prints the message of each failed run, sleeps once after
    each run, failed or not, and then makes its reports on the aggregation
    of the parsed outputs, taken in the order of the runs; a run that failed
    or printed nothing adds no run to the aggregation.  The program ends as
    the last report called ends. *)
Theorem trstats_main_live (args : Trstats.Args) (w : TrRun.World) (target : string) :
  truthy (Trstats.test args) = None ->
  truthy (Trstats.target args) = Some target ->
  (0 <= Trstats.run_delay args <= TrRun.sleep_max)%Z ->
  Forall (fun text => exists hops, TrMain.parses_to text hops)
    (TrMain.live_outputs w (TrMain.calls (Trstats.num_runs args))) ->
  exists parsed final_stats,
    Forall2 TrMain.parses_to
      (TrMain.live_outputs w (TrMain.calls (Trstats.num_runs args))) parsed /\
    Trstats.aggregate_stats parsed = Ok final_stats /\
    TrRun.main args w =
      TrMain.then_reports
        (TrMain.live_events w (Trstats.run_delay args) (TrMain.calls (Trstats.num_runs args)))
        args w final_stats.
Proof.
  intros Htest Htarget Hdelay Hparse. unfold TrRun.main. rewrite Htest, Htarget.
  assert (Hsleeps : TrMain.sleeps (Trstats.run_delay args) = true).
  { unfold TrMain.sleeps. apply andb_true_intro. split; apply Z.leb_le; lia. }
  destruct (live_runs_ok w target (Trstats.max_hops args) _ _ Hsleeps Hparse [])
    as [parsed [HF Hruns]].
  fold (TrMain.calls (Trstats.num_runs args)). rewrite Hruns. simpl.
  destruct (report_ok args w parsed) as [final [Hagg [_ ->]]].
  exists parsed, final. split; [assumption|]. split; [assumption|].
  unfold TrMain.then_reports. now destruct (TrMain.reports args w final).
Qed.

Lemma trstats_main_live_witness :
  exists parsed final_stats,
    Forall2 TrMain.parses_to [three_hops; three_hops] parsed /\
    Trstats.aggregate_stats parsed = Ok final_stats /\
    TrRun.main
      (Trstats.mkArgs 3 2 30 "out.json" "out.pdf" (Some "example.com") None)
      TrMain.first_run_fails
    = TrMain.then_reports
        [Trstats.Print "Error running traceroute: Temporary failure in name resolution";
         Trstats.Sleep 2; Trstats.Sleep 2; Trstats.Sleep 2]
        (Trstats.mkArgs 3 2 30 "out.json" "out.pdf" (Some "example.com") None)
        TrMain.first_run_fails final_stats.
Proof.
  apply (trstats_main_live
           (Trstats.mkArgs 3 2 30 "out.json" "out.pdf" (Some "example.com") None)
           TrMain.first_run_fails "example.com" eq_refl eq_refl).
  - unfold TrRun.sleep_max. simpl. lia.
  - repeat constructor; eexists; vm_compute; reflexivity.
Defined.

(** X14: in the test mode, when every fixture file that exists is read as a
    text and parsed, the program runs no process and never sleeps: it prints
    one message for each run index from 1 to num_runs whose file
    tr_run-<index>.out is missing, skips that run, and makes its reports on
    the aggregation of the parsed files in the order of the indices, whether
    a target is given or not.  The program ends as the last report called
    ends. *)
Theorem trstats_main_test (args : Trstats.Args) (w : TrRun.World) (test : string) :
  truthy (Trstats.test args) = Some test ->
  Forall (TrMain.readable w test) (TrMain.run_indices (Trstats.num_runs args)) ->
  Forall (fun text => exists hops, TrMain.parses_to text hops)
    (TrMain.test_outputs w test (TrMain.run_indices (Trstats.num_runs args))) ->
  exists parsed final_stats,
    Forall2 TrMain.parses_to
      (TrMain.test_outputs w test (TrMain.run_indices (Trstats.num_runs args))) parsed /\
    Trstats.aggregate_stats parsed = Ok final_stats /\
    TrRun.main args w =
      TrMain.then_reports
        (TrMain.test_events w test (TrMain.run_indices (Trstats.num_runs args)))
        args w final_stats.
Proof.
  intros Htest Hread Hparse. unfold TrRun.main. rewrite Htest.
  destruct (read_runs_ok w test _ Hread Hparse []) as [parsed [HF Hruns]].
  fold (TrMain.run_indices (Trstats.num_runs args)). rewrite Hruns. simpl.
  destruct (report_ok args w parsed) as [final [Hagg [_ ->]]].
  exists parsed, final. split; [assumption|]. split; [assumption|].
  unfold TrMain.then_reports. now destruct (TrMain.reports args w final).
Qed.

Lemma trstats_main_test_witness :
  exists parsed final_stats,
    Forall2 TrMain.parses_to [three_hops; example_line] parsed /\
    Trstats.aggregate_stats parsed = Ok final_stats /\
    TrRun.main (Trstats.mkArgs 3 1 30 "out.json" "out.pdf" None (Some "runs"))
      TrMain.two_fixtures
    = TrMain.then_reports
        [Trstats.Print "File runs/tr_run-2.out does not exist."]
        (Trstats.mkArgs 3 1 30 "out.json" "out.pdf" None (Some "runs"))
        TrMain.two_fixtures final_stats.
Proof.
  apply (trstats_main_test
           (Trstats.mkArgs 3 1 30 "out.json" "out.pdf" None (Some "runs"))
           TrMain.two_fixtures "runs" eq_refl).
  - repeat constructor; intros e; vm_compute; discriminate.
  - repeat constructor; eexists; vm_compute; reflexivity.
Defined.

(** X15: in the live mode with one run or more, a negative delay stops the
    program after its first run, without any report and having printed only
    what [run_traceroute] printed for that run.  The program ends by
    [ValueError], raised by the parser on the output of that run or by
    [time.sleep] on the negative delay; only when the output is parsed, or
    there is none, and the delay is below -9223372036 seconds, out of the
    range [time.sleep] converts, it ends by [OverflowError]. *)
Theorem trstats_main_negative_delay
  (args : Trstats.Args) (w : TrRun.World) (target : string) :
  truthy (Trstats.test args) = None ->
  truthy (Trstats.target args) = Some target ->
  (1 <= Trstats.num_runs args)%Z ->
  (Trstats.run_delay args < 0)%Z ->
  TrRun.main args w =
    (TrMain.runner_messages (TrRun.traceroute w 0),
     Raise (match PingSpec.usable_output (TrRun.traceroute w 0) with
            | Some traceroute_output =>
                match Trstats.parse_traceroute_output traceroute_output with
                | Ok _ => TrMain.sleep_error (Trstats.run_delay args)
                | Raise _ => ValueError
                end
            | None => TrMain.sleep_error (Trstats.run_delay args)
            end)) /\
  ((- TrRun.sleep_max <= Trstats.run_delay args)%Z ->
   TrRun.main args w = (TrMain.runner_messages (TrRun.traceroute w 0), Raise ValueError)).
Proof.
  intros Htest Htarget Hruns Hdelay.
  assert (Hsleeps : TrMain.sleeps (Trstats.run_delay args) = false).
  { unfold TrMain.sleeps. apply andb_false_intro1. apply Z.leb_gt. lia. }
  assert (Hmain : TrRun.main args w =
    (TrMain.runner_messages (TrRun.traceroute w 0),
     Raise (match PingSpec.usable_output (TrRun.traceroute w 0) with
            | Some traceroute_output =>
                match Trstats.parse_traceroute_output traceroute_output with
                | Ok _ => TrMain.sleep_error (Trstats.run_delay args)
                | Raise _ => ValueError
                end
            | None => TrMain.sleep_error (Trstats.run_delay args)
            end))).
  { unfold TrRun.main. rewrite Htest, Htarget.
    destruct (Z.to_nat (Trstats.num_runs args)) as [|n] eqn:En; [lia|].
    simpl seq. rewrite live_runs_step. cbv zeta. rewrite Hsleeps.
    destruct (PingSpec.usable_output (TrRun.traceroute w 0)) as [text|]; [|reflexivity].
    destruct (Trstats.parse_traceroute_output text) as [hops|e] eqn:Hparse; [reflexivity|].
    apply parse_raises_ValueError in Hparse. now subst. }
  split; [exact Hmain|].
  intros Hrange. rewrite Hmain.
  assert (Herr : TrMain.sleep_error (Trstats.run_delay args) = ValueError).
  { unfold TrMain.sleep_error.
    replace (Trstats.run_delay args <? - TrRun.sleep_max)%Z with false
      by (symmetry; apply Z.ltb_ge; lia).
    replace (TrRun.sleep_max <? Trstats.run_delay args)%Z with false
      by (symmetry; apply Z.ltb_ge; unfold TrRun.sleep_max; lia).
    reflexivity. }
  rewrite Herr.
  destruct (PingSpec.usable_output (TrRun.traceroute w 0)) as [text|]; [|reflexivity].
  now destruct (Trstats.parse_traceroute_output text).
Qed.

Lemma trstats_main_negative_delay_witness :
  TrRun.main
    (Trstats.mkArgs 2 (-1) 30 "out.json" "out.pdf" (Some "example.com") None)
    TrMain.no_output_directory
  = ([], Raise ValueError) /\
  TrRun.main
    (Trstats.mkArgs 2 (-10000000000) 30 "out.json" "out.pdf" (Some "example.com") None)
    TrMain.no_output_directory
  = ([], Raise OverflowError).
Proof.
  split.
  - apply (trstats_main_negative_delay
             (Trstats.mkArgs 2 (-1) 30 "out.json" "out.pdf" (Some "example.com") None)
             TrMain.no_output_directory "example.com");
      unfold TrRun.sleep_max; simpl; try reflexivity; lia.
  - apply (trstats_main_negative_delay
             (Trstats.mkArgs 2 (-10000000000) 30 "out.json" "out.pdf"
                (Some "example.com") None)
             TrMain.no_output_directory "example.com");
      simpl; try reflexivity; lia.
Defined.

Section NoData.

Import Trstats TrMain.

(** Runs without any hop aggregate to the empty list. *)
Lemma aggregate_stats_no_hop (parsed : list (list Hop)) :
  Forall (fun hops => hops = []) parsed -> aggregate_stats parsed = Ok [].
Proof.
  intros Hall. unfold aggregate_stats. rewrite add_runs_concat.
  assert (E : List.concat parsed = []).
  { induction Hall as [|hops rest Hhops _ IH]; [reflexivity|].
    simpl. now rewrite Hhops, IH. }
  rewrite E. reflexivity.
Qed.

Lemma parsed_no_hop (texts : list string) (parsed : list (list Hop)) :
  Forall (fun text => parses_to text []) texts ->
  Forall2 parses_to texts parsed ->
  Forall (fun hops => hops = []) parsed.
Proof.
  intros Hall HF. induction HF as [|text hops texts parsed Hp HF IH]; [constructor|].
  inversion Hall as [|? ? Ht Hrest]; subst. constructor; [|now apply IH].
  unfold parses_to in *. congruence.
Qed.

End NoData.

(** X20: runs that give no hop do not stop the traceroute program before
    its reports.  In the live mode with a delay that [time.sleep] accepts,
    when every run fails, prints nothing, or prints a text without any hop,
    and in the test mode, when every fixture file is missing or is read as
    a text without any hop, the program calls [save_to_json] on the empty
    list, so that the JSON file is written, and then, if that call returns,
    [generate_boxplot] on the empty list; it ends as the last call made
    ends. *)
Theorem trstats_main_no_data (args : Trstats.Args) (w : TrRun.World) :
  (forall target,
      truthy (Trstats.test args) = None ->
      truthy (Trstats.target args) = Some target ->
      (0 <= Trstats.run_delay args <= TrRun.sleep_max)%Z ->
      Forall (fun text => TrMain.parses_to text [])
        (TrMain.live_outputs w (TrMain.calls (Trstats.num_runs args))) ->
      TrRun.main args w =
        TrMain.then_reports
          (TrMain.live_events w (Trstats.run_delay args)
             (TrMain.calls (Trstats.num_runs args)))
          args w []) /\
  (forall test,
      truthy (Trstats.test args) = Some test ->
      Forall (TrMain.readable w test) (TrMain.run_indices (Trstats.num_runs args)) ->
      Forall (fun text => TrMain.parses_to text [])
        (TrMain.test_outputs w test (TrMain.run_indices (Trstats.num_runs args))) ->
      TrRun.main args w =
        TrMain.then_reports
          (TrMain.test_events w test (TrMain.run_indices (Trstats.num_runs args)))
          args w []).
Proof.
  split.
  - intros target Htest Htarget Hdelay Hnone. unfold TrRun.main. rewrite Htest, Htarget.
    assert (Hsleeps : TrMain.sleeps (Trstats.run_delay args) = true).
    { unfold TrMain.sleeps. apply andb_true_intro. split; apply Z.leb_le; lia. }
    assert (Hparse : Forall (fun text => exists hops, TrMain.parses_to text hops)
                       (TrMain.live_outputs w (TrMain.calls (Trstats.num_runs args)))).
    { eapply Forall_impl; [|exact Hnone]. intros text Ht. now exists []. }
    destruct (live_runs_ok w target (Trstats.max_hops args) _ _ Hsleeps Hparse [])
      as [parsed [HF Hruns]].
    fold (TrMain.calls (Trstats.num_runs args)). rewrite Hruns. simpl.
    destruct (report_ok args w parsed) as [final [Hagg [_ ->]]].
    rewrite (aggregate_stats_no_hop parsed (parsed_no_hop _ _ Hnone HF)) in Hagg.
    injection Hagg as <-.
    unfold TrMain.then_reports. now destruct (TrMain.reports args w []).
  - intros test Htest Hread Hnone. unfold TrRun.main. rewrite Htest.
    assert (Hparse : Forall (fun text => exists hops, TrMain.parses_to text hops)
                       (TrMain.test_outputs w test
                          (TrMain.run_indices (Trstats.num_runs args)))).
    { eapply Forall_impl; [|exact Hnone]. intros text Ht. now exists []. }
    destruct (read_runs_ok w test _ Hread Hparse []) as [parsed [HF Hruns]].
    fold (TrMain.run_indices (Trstats.num_runs args)). rewrite Hruns. simpl.
    destruct (report_ok args w parsed) as [final [Hagg [_ ->]]].
    rewrite (aggregate_stats_no_hop parsed (parsed_no_hop _ _ Hnone HF)) in Hagg.
    injection Hagg as <-.
    unfold TrMain.then_reports. now destruct (TrMain.reports args w []).
Qed.

Lemma trstats_main_no_data_witness :
  TrRun.main
    (Trstats.mkArgs 2 1 30 "out.json" "out.pdf" None (Some "nowhere"))
    (TrMain.unknown_host TrMain.plot_needs_a_box)
  = ([Trstats.Print "File nowhere/tr_run-1.out does not exist.";
      Trstats.Print "File nowhere/tr_run-2.out does not exist.";
      Trstats.SaveToJson [] "out.json";
      Trstats.GenerateBoxplot [] "out.pdf"], Raise ValueError).
Proof.
  apply (proj2 (trstats_main_no_data
                  (Trstats.mkArgs 2 1 30 "out.json" "out.pdf" None (Some "nowhere"))
                  (TrMain.unknown_host TrMain.plot_needs_a_box)) "nowhere" eq_refl).
  - repeat constructor; intros e; vm_compute; discriminate.
  - constructor.
Defined.

(** ** Labels and file names *)

Section Decimal.

Import Trstats TrMain TrPlot.

Lemma str_inj (i j : Z) : str i = str j -> i = j.
Proof.
  unfold str. intros H.
  assert (Hnil : forall z, Z.to_int z <> Decimal.Pos Decimal.Nil /\
                           Z.to_int z <> Decimal.Neg Decimal.Nil).
  { intros [|p|p]; simpl; split; try discriminate; intros [= E];
      now apply (Unsigned.to_uint_nonnil p). }
  apply (f_equal NilZero.int_of_string) in H.
  rewrite !NilZero.isi in H by apply Hnil.
  injection H as H. now apply DecimalZ.to_int_inj.
Qed.

Lemma append_length (a b : string) :
  String.length (a ++ b) = (String.length a + String.length b)%nat.
Proof. induction a as [|c a IH]; simpl; [reflexivity | now rewrite IH]. Qed.

Lemma append_cancel_l (a x y : string) : (a ++ x = a ++ y)%string -> x = y.
Proof. induction a as [|c a IH]; simpl; [tauto | intros [= H]; now apply IH]. Qed.

Lemma append_cancel_r (s : string) :
  forall x y, (x ++ s = y ++ s)%string -> x = y.
Proof.
  induction x as [|c x IH]; intros [|d y] H; simpl in H.
  - reflexivity.
  - apply (f_equal String.length) in H. simpl in H. rewrite append_length in H. lia.
  - apply (f_equal String.length) in H. simpl in H. rewrite append_length in H. lia.
  - injection H as -> H. now rewrite (IH _ H).
Qed.

Lemma NoDup_map_str (l : list Z) : NoDup l -> NoDup (map str l).
Proof.
  induction 1 as [|x l Hx Hnd IH]; simpl; constructor; [|assumption].
  intros Hin. apply in_map_iff in Hin. destruct Hin as [y [E Hy]].
  apply str_inj in E. now subst.
Qed.

End Decimal.

(** X16: two runs of the test mode never read the same file: the paths
    <test>/tr_run-<i>.out of two different run indices are different. *)
Theorem fixture_paths_differ (test : string) (i j : Z) :
  i <> j -> TrMain.fixture_path test i <> TrMain.fixture_path test j.
Proof.
  intros Hij H. apply Hij. unfold TrMain.fixture_path, Trstats.path_join in H.
  destruct (PyStr.is_empty test || PyStr.endswith test "/")%bool.
  - apply append_cancel_l in H. apply (append_cancel_l "tr_run-") in H.
    apply append_cancel_r in H. now apply str_inj.
  - apply append_cancel_l in H. apply (append_cancel_l "/tr_run-") in H.
    apply append_cancel_r in H. now apply str_inj.
Qed.

Lemma fixture_paths_differ_witness :
  TrMain.fixture_path "runs" 1 <> TrMain.fixture_path "runs" 10.
Proof.
  apply fixture_paths_differ. discriminate.
Defined.

(** X17: on what [aggregate_stats] returns, the data [generate_boxplot]
    computes for the plotting library are one box for each record, made of
    its min, med, avg and max in this order, and as many labels, which are
    the hop numbers in decimal, in ascending order of hop number and
    pairwise different: no two boxes are drawn under one label. *)
Theorem boxplot_of_aggregate
  (hops_list : list (list Trstats.Hop)) (final_stats : list Trstats.Hop) :
  Trstats.aggregate_stats hops_list = Ok final_stats ->
  List.length (TrPlot.latency_distribution final_stats) = List.length final_stats /\
  List.length (TrPlot.hops final_stats) = List.length final_stats /\
  (forall i r,
      nth_error final_stats i = Some r ->
      nth_error (TrPlot.latency_distribution final_stats) i =
        Some [Trstats.min r; Trstats.med r; Trstats.avg r; Trstats.max r] /\
      nth_error (TrPlot.hops final_stats) i = Some (Trstats.str (Trstats.hop r))) /\
  StronglySorted Z.lt (map Trstats.hop final_stats) /\
  NoDup (TrPlot.hops final_stats).
Proof.
  intros Hagg.
  destruct (aggregate_stats_records hops_list) as [final [E [Hsorted _]]].
  rewrite Hagg in E. injection E as <-.
  unfold TrPlot.latency_distribution, TrPlot.hops.
  split; [apply length_map|]. split; [apply length_map|].
  split; [|split; [assumption|]].
  - intros i r Hi. split.
    + now rewrite nth_error_map, Hi.
    + now rewrite nth_error_map, Hi.
  - rewrite <- (map_map Trstats.hop Trstats.str).
    apply NoDup_map_str. now apply sorted_lt_NoDup.
Qed.

Lemma boxplot_of_aggregate_witness :
  TrPlot.hops
    [Trstats.mkHop 2 1 [["a.example"; "(10.0.0.1)"]] 4 1.75 1;
     Trstats.mkHop 7 2 [["b.example"; "(10.0.0.2)"]] 9 6 5] = ["1"; "2"] /\
  NoDup
    (TrPlot.hops
       [Trstats.mkHop 2 1 [["a.example"; "(10.0.0.1)"]] 4 1.75 1;
        Trstats.mkHop 7 2 [["b.example"; "(10.0.0.2)"]] 9 6 5]).
Proof.
  assert (Hagg : Trstats.aggregate_stats two_runs =
                 Ok [Trstats.mkHop 2 1 [["a.example"; "(10.0.0.1)"]] 4 1.75 1;
                     Trstats.mkHop 7 2 [["b.example"; "(10.0.0.2)"]] 9 6 5])
    by (vm_compute; reflexivity).
  split; [vm_compute; reflexivity|].
  exact (proj2 (proj2 (proj2 (proj2 (boxplot_of_aggregate two_runs _ Hagg))))).
Defined.

(** ** The median of the aggregations *)

Section MedianOfAggregates.

(** The median of a list without NaN lies between a lower bound of its
    items and an upper bound of its items: it is an item, or it is the float
    [(a + b) / 2] of two items [a <= b] whose float sum is finite. *)
Lemma median_between (data : list float) (m lo hi : float) :
  Forall not_nan data ->
  PyNum.median data = Ok m ->
  Forall (fle lo) data -> Forall (fun y => fle y hi) data ->
  (Nat.odd (List.length data) = true -> In m data /\ fle lo m /\ fle m hi) /\
  (Nat.odd (List.length data) = false ->
   exists a b,
     In a data /\ In b data /\ fle a b /\ m = (a + b) / 2 /\
     (is_finite (a + b) = true -> fle lo m /\ fle m hi)).
Proof.
  intros Hnan Hmed Hlo Hhi.
  destruct data as [|x l]; [discriminate|].
  destruct (median_cases x l Hnan) as [m' [Hm' [Hodd Heven]]].
  rewrite Hmed in Hm'. injection Hm' as <-.
  rewrite Forall_forall in Hlo, Hhi.
  split.
  - intros Ho. specialize (Hodd Ho). split; [assumption|]. split; auto.
  - intros He. destruct (Heven He) as [a [b [Ha [Hb [Hab Hm]]]]].
    exists a, b. split; [assumption|]. split; [assumption|].
    split; [assumption|]. split; [assumption|].
    intros Hfin. destruct (mean2_ordered a b Hab Hfin) as [H1 H2]. rewrite Hm.
    split.
    + apply (fle_trans lo a); [now apply Hlo | assumption].
    + apply (fle_trans _ b); [assumption | now apply Hhi].
Qed.

End MedianOfAggregates.

(** X18: [aggregate_stats] keeps the order min <= med <= max.  When every
    hop of the runs has min <= med <= max, none of them NaN, each record
    returned has its med between its min and its max: the med is the med of
    one hop of that number when their number is odd, and when it is even the
    float (a + b) / 2 of the meds a <= b of two hops of that number, which
    lies between the min and the max whenever the float a + b is finite. *)
Theorem aggregate_stats_med_bounds
  (hops_list : list (list Trstats.Hop)) (final_stats : list Trstats.Hop) :
  Trstats.aggregate_stats hops_list = Ok final_stats ->
  Forall (fun h => not_nan (Trstats.min h) /\ not_nan (Trstats.med h) /\
                   not_nan (Trstats.max h) /\
                   fle (Trstats.min h) (Trstats.med h) /\
                   fle (Trstats.med h) (Trstats.max h))
    (List.concat hops_list) ->
  forall r, In r final_stats ->
    let g := TrSpec.group (Trstats.hop r) (List.concat hops_list) in
    (Nat.odd (List.length g) = true ->
     (exists h, In h g /\ Trstats.med r = Trstats.med h) /\
     fle (Trstats.min r) (Trstats.med r) /\ fle (Trstats.med r) (Trstats.max r)) /\
    (Nat.odd (List.length g) = false ->
     exists h1 h2,
       In h1 g /\ In h2 g /\ fle (Trstats.med h1) (Trstats.med h2) /\
       Trstats.med r = (Trstats.med h1 + Trstats.med h2) / 2 /\
       (is_finite (Trstats.med h1 + Trstats.med h2) = true ->
        fle (Trstats.min r) (Trstats.med r) /\ fle (Trstats.med r) (Trstats.max r))).
Proof.
  intros Hagg Hinv r Hr g.
  destruct (aggregate_stats_records hops_list) as [final [E [_ [_ Hall]]]].
  rewrite Hagg in E. injection E as <-.
  rewrite Forall_forall in Hall, Hinv.
  destruct (Hall r Hr) as [_ [Hmax [Hmed [Hmin _]]]]. cbv zeta in *. fold g in Hmax, Hmed, Hmin.
  assert (Hg : forall h, In h g ->
                 not_nan (Trstats.min h) /\ not_nan (Trstats.med h) /\
                 not_nan (Trstats.max h) /\
                 fle (Trstats.min h) (Trstats.med h) /\
                 fle (Trstats.med h) (Trstats.max h)).
  { intros h Hh. apply group_In in Hh. apply Hinv. tauto. }
  assert (Hnan : forall (f : Trstats.Hop -> float),
            (forall h, In h g -> not_nan (f h)) -> Forall not_nan (map f g)).
  { intros f Hf. apply Forall_forall. intros x Hx. apply in_map_iff in Hx.
    destruct Hx as [h [<- Hh]]. now apply Hf. }
  destruct (min_spec _ _ (Hnan Trstats.min (fun h Hh => proj1 (Hg h Hh))) Hmin)
    as [_ Hlo].
  destruct (max_spec _ _
              (Hnan Trstats.max (fun h Hh => proj1 (proj2 (proj2 (Hg h Hh))))) Hmax)
    as [_ Hhi].
  rewrite Forall_forall in Hlo, Hhi.
  assert (Hlo' : Forall (fle (Trstats.min r)) (map Trstats.med g)).
  { apply Forall_forall. intros x Hx. apply in_map_iff in Hx. destruct Hx as [h [<- Hh]].
    apply (fle_trans _ (Trstats.min h)); [apply Hlo; now apply in_map|].
    apply (Hg h Hh). }
  assert (Hhi' : Forall (fun y => fle y (Trstats.max r)) (map Trstats.med g)).
  { apply Forall_forall. intros x Hx. apply in_map_iff in Hx. destruct Hx as [h [<- Hh]].
    apply (fle_trans _ (Trstats.max h)); [apply (Hg h Hh) | apply Hhi; now apply in_map]. }
  destruct (median_between (map Trstats.med g) (Trstats.med r)
              (Trstats.min r) (Trstats.max r)
              (Hnan Trstats.med (fun h Hh => proj1 (proj2 (Hg h Hh)))) Hmed Hlo' Hhi')
    as [Hodd Heven].
  rewrite length_map in Hodd, Heven. split.
  - intros Ho. destruct (Hodd Ho) as [Hin Hb]. split; [|assumption].
    apply in_map_iff in Hin. destruct Hin as [h [Eh Hh]]. exists h. now split.
  - intros He. destruct (Heven He) as [a [b [Ha [Hb [Hab [Hm Hfin]]]]]].
    apply in_map_iff in Ha. destruct Ha as [h1 [<- H1]].
    apply in_map_iff in Hb. destruct Hb as [h2 [<- H2]].
    exists h1, h2. tauto.
Qed.

Lemma aggregate_stats_med_bounds_witness :
  Trstats.aggregate_stats two_runs =
    Ok [Trstats.mkHop 2 1 [["a.example"; "(10.0.0.1)"]] 4 1.75 1;
        Trstats.mkHop 7 2 [["b.example"; "(10.0.0.2)"]] 9 6 5] /\
  fle 1 1.75 /\ fle 1.75 4.
Proof.
  assert (Hagg : Trstats.aggregate_stats two_runs =
                 Ok [Trstats.mkHop 2 1 [["a.example"; "(10.0.0.1)"]] 4 1.75 1;
                     Trstats.mkHop 7 2 [["b.example"; "(10.0.0.2)"]] 9 6 5])
    by (vm_compute; reflexivity).
  assert (Hinv : Forall (fun h => not_nan (Trstats.min h) /\ not_nan (Trstats.med h) /\
                                  not_nan (Trstats.max h) /\
                                  fle (Trstats.min h) (Trstats.med h) /\
                                  fle (Trstats.med h) (Trstats.max h))
                   (List.concat two_runs))
    by (repeat constructor).
  destruct (aggregate_stats_med_bounds two_runs _ Hagg Hinv
              (Trstats.mkHop 2 1 [["a.example"; "(10.0.0.1)"]] 4 1.75 1)
              (or_introl eq_refl)) as [_ Heven].
  destruct (Heven eq_refl) as [h1 [h2 [H1 [H2 [_ [_ Hfin]]]]]].
  split; [exact Hagg|].
  apply Hfin.
  simpl in H1, H2.
  destruct H1 as [<-|[<-|[]]]; destruct H2 as [<-|[<-|[]]]; vm_compute; reflexivity.
Defined.

(** X19: for summaries without NaN, the med that [aggregate_ping_stats]
    returns is the float (a + b) / 2 of two pooled values a <= b, and it
    lies between the min and the max returned whenever the float a + b is
    finite. *)
Theorem aggregate_ping_stats_med_bounds
  (s : Pingstats.Stats) (l : list Pingstats.Stats) :
  Forall (fun t => Forall not_nan (PingAgg.fields t)) (s :: l) ->
  exists r a b,
    Pingstats.aggregate_ping_stats (s :: l) = Ok r /\
    In a (PingAgg.pooled (s :: l)) /\ In b (PingAgg.pooled (s :: l)) /\
    fle a b /\ Pingstats.med r = (a + b) / 2 /\
    (is_finite (a + b) = true ->
     fle (Pingstats.min r) (Pingstats.med r) /\ fle (Pingstats.med r) (Pingstats.max r)).
Proof.
  intros Hnan.
  assert (Hpool : Forall not_nan (PingAgg.pooled (s :: l))).
  { apply Forall_forall. intros x Hx. apply pooled_In in Hx.
    destruct Hx as [t [Ht Hx]]. rewrite Forall_forall in Hnan.
    specialize (Hnan t Ht). rewrite Forall_forall in Hnan. now apply Hnan. }
  assert (Heven : Nat.odd (List.length (PingAgg.pooled (s :: l))) = false)
    by (rewrite pooled_length; apply odd_four).
  unfold Pingstats.aggregate_ping_stats. rewrite all_latencies_pooled.
  remember (PingAgg.pooled (s :: l)) as pool eqn:Epool.
  destruct pool as [|x pool]; [simpl in Epool; discriminate|].
  destruct (median_ok x pool) as [md Hmd].
  inversion Hpool as [|? ? Hx Hrest]; subst.
  destruct (min_fold pool x Hx Hrest) as [_ [Hmin_x Hmin_all]].
  destruct (max_fold pool x Hx Hrest) as [_ [Hmax_x Hmax_all]].
  cbv zeta in *.
  destruct (median_between (x :: pool) md _ _ Hpool Hmd
              (Forall_cons x Hmin_x Hmin_all) (Forall_cons x Hmax_x Hmax_all))
    as [_ Hev].
  destruct (Hev Heven) as [a [b [Ha [Hb [Hab [Hm Hfin]]]]]].
  rewrite truediv_len_ok, Hmd. simpl.
  eexists. exists a, b. split; [reflexivity|]. simpl.
  split; [assumption|]. split; [assumption|]. split; [assumption|].
  split; assumption.
Qed.

Lemma aggregate_ping_stats_med_bounds_witness :
  exists r,
    Pingstats.aggregate_ping_stats [Pingstats.mkStats 3 4 2 1; Pingstats.mkStats 4 5 3 2]
      = Ok r /\
    Pingstats.med r = 3 /\
    fle (Pingstats.min r) (Pingstats.med r) /\ fle (Pingstats.med r) (Pingstats.max r).
Proof.
  assert (Hnan : Forall (fun t => Forall not_nan (PingAgg.fields t))
                   [Pingstats.mkStats 3 4 2 1; Pingstats.mkStats 4 5 3 2])
    by (repeat constructor).
  destruct (aggregate_ping_stats_med_bounds _ _ Hnan)
    as [r [a [b [Hr [Ha [Hb [_ [Hmed Hfin]]]]]]]].
  exists r. split; [assumption|].
  split; [injection Hr as <-; vm_compute; reflexivity|].
  apply Hfin.
  simpl in Ha, Hb.
  repeat (destruct Ha as [<-|Ha]; [repeat (destruct Hb as [<-|Hb]; [vm_compute; reflexivity|]);
                                   destruct Hb|]).
  destruct Ha.
Defined.
